(** * Dataset generation for defect segmentation: a shallow embedding

    This development embeds [generate_dataset.py] and checks the properties
    its design document states about it.  The embedding follows the script
    function by function:

    - binary64 arithmetic ([PyFloat]) for [int(triplets_len * split_ratio)]
      and for the train ratio [1.0 - val - test];
    - Python slicing ([PySeq]) with its negative-index and clamping rules;
    - [posixpath] ([PosixPath]): [join], [split], [basename], [splitext];
    - the insertion-ordered [dict] that holds the splits;
    - the pipeline itself, written in a small trace-and-exception monad whose
      events are the calls that touch the file system.

    What lives outside the script (the file system seen through [glob], the
    iteration order of a Python [set], the seeded shuffle of [random], image
    decoding and contour drawing of [cv2], and the defect detector) is an
    interface, [World].  A pair whose images cannot be read stops the run:
    [cv2.imread] returns [None], and the script fails where it first uses
    the missing image.  Writes go to directories the script has just
    created and are taken to succeed. *)

From Stdlib Require Import ZArith Lia Bool Ascii.
From Stdlib Require Import Floats.SpecFloat.
From stdpp Require Import base list strings gmap sorting.

Local Open Scope Z_scope.

(** ** Exceptions and results *)

Inductive exn : Type :=
  | OverflowError   (* int too large for a float, or int() of an infinity *)
  | ValueError      (* int() of a NaN *)
  | IndexError      (* list index out of range *)
  | KeyError        (* missing dictionary key *)
  | AttributeError  (* an attribute of [None]: [img.shape] of an unread image *)
  | OSError         (* a file that cannot be opened: FileNotFoundError and kin *)
  | Cv2Error.       (* cv2.error (TypeError in older bindings): not an image *)

Inductive result (A : Type) : Type :=
  | Ok (a : A)
  | Raise (e : exn).
Arguments Ok {A} a.
Arguments Raise {A} e.

Global Instance result_ret : MRet result := fun A a => Ok a.

Global Instance result_bind : MBind result := fun A B k r =>
  match r with
  | Ok a => k a
  | Raise e => Raise e
  end.

Global Instance result_fmap : FMap result := fun A B f r =>
  match r with
  | Ok a => Ok (f a)
  | Raise e => Raise e
  end.

Definition is_ok {A} (r : result A) : bool :=
  match r with Ok _ => true | Raise _ => false end.

(** ** Binary64 floats, as Python's [float] *)

Module PyFloat.

Definition prec : Z := 53.
Definition emax : Z := 1024.

Definition float : Type := spec_float.

(** [float(n)] for a Python int (PyLong_AsDouble): round to nearest even,
    OverflowError when the int is too large. *)
Definition of_int (n : Z) : result float :=
  match binary_normalize prec emax n 0 false with
  | S754_infinity _ => Raise OverflowError
  | f => Ok f
  end.

Definition mul (x y : float) : float := SFmul prec emax x y.
Definition sub (x y : float) : float := SFsub prec emax x y.

(** [int(x)] for a float: truncation towards zero. *)
Definition to_int (x : float) : result Z :=
  match x with
  | S754_zero _ => Ok 0
  | S754_infinity _ => Raise OverflowError
  | S754_nan => Raise ValueError
  | S754_finite s m e => Ok (cond_Zopp s (Z.shiftl (Zpos m) e))
  end.

(** [n * x] for an int [n] and a float [x]. *)
Definition int_mul (n : Z) (x : float) : result float :=
  fn ← of_int n; Ok (mul fn x).

(** [int(n * x)], the length [split_len] of a split. *)
Definition int_of_mul (n : Z) (x : float) : result Z :=
  product ← int_mul n x; to_int product.

(** [0.0 <= x] and [x <= 1.0], the comparisons of Python. *)
Definition zero : float := S754_zero false.
Definition one : float := S754_finite false 4503599627370496 (-52).

Definition leb (x y : float) : bool := SFleb x y.

Definition is_finite (x : float) : bool :=
  match x with
  | S754_zero _ | S754_finite _ _ _ => true
  | _ => false
  end.

(** The floats of the script and of the examples. *)
Definition f0_1 : float := S754_finite false 7205759403792794 (-56).   (* 0.1 *)
Definition f0_5 : float := S754_finite false 4503599627370496 (-53).   (* 0.5 *)
Definition f0_6 : float := S754_finite false 5404319552844595 (-53).   (* 0.6 *)
Definition f0_8 : float := S754_finite false 7205759403792794 (-53).   (* 0.8 *)
Definition f0_2 : float := S754_finite false 7205759403792794 (-55).   (* 0.2 *)
Definition f0_81 : float := S754_finite false 7295831396340204 (-53).  (* 0.81 *)
Definition f0_09 : float := S754_finite false 6485183463413514 (-56).  (* 0.09 *)
Definition neg (x : float) : float := SFopp x.                         (* -x *)

End PyFloat.

(** ** Python sequences: slices *)

Module PySeq.

(** PySlice_AdjustIndices for step 1: a negative bound counts from the
    end, and every bound is clamped to [0, n]. *)
Definition adjust (n i : Z) : Z :=
  if i <? 0 then Z.max 0 (i + n) else Z.min i n.

(** [l[start:stop]]; [None] is an omitted bound. *)
Definition slice {A} (l : list A) (start stop : option Z) : list A :=
  let n := Z.of_nat (length l) in
  let lo := match start with Some i => adjust n i | None => 0 end in
  let hi := match stop with Some j => adjust n j | None => n end in
  take (Z.to_nat (hi - lo)) (drop (Z.to_nat lo) l).

(** [l[i]] for a non-negative index [i]. *)
Definition getitem {A} (l : list A) (i : nat) : result A :=
  match l !! i with
  | Some x => Ok x
  | None => Raise IndexError
  end.

End PySeq.

(** ** [posixpath] *)

Module PosixPath.

Definition sep : ascii := "/"%char.
Definition extsep : ascii := "."%char.

(** [s.rfind(c)] counted from offset [i]: the index of the last
    occurrence of [c], or -1. *)
Fixpoint rfind_from (c : ascii) (s : string) (i : Z) : Z :=
  match s with
  | EmptyString => -1
  | String a s' =>
      let r := rfind_from c s' (i + 1) in
      if r =? -1 then (if Ascii.eqb a c then i else -1) else r
  end.

Definition rfind (c : ascii) (s : string) : Z := rfind_from c s 0.

(** [s[:n]] and [s[n:]] for [0 <= n]. *)
Fixpoint str_take (n : nat) (s : string) : string :=
  match n, s with
  | S n', String a s' => String a (str_take n' s')
  | _, _ => EmptyString
  end.

Fixpoint str_drop (n : nat) (s : string) : string :=
  match n, s with
  | S n', String _ s' => str_drop n' s'
  | _, _ => s
  end.

Definition startswith (c : ascii) (s : string) : bool :=
  match s with
  | String a _ => Ascii.eqb a c
  | EmptyString => false
  end.

Fixpoint endswith (c : ascii) (s : string) : bool :=
  match s with
  | EmptyString => false
  | String a EmptyString => Ascii.eqb a c
  | String _ s' => endswith c s'
  end.

(** [s.rstrip(c)]. *)
Fixpoint rstrip (c : ascii) (s : string) : string :=
  match s with
  | EmptyString => EmptyString
  | String a s' =>
      match rstrip c s' with
      | EmptyString => if Ascii.eqb a c then EmptyString else String a EmptyString
      | t => String a t
      end
  end.

(** One step of [join]: the accumulated [path] and the next component. *)
Definition join2 (path b : string) : string :=
  if startswith sep b then b
  else if (String.eqb path EmptyString || endswith sep path)%bool then path +:+ b
  else path +:+ String sep b.

(** [os.path.join(a, *p)]. *)
Definition join (a : string) (p : list string) : string :=
  fold_left join2 p a.

(** [os.path.split(p)]. *)
Definition split (p : string) : string * string :=
  let i := Z.to_nat (rfind sep p + 1) in
  let head := str_take i p in
  let tail := str_drop i p in
  let head' :=
    match rstrip sep head with
    | EmptyString => head      (* empty, or made of separators only *)
    | h => h
    end in
  (head', tail).

(** [os.path.basename(p)]. *)
Definition basename (p : string) : string :=
  str_drop (Z.to_nat (rfind sep p + 1)) p.

(** The loop of [genericpath._splitext] that skips leading dots: is there
    a character other than the dot in [p[i : i + fuel]]? *)
Fixpoint has_stem (p : string) (i : nat) (fuel : nat) : bool :=
  match fuel with
  | O => false
  | S fuel' =>
      match String.get i p with
      | Some a => if Ascii.eqb a extsep then has_stem p (S i) fuel' else true
      | None => true
      end
  end.

(** [os.path.splitext(p)]. *)
Definition splitext (p : string) : string * string :=
  let sepIndex := rfind sep p in
  let dotIndex := rfind extsep p in
  if (sepIndex <? dotIndex) &&
     has_stem p (Z.to_nat (sepIndex + 1)) (Z.to_nat (dotIndex - (sepIndex + 1)))
  then (str_take (Z.to_nat dotIndex) p, str_drop (Z.to_nat dotIndex) p)
  else (p, EmptyString).

End PosixPath.

(** ** Insertion-ordered dictionaries with string keys *)

Definition dict (V : Type) : Type := list (string * V).

Fixpoint dict_get {V} (d : dict V) (k : string) : result V :=
  match d with
  | [] => Raise KeyError
  | (k', v) :: d' => if String.eqb k' k then Ok v else dict_get d' k
  end.

(** [d[k] = v]: an existing key keeps its position. *)
Fixpoint dict_set {V} (d : dict V) (k : string) (v : V) : dict V :=
  match d with
  | [] => [(k, v)]
  | (k', v') :: d' =>
      if String.eqb k' k then (k', v) :: d' else (k', v') :: dict_set d' k v
  end.

Definition dict_values {V} (d : dict V) : list V := d.*2.
Definition dict_keys {V} (d : dict V) : list string := d.*1.

(** ** Data of the pipeline *)

(** The tuple [(collection_id, clean_dir, noisy_dir, img_name)]. *)
Record img_triplet : Type := Triplet {
  collection_id : string;
  clean_dir : string;
  noisy_dir : string;
  img_name : string
}.

Global Instance img_triplet_eq_dec : EqDecision img_triplet.
Proof. solve_decision. Defined.

(** A decoded image: rows of pixels, each pixel a list of channel values. *)
Definition image : Type := list (list (list Z)).

(** [img.shape[0]] and [img.shape[1]]. *)
Definition img_height (img : image) : nat := length img.
Definition img_width (img : image) : nat :=
  match img with
  | [] => O
  | row :: _ => length row
  end.

(** The shape of every row: its length in pixels and the channels of each. *)
Definition img_shape (img : image) : list (list nat) :=
  map (map (@length Z)) img.

(** [np.zeros_like(img)]. *)
Definition zeros_like (img : image) : image :=
  map (map (map (fun _ : Z => 0))) img.

(** A contour is a sequence of points; [c.reshape(-1, 2).tolist()] lists
    them as pairs. *)
Definition contour : Type := list (Z * Z).

Record label_object : Type := LabelObject {
  label : string;
  polygon : list (Z * Z)
}.

Record label_dict : Type := LabelDict {
  imgHeight : nat;
  imgWidth : nat;
  objects : list label_object
}.

Definition LABEL_NAME : string := "defect".
Definition LABEL_ID : Z := 1.
Definition SPLITS : list string := ["train"; "val"; "test"].

(** ** The world outside the script *)

Class World : Type := {
  (** [glob.glob(pattern)]: the matching paths, in the order the file
      system lists them. *)
  glob : string -> list string;
  (** [list(s)] for a set of strings: its elements, each once, in the
      order in which Python iterates the set; that order depends on the
      hash seed of the run. *)
  set_iter : gset string -> list string;
  set_iter_elements : forall s, set_iter s ≡ₚ elements s;
  (** [random.seed(seed); random.shuffle(l)]: the shuffled list. *)
  shuffle : Z -> list img_triplet -> list img_triplet;
  (** Can the file at the path be opened for reading? *)
  readable : string -> bool;
  (** [cv2.imread(path)]: the decoded image, or [None] when the file is
      missing or cannot be decoded. *)
  imread : string -> option image;
  imread_readable : forall path img, imread path = Some img -> readable path = true;
  (** [find_defects(img_clean, img_noisy)], the defect detector, on what
      [cv2.imread] returned; it may raise. *)
  find_defects : option image -> option image -> result (list contour);
  (** [cv2.drawContours(canvas, contours, contourIdx, color, thickness)]
      on a canvas that is an image. *)
  drawContours : image -> list contour -> Z -> Z * Z * Z -> Z -> image
}.

(** What [cv2.drawContours] does with no contour at all: nothing. *)
Definition draws_nothing_on_nil `{World} : Prop :=
  forall canvas idx color thickness,
    drawContours canvas [] idx color thickness = canvas.

(** ** Effects: the calls that touch the file system or the terminal *)

Inductive event : Type :=
  | EGlob (pattern : string)
  | EMkdir (dir : string)
  | EImread (path : string)
  | ECopyfile (src dst : string)
  | ESaveJson (path : string) (doc : label_dict)
  | EImwrite (path : string) (img : image)
  | ESaveText (path : string) (text : string)
  | EPrint (msg : string).

(** A computation yields the events it performed and then a value or the
    exception that stopped it. *)
Definition M (A : Type) : Type := list event * result A.

Global Instance M_ret : MRet M := fun A a => ([], Ok a).

Global Instance M_bind : MBind M := fun A B k m =>
  match m with
  | (t, Ok a) => let '(t', r) := k a in (t ++ t', r)
  | (t, Raise e) => (t, Raise e)
  end.

Definition emit (e : event) : M unit := ([e], Ok tt).
Definition lift {A} (r : result A) : M A := ([], r).

Definition trace {A} (m : M A) : list event := fst m.
Definition outcome {A} (m : M A) : result A := snd m.

(** ** The partitioner *)

Section Partition.
Context {A : Type}.

(** The inner loop, [dataset[split].append(img_triplets[triplet_idx])]
    for every index of the slice. *)
Fixpoint append_triplets (img_triplets : list A) (split : string)
    (split_triplet_indices : list nat) (dataset : dict (list A))
    : result (dict (list A)) :=
  match split_triplet_indices with
  | [] => Ok dataset
  | triplet_idx :: rest =>
      cur ← dict_get dataset split;
      x ← PySeq.getitem img_triplets triplet_idx;
      append_triplets img_triplets split rest (dict_set dataset split (cur ++ [x]))
  end.

(** The loop over [enumerate(zip(splits, split_ratios))]; [n_splits] is
    [len(splits)] and [split_idx] the counter of [enumerate]. *)
Fixpoint split_loop (img_triplets : list A) (triplet_indices : list nat)
    (n_splits : Z) (split_idx : Z) (pairs : list (string * PyFloat.float))
    (start_idx : Z) (dataset : dict (list A)) : result (dict (list A)) :=
  match pairs with
  | [] => Ok dataset
  | (split, split_ratio) :: rest =>
      let triplets_len := Z.of_nat (length triplet_indices) in
      split_len ← PyFloat.int_of_mul triplets_len split_ratio;
      let split_triplet_indices :=
        if split_idx =? n_splits - 1
        then PySeq.slice triplet_indices (Some start_idx) None
        else PySeq.slice triplet_indices (Some start_idx)
               (Some (start_idx + split_len)) in
      dataset' ← append_triplets img_triplets split split_triplet_indices dataset;
      split_loop img_triplets triplet_indices n_splits (split_idx + 1) rest
        (start_idx + split_len) dataset'
  end.

Definition split_dataset (img_triplets : list A) (splits : list string)
    (split_ratios : list PyFloat.float) : result (dict (list A)) :=
  let triplet_indices := seq 0 (length img_triplets) in
  let dataset := fold_left (fun d s => dict_set d s []) splits [] in
  split_loop img_triplets triplet_indices (Z.of_nat (length splits)) 0
    (zip splits split_ratios) 0 dataset.

End Partition.

(** ** The script, function by function *)

Section Script.
Context `{World}.

Definition mkdir_p (dir_path : string) : M unit := emit (EMkdir dir_path).

(** Modelled from the spec: [save_text] and [save_json] of
    [defects_segmentation.io], which are not among the sources; each
    writes its argument to the file at the given path. *)
Definition save_text (path text : string) : M unit :=
  emit (ESaveText path text).
Definition save_json (path : string) (doc : label_dict) : M unit :=
  emit (ESaveJson path doc).

Definition search_images (imgs_dir : string) : M (list string) :=
  let pattern := PosixPath.join imgs_dir ["*.png"] in
  emit (EGlob pattern);;
  mret (map PosixPath.basename (glob pattern)).

(** Python's [<=] on strings, the order [sorted] uses. *)
Definition str_le (s1 s2 : string) : Prop := String.leb s1 s2 = true.

Global Instance str_le_dec : RelDecision str_le.
Proof. intros s1 s2. unfold str_le. apply _. Defined.

Definition sorted (l : list string) : list string := merge_sort str_le l.

Definition search_image_triplets (imgs_root : string) : M (list img_triplet) :=
  let collection_id := snd (PosixPath.split imgs_root) in
  let clean_dir := PosixPath.join imgs_root ["clean"] in
  let noisy_dir := PosixPath.join imgs_root ["noisy"] in
  img_clean_names ← search_images clean_dir;
  img_noisy_names ← search_images noisy_dir;
  let img_names :=
    sorted (set_iter ((list_to_set img_clean_names : gset string)
                        ∩ list_to_set img_noisy_names)) in
  mret (map (fun n => Triplet collection_id clean_dir noisy_dir n) img_names).

(** The body of the loop of [gen_defects], for one triplet. *)
Definition img_id (t : img_triplet) : string :=
  collection_id t +:+ "_" +:+ fst (PosixPath.splitext (img_name t)).

Definition raw_img_path (output_imgs_dir : string) (t : img_triplet) : string :=
  PosixPath.join output_imgs_dir [img_id t +:+ "_leftImg8bit.png"].
Definition label_dict_path (output_labels_dir : string) (t : img_triplet) : string :=
  PosixPath.join output_labels_dir [img_id t +:+ "_polygons.json"].
Definition label_img_path (output_labels_dir : string) (t : img_triplet) : string :=
  PosixPath.join output_labels_dir [img_id t +:+ "_labelIds.png"].

(** [shutil.copyfile(src, dst)]: it raises when the source cannot be
    opened, before anything is written. *)
Definition copyfile (src dst : string) : M unit :=
  if readable src then emit (ECopyfile src dst) else lift (Raise OSError).

(** [img.shape[0]] and [img.shape[1]] of what [cv2.imread] returned:
    [None] has no attribute [shape]. *)
Definition shape_of (img : option image) : result (nat * nat) :=
  match img with
  | Some img => Ok (img_height img, img_width img)
  | None => Raise AttributeError
  end.

(** [cv2.drawContours(np.zeros_like(img), contours, ...)] on what
    [cv2.imread] returned: [np.zeros_like(None)] is an array of objects,
    which [cv2.drawContours] refuses. *)
Definition draw_label_img (img : option image) (contours : list contour)
    : result image :=
  match img with
  | Some img =>
      Ok (drawContours (zeros_like img) contours (-1)
            (LABEL_ID, LABEL_ID, LABEL_ID) (-1))
  | None => Raise Cv2Error
  end.

(** The loop body for one pair.  It fails where the script first uses
    what is missing: at the detector if that raises, at the copy if the
    noisy file cannot be opened, at [img_clean.shape] if the clean image
    was not read, at [cv2.drawContours] if the noisy image was not read. *)
Definition gen_defect (output_root output_imgs_dir output_labels_dir : string)
    (t : img_triplet) : M (string * string) :=
  let img_clean_path := PosixPath.join (clean_dir t) [img_name t] in
  let img_noisy_path := PosixPath.join (noisy_dir t) [img_name t] in
  emit (EImread img_clean_path);;
  let img_clean := imread img_clean_path in
  emit (EImread img_noisy_path);;
  let img_noisy := imread img_noisy_path in
  contours ← lift (find_defects img_clean img_noisy);
  copyfile img_noisy_path
    (PosixPath.join output_root [raw_img_path output_imgs_dir t]);;
  shape ← lift (shape_of img_clean);
  let doc := {|
    imgHeight := fst shape;
    imgWidth := snd shape;
    objects := map (fun c => LabelObject LABEL_NAME c) contours
  |} in
  save_json (PosixPath.join output_root [label_dict_path output_labels_dir t]) doc;;
  label_img ← lift (draw_label_img img_noisy contours);
  emit (EImwrite (PosixPath.join output_root [label_img_path output_labels_dir t])
          label_img);;
  mret (raw_img_path output_imgs_dir t, label_img_path output_labels_dir t).

(** A [for] loop that collects one result per element. *)
Fixpoint for_each {X Y} (f : X -> M Y) (l : list X) : M (list Y) :=
  match l with
  | [] => mret []
  | x :: l' => y ← f x; ys ← for_each f l'; mret (y :: ys)
  end.

Definition gen_defects (img_triplets : list img_triplet)
    (output_root output_imgs_dir output_labels_dir : string)
    : M (list (string * string)) :=
  mkdir_p (PosixPath.join output_root [output_imgs_dir]);;
  mkdir_p (PosixPath.join output_root [output_labels_dir]);;
  for_each (gen_defect output_root output_imgs_dir output_labels_dir) img_triplets.

(** ["{}\t{}".format(r, l)]. *)
Definition lst_line (pp : string * string) : string :=
  fst pp +:+ String "009" (snd pp).

Definition newline : string := String "010" EmptyString.

(** [sep.join(parts)]. *)
Fixpoint str_join (sep : string) (parts : list string) : string :=
  match parts with
  | [] => EmptyString
  | [x] => x
  | x :: rest => x +:+ sep +:+ str_join sep rest
  end.

Definition gen_lst (path_pairs : list (string * string))
    (output_dir split : string) : M unit :=
  mkdir_p output_dir;;
  let output_path := PosixPath.join output_dir [split +:+ ".lst"] in
  let text := str_join newline (map lst_line path_pairs) in
  save_text output_path text.

Definition gen_split (output_root output_lst_dir : string)
    (item : string * list img_triplet) : M unit :=
  let '(split, img_triplets) := item in
  let output_imgs_dir := PosixPath.join "leftImg8bit" [LABEL_NAME; split] in
  let output_labels_dir := PosixPath.join "gtFine" [LABEL_NAME; split] in
  emit (EPrint ("Generating for " +:+ split +:+ " split"));;
  path_pairs ← gen_defects img_triplets output_root output_imgs_dir output_labels_dir;
  gen_lst path_pairs output_lst_dir split.

Definition gen_dataset (dataset : dict (list img_triplet)) (output_root : string)
    : M unit :=
  let output_lst_dir := PosixPath.join output_root ["list"] in
  for_each (gen_split output_root output_lst_dir) dataset;; mret tt.

(** The parsed command line. *)
Record Args : Type := {
  imgs_dirs : list string;
  val : PyFloat.float;
  test : PyFloat.float;
  limit : option Z;
  seed : Z;
  output : string
}.

(** [parse_args], on a command line whose option values are already
    converted by their [type=]: an absent option takes its default, and
    [nargs="+"] wants at least one root ([None] is argparse's usage
    error).  No option has a range check. *)
Definition parse_args (roots : list string) (v t : option PyFloat.float)
    (l s : option Z) (o : option string) : option Args :=
  match roots with
  | [] => None
  | _ => Some {|
      imgs_dirs := roots;
      val := default PyFloat.f0_1 v;
      test := default PyFloat.f0_1 t;
      limit := l;
      seed := default 9487 s;
      output := default "output" o
    |}
  end.

Definition split_ratios_of (args : Args) : list PyFloat.float :=
  [PyFloat.sub (PyFloat.sub PyFloat.one (val args)) (test args);
   val args; test args].

Definition main (args : Args) : M unit :=
  let split_ratios := split_ratios_of args in
  found ← for_each search_image_triplets (imgs_dirs args);
  let img_triplets := shuffle (seed args) (concat found) in
  let img_triplets :=
    match limit args with
    | Some l => PySeq.slice img_triplets None (Some l)
    | None => img_triplets
    end in
  dataset ← lift (split_dataset img_triplets SPLITS split_ratios);
  gen_dataset dataset (output args);;
  emit (EPrint ("Results saved in " +:+ output args)).

End Script.

(** ** Auxiliary definitions for the statements *)

(** [m / 2^k] rounded to the nearest integer, ties to even. *)
Definition rne (m k : Z) : Z :=
  let q := m / 2 ^ k in
  let rem := m mod 2 ^ k in
  if 2 * rem <? 2 ^ k then q
  else if 2 ^ k <? 2 * rem then q + 1
  else if Z.even q then q else q + 1.

Definition finite_or_inf (s : bool) (m : positive) (e : Z) : spec_float :=
  if e <=? 971 then S754_finite s m e else S754_infinity s.

(** What [binary_round_aux] returns for the rounded mantissa [n] at
    exponent [t]. *)
Definition round_out (s : bool) (n t : Z) : spec_float :=
  match n with
  | Z0 => S754_zero s
  | Zpos n' =>
      if n =? 2 ^ 53 then finite_or_inf s (2 ^ 52) (t + 1)
      else finite_or_inf s n' t
  | Zneg _ => S754_nan
  end.

(** The value [m * 2^e], counted in units of [2^b]. *)
Definition scaled (b m e : Z) : Z := m * 2 ^ (e - b).

(** The slices the loop cuts, given the starting cursor and the length
    [split_len] computed for each split: every split but the last takes
    [l[start : start + split_len]], the last takes [l[start:]]. *)
Fixpoint split_slices {A} (l : list A) (start : Z) (lens : list Z) : list (list A) :=
  match lens with
  | [] => []
  | [_] => [PySeq.slice l (Some start) None]
  | k :: ks => PySeq.slice l (Some start) (Some (start + k)) :: split_slices l (start + k) ks
  end.

(** The lengths [int(N * ratio)] exist and are [lens]. *)
Definition split_lens (n : nat) (ratios : list PyFloat.float) (lens : list Z) : Prop :=
  Forall2 (fun r k => PyFloat.int_of_mul (Z.of_nat n) r = Ok k) ratios lens.

(** A float as Python holds it: canonical mantissa, exponent in range. *)
Definition valid_float (r : PyFloat.float) : Prop :=
  valid_binary PyFloat.prec PyFloat.emax r = true.

(** A ratio [r] with [0.0 <= r <= 1.0]. *)
Definition fraction (r : PyFloat.float) : Prop :=
  valid_float r /\ PyFloat.leb PyFloat.zero r = true /\ PyFloat.leb r PyFloat.one = true.

(** The sizes of the slices of [split_slices] for a list of [n] entries. *)
Fixpoint split_sizes (n start : Z) (lens : list Z) : list Z :=
  match lens with
  | [] => []
  | [_] => [n - Z.min start n]
  | k :: ks => (Z.min (start + k) n - Z.min start n) :: split_sizes n (start + k) ks
  end.

(** The sizes as the design document states them: [floor(N * ratio)] for
    every split but the last, and for the last what is left of [n]. *)
Definition sizes_as_stated (n : Z) (lens : list Z) : list Z :=
  match lens with
  | [] => []
  | _ => removelast lens ++ [n - foldr Z.add 0 (removelast lens)]
  end.

Definition sizes {A} (ds : dict (list A)) : list Z :=
  map (fun l => Z.of_nat (length l)) (dict_values ds).

(** Remainder absorption, as stated: the call returns and the sizes of its
    splits are [sizes_as_stated]. *)
Definition remainder_absorption_as_stated {A} (pool : list A) (splits : list string)
    (ratios : list PyFloat.float) : Prop :=
  exists ds lens,
    split_dataset pool splits ratios = Ok ds
    /\ split_lens (length pool) ratios lens
    /\ sizes ds = sizes_as_stated (Z.of_nat (length pool)) lens.

(** The names [search_images] returns for a directory. *)
Definition image_names `{World} (imgs_dir : string) : list string :=
  map PosixPath.basename (glob (PosixPath.join imgs_dir ["*.png"])).

(** The names common to both listings, each once, in order. *)
Definition joined_names `{World} (imgs_root : string) : list string :=
  sorted (set_iter
    ((list_to_set (image_names (PosixPath.join imgs_root ["clean"])) : gset string)
       ∩ list_to_set (image_names (PosixPath.join imgs_root ["noisy"])))).

(** The root's folder name: the last component of the path, whether or
    not the path ends with a separator. *)
Definition root_name (imgs_root : string) : string :=
  PosixPath.basename (PosixPath.rstrip PosixPath.sep imgs_root).

(** The same world in another run: the file system lists its files in
    another order, and Python iterates its sets in another order. *)
Definition with_listing (g : string -> list string)
    (order : gset string -> list string)
    (order_elements : forall s, order s ≡ₚ elements s) (w : World) : World := {|
  glob := g;
  set_iter := order;
  set_iter_elements := order_elements;
  shuffle := @shuffle w;
  readable := @readable w;
  imread := @imread w;
  imread_readable := @imread_readable w;
  find_defects := @find_defects w;
  drawContours := @drawContours w
|}.

(** A small world for the examples: one root, [data/setA], with [a.png]
    and [b.png] under [clean] and [b.png] and [c.png] under [noisy]; the
    detector finds nothing. *)
Definition demo_glob (pattern : string) : list string :=
  if String.eqb pattern "data/setA/clean/*.png"
  then ["data/setA/clean/b.png"; "data/setA/clean/a.png"]
  else if String.eqb pattern "data/setA/noisy/*.png"
  then ["data/setA/noisy/c.png"; "data/setA/noisy/b.png"]
  else [].

Definition demo_world : World := {|
  glob := demo_glob;
  set_iter := elements;
  set_iter_elements := fun s => reflexivity (elements s);
  shuffle := fun _ l => rev l;
  readable := fun _ => true;
  imread := fun _ => Some [[[7; 7; 7]; [7; 7; 7]]];
  imread_readable := fun _ _ _ => eq_refl;
  find_defects := fun _ _ => Ok [];
  drawContours := fun canvas contours _ _ _ =>
    match contours with
    | [] => canvas
    | _ => map (map (map (fun _ => LABEL_ID))) canvas
    end
|}.

(** A larger world: two roots.  [data/setA] has [a.png] to [d.png] under
    [clean] and [b.png] to [e.png] under [noisy]; [data/setB] has [x.png]
    and [y.png] under both. *)
Definition lab_glob (pattern : string) : list string :=
  if String.eqb pattern "data/setA/clean/*.png"
  then ["data/setA/clean/d.png"; "data/setA/clean/a.png";
        "data/setA/clean/c.png"; "data/setA/clean/b.png"]
  else if String.eqb pattern "data/setA/noisy/*.png"
  then ["data/setA/noisy/b.png"; "data/setA/noisy/e.png";
        "data/setA/noisy/d.png"; "data/setA/noisy/c.png"]
  else if String.eqb pattern "data/setB/clean/*.png"
  then ["data/setB/clean/y.png"; "data/setB/clean/x.png"]
  else if String.eqb pattern "data/setB/noisy/*.png"
  then ["data/setB/noisy/x.png"; "data/setB/noisy/y.png"]
  else [].

Definition lab_world : World := {|
  glob := lab_glob;
  set_iter := elements;
  set_iter_elements := fun s => reflexivity (elements s);
  shuffle := fun _ l => rev l;
  readable := fun _ => true;
  imread := fun _ => Some [[[7; 7; 7]; [7; 7; 7]]];
  imread_readable := fun _ _ _ => eq_refl;
  find_defects := fun _ _ => Ok [];
  drawContours := fun canvas _ _ _ _ => canvas
|}.

(** Another iteration order of the sets: the opposite one. *)
Definition lab_order_elements (s : gset string) : reverse (elements s) ≡ₚ elements s :=
  reverse_Permutation (elements s).

(** A file system that holds [b.png] under [data/setA/clean] and
    [data/setA/noisy] and nothing else; no directory is named
    [data/set[A]].  [glob] reads [[A]] in a pattern as the character class
    that matches [A], so that the patterns written with [set[A]] list the
    files of [setA]. *)
Definition bracket_glob (pattern : string) : list string :=
  if String.eqb pattern "data/setA/clean/*.png"
     || String.eqb pattern "data/set[A]/clean/*.png"
  then ["data/setA/clean/b.png"]
  else if String.eqb pattern "data/setA/noisy/*.png"
          || String.eqb pattern "data/set[A]/noisy/*.png"
  then ["data/setA/noisy/b.png"]
  else [].

Definition bracket_file (path : string) : bool :=
  String.eqb path "data/setA/clean/b.png" || String.eqb path "data/setA/noisy/b.png".

Definition bracket_imread (path : string) : option image :=
  if bracket_file path then Some [[[7; 7; 7]; [7; 7; 7]]] else None.

Definition bracket_imread_readable (path : string) (img : image)
    (Himg : bracket_imread path = Some img) : bracket_file path = true.
Proof.
  unfold bracket_imread in Himg. destruct (bracket_file path); [reflexivity|discriminate].
Defined.

Definition bracket_world : World := {|
  glob := bracket_glob;
  set_iter := elements;
  set_iter_elements := fun s => reflexivity (elements s);
  shuffle := fun _ l => rev l;
  readable := bracket_file;
  imread := bracket_imread;
  imread_readable := bracket_imread_readable;
  find_defects := fun _ _ => Ok [];
  drawContours := fun canvas _ _ _ _ => canvas
|}.

(** Arguments for the larger world: both roots, a fifth of the pool for
    each of val and test, at most four pairs. *)
Definition lab_args : Args := {|
  imgs_dirs := ["data/setA"; "data/setB"];
  val := PyFloat.f0_2;
  test := PyFloat.f0_2;
  limit := Some 4;
  seed := 7;
  output := "out"
|}.

Definition demo_args : Args := {|
  imgs_dirs := ["data/setA"];
  val := PyFloat.f0_1;
  test := PyFloat.f0_1;
  limit := None;
  seed := 9487;
  output := "output"
|}.

(** The pair is processed: both of its images are read, and the detector
    returns its contours for them. *)
Definition processed `{World} (t : img_triplet) (img_clean img_noisy : image)
    (contours : list contour) : Prop :=
  imread (PosixPath.join (clean_dir t) [img_name t]) = Some img_clean
  /\ imread (PosixPath.join (noisy_dir t) [img_name t]) = Some img_noisy
  /\ find_defects (Some img_clean) (Some img_noisy) = Ok contours.

Definition processable `{World} (t : img_triplet) : Prop :=
  exists img_clean img_noisy contours, processed t img_clean img_noisy contours.

(** The first stage of [main]: discovery, shuffle, cap and partition. *)
Definition main_dataset `{World} (args : Args) : M (dict (list img_triplet)) :=
  found ← for_each search_image_triplets (imgs_dirs args);
  let img_triplets := shuffle (seed args) (concat found) in
  let img_triplets :=
    match limit args with
    | Some l => PySeq.slice img_triplets None (Some l)
    | None => img_triplets
    end in
  lift (split_dataset img_triplets SPLITS (split_ratios_of args)).

(** What a file holds after a write. *)
Inductive content : Type :=
  | CopyOf (src : string)
  | JsonDoc (doc : label_dict)
  | ImageData (img : image)
  | Text (text : string).

(** The file an event writes, and what it writes there.  For [save_text]
    and [save_json] this is modelled from the spec: they write their
    argument to the path, replacing what was there, like [copyfile] and
    [cv2.imwrite]. *)
Definition write_of (e : event) : option (string * content) :=
  match e with
  | ECopyfile src dst => Some (dst, CopyOf src)
  | ESaveJson path doc => Some (path, JsonDoc doc)
  | EImwrite path img => Some (path, ImageData img)
  | ESaveText path text => Some (path, Text text)
  | _ => None
  end.

(** The files written by a trace, each with its last content. *)
Definition files_written (t : list event) : gmap string content :=
  foldl (fun files e =>
           match write_of e with
           | Some (path, c) => <[path := c]> files
           | None => files
           end) ∅ t.



(** Two pairs whose identities differ in both components. *)
Definition pair_a : img_triplet := Triplet "a" "x/a/clean" "x/a/noisy" "b_c.png".
Definition pair_a_b : img_triplet := Triplet "a_b" "x/a_b/clean" "x/a_b/noisy" "c.png".

(** A configuration error in the ratios, as the design document lists
    them: a ratio below 0.0 or above 1.0, or [val + test >= 1.0]. *)
Definition invalid_ratios (args : Args) : bool :=
  SFltb (val args) PyFloat.zero || SFltb PyFloat.one (val args)
  || SFltb (test args) PyFloat.zero || SFltb PyFloat.one (test args)
  || SFleb PyFloat.one (SFadd PyFloat.prec PyFloat.emax (val args) (test args)).

(** A run that is rejected before any processing: it stops with an error
    and has performed no listing, no read and no write. *)
Definition rejected_before_processing `{World} (args : Args) : Prop :=
  trace (main args) = [] /\ exists e, outcome (main args) = Raise e.

(** The listings of pair discovery, for the roots in order. *)
Definition discovery_trace (roots : list string) : list event :=
  concat (map (fun root =>
    [EGlob (PosixPath.join (PosixPath.join root ["clean"]) ["*.png"]);
     EGlob (PosixPath.join (PosixPath.join root ["noisy"]) ["*.png"])]) roots).

(** The pool [main] hands to the partitioner. *)
Definition main_pool `{World} (args : Args) : list img_triplet :=
  let img_triplets :=
    shuffle (seed args)
      (concat (map (fun root =>
         map (Triplet (snd (PosixPath.split root))
                (PosixPath.join root ["clean"]) (PosixPath.join root ["noisy"]))
           (joined_names root)) (imgs_dirs args))) in
  match limit args with
  | Some l => PySeq.slice img_triplets None (Some l)
  | None => img_triplets
  end.

Definition bad_args : Args := {|
  imgs_dirs := ["data/setA"];
  val := PyFloat.f0_6;
  test := PyFloat.f0_6;
  limit := None;
  seed := 9487;
  output := "output"
|}.

(** [dataset] with [f] applied to every entry of every split. *)
Definition dict_map {V W} (f : V -> W) (d : dict V) : dict W :=
  map (fun kv => (fst kv, f (snd kv))) d.

(** The slices cut when the loop never reaches the last split: every one
    is [l[start : start + split_len]]. *)
Fixpoint cut_slices {A} (l : list A) (start : Z) (lens : list Z) : list (list A) :=
  match lens with
  | [] => []
  | k :: ks => PySeq.slice l (Some start) (Some (start + k)) :: cut_slices l (start + k) ks
  end.

(** [seg] is a run of consecutive entries of [l]. *)
Definition segment_of {A} (seg l : list A) : Prop :=
  exists before after, l = before ++ seg ++ after.

(** The pairs discovery finds under the roots, root after root. *)
Definition discovered `{World} (roots : list string) : list img_triplet :=
  concat (map (fun root =>
    map (Triplet (snd (PosixPath.split root))
           (PosixPath.join root ["clean"]) (PosixPath.join root ["noisy"]))
      (joined_names root)) roots).

(** What [random.shuffle] does to a list: it reorders it. *)
Definition shuffle_permutes `{World} : Prop :=
  forall seed l, shuffle seed l ≡ₚ l.

(** The path pair [gen_defects] returns for a pair. *)
Definition path_pair (imgs labels : string) (t : img_triplet) : string * string :=
  (raw_img_path imgs t, label_img_path labels t).

(** The copies of a trace, source and destination, in order. *)
Definition copies (t : list event) : list (string * string) :=
  omap (fun e => match e with ECopyfile src dst => Some (src, dst) | _ => None end) t.

(** The manifests of a trace, path and text, in order. *)
Definition manifests (t : list event) : list (string * string) :=
  omap (fun e => match e with ESaveText path text => Some (path, text) | _ => None end) t.

(** The directories of a split, relative to the output root. *)
Definition imgs_dir_of (split : string) : string :=
  PosixPath.join "leftImg8bit" [LABEL_NAME; split].

Definition labels_dir_of (split : string) : string :=
  PosixPath.join "gtFine" [LABEL_NAME; split].

(** The manifest of a split that holds the pairs [ts], as the design
    document describes it: one record [raw_path<TAB>label_path] per pair,
    in order, the records separated by newlines. *)
Definition manifest_of (output_root split : string) (ts : list img_triplet)
    : string * string :=
  (PosixPath.join (PosixPath.join output_root ["list"]) [split +:+ ".lst"],
   String.concat (String "010" EmptyString)
     (map (fun t => raw_img_path (imgs_dir_of split) t
                    +:+ String "009" (label_img_path (labels_dir_of split) t)) ts)).


(** Is the string made of dots only?  The empty string is. *)
Fixpoint only_dots (s : string) : bool :=
  match s with
  | EmptyString => true
  | String a s' => Ascii.eqb a PosixPath.extsep && only_dots s'
  end.

(** [c in s]. *)
Fixpoint str_contains (c : ascii) (s : string) : bool :=
  match s with
  | EmptyString => false
  | String a s' => Ascii.eqb a c || str_contains c s'
  end.

(** The directories of the dataset, relative to the output root. *)
Definition output_dirs : list string :=
  "list" :: map imgs_dir_of SPLITS ++ map labels_dir_of SPLITS.

(** The endings of the files of the dataset. *)
Definition artifact_suffixes : list string :=
  ["_leftImg8bit.png"; "_polygons.json"; "_labelIds.png"; ".lst"].

(** [p] is a file of the dataset under [root]: it lies directly in one of
    the dataset's directories, and its name holds no separator and has one
    of the endings. *)
Definition dataset_file (root p : string) : Prop :=
  exists dir stem suffix,
    dir ∈ output_dirs /\ suffix ∈ artifact_suffixes
    /\ str_contains PosixPath.sep stem = false
    /\ p = PosixPath.join root [dir +:+ "/" +:+ stem +:+ suffix].

(** An event that stays inside the dataset under [root]: what it writes
    is a file of the dataset, what it creates is one of the dataset's
    directories; listing, reading and printing change nothing. *)
Definition inside_output (root : string) (e : event) : Prop :=
  match e with
  | ECopyfile _ p | ESaveJson p _ | EImwrite p _ | ESaveText p _ => dataset_file root p
  | EMkdir d => exists dir, dir ∈ output_dirs /\ d = PosixPath.join root [dir]
  | EGlob _ | EImread _ | EPrint _ => True
  end.

(** A world in which one file is torn: [data/setA/clean/b.png] exists but
    does not decode; everything else reads as in the world of the
    examples. *)
Definition torn_imread (path : string) : option image :=
  if String.eqb path "data/setA/clean/b.png" then None
  else Some [[[7; 7; 7]; [7; 7; 7]]].

Definition torn_world : World := {|
  glob := demo_glob;
  set_iter := elements;
  set_iter_elements := fun s => reflexivity (elements s);
  shuffle := fun _ l => rev l;
  readable := fun _ => true;
  imread := torn_imread;
  imread_readable := fun _ _ _ => eq_refl;
  find_defects := fun _ _ => Ok [];
  drawContours := fun canvas _ _ _ _ => canvas
|}.

(** * Properties *)

(** ** Binary64 rounding *)

Section Digits.
Lemma digits2_pos_size m : digits2_pos m = Pos.size m.
Proof. induction m; simpl; congruence. Qed.

Lemma digits2_log2 m : Zpos (digits2_pos m) = Z.log2 (Zpos m) + 1.
Proof.
  rewrite digits2_pos_size. destruct m; simpl; try lia.
Qed.

Lemma digits2_bounds m :
  2 ^ (Zpos (digits2_pos m) - 1) <= Zpos m < 2 ^ Zpos (digits2_pos m).
Proof.
  rewrite digits2_log2. replace (Z.log2 (Z.pos m) + 1 - 1) with (Z.log2 (Zpos m)) by lia.
  pose proof (Z.log2_spec (Zpos m) ltac:(lia)). 
  replace (Z.log2 (Z.pos m) + 1) with (Z.succ (Z.log2 (Zpos m))) by lia. lia.
Qed.
End Digits.

Section Shift.
Lemma iter_pos_nat {A} (f : A -> A) p x :
  SpecFloat.iter_pos f p x = Nat.iter (Pos.to_nat p) f x.
Proof.
  revert x. induction p as [p IH|p IH|]; intros x; cbn [SpecFloat.iter_pos].
  - rewrite !IH. rewrite Pos2Nat.inj_xI.
    replace (S (2 * Pos.to_nat p)) with (Pos.to_nat p + (Pos.to_nat p + 1))%nat by lia.
    rewrite !Nat.iter_add. simpl. done.
  - rewrite !IH. rewrite Pos2Nat.inj_xO.
    replace (2 * Pos.to_nat p)%nat with (Pos.to_nat p + Pos.to_nat p)%nat by lia.
    by rewrite Nat.iter_add.
  - done.
Qed.

Lemma shr_1_spec m r s :
  0 <= m -> shr_1 (Build_shr_record m r s) = Build_shr_record (m / 2) (Z.odd m) (r || s).
Proof.
  intros Hm. destruct m as [|p|p]; [done| |lia].
  destruct p as [p|p|]; simpl.
  - f_equal. rewrite Pos2Z.inj_xI. apply (Z.div_unique _ _ _ 1); lia.
  - f_equal. rewrite Pos2Z.inj_xO. apply (Z.div_unique _ _ _ 0); lia.
  - done.
Qed.

(** [n + 1] shifts of [m]: quotient, round bit, sticky bit. *)
Lemma shr_iter m n :
  0 <= m ->
  Nat.iter (S n) shr_1 (Build_shr_record m false false)
  = Build_shr_record (m / 2 ^ Z.of_nat (S n))
      (Z.odd (m / 2 ^ Z.of_nat n))
      (negb (m mod 2 ^ Z.of_nat n =? 0)).
Proof.
  intros Hm. induction n as [|n IH].
  - unfold Nat.iter; cbn [nat_rect]. rewrite shr_1_spec by done.
    change (2 ^ Z.of_nat 1) with 2. change (2 ^ Z.of_nat 0) with 1.
    rewrite Z.div_1_r, Z.mod_1_r. done.
  - rewrite Nat.iter_succ, IH.
    assert (Hp : 0 < 2 ^ Z.of_nat n) by (apply Z.pow_pos_nonneg; lia).
    assert (Hp' : 0 < 2 ^ Z.of_nat (S n)) by (apply Z.pow_pos_nonneg; lia).
    rewrite shr_1_spec by (apply Z.div_pos; lia).
    f_equal.
    + rewrite Z.div_div by lia.
      f_equal. rewrite (Nat2Z.inj_succ (S n)), Z.pow_succ_r by lia. lia.
    + (* sticky: odd (m / 2^n) || m mod 2^n <> 0  =  m mod 2^(n+1) <> 0 *)
      rewrite (Nat2Z.inj_succ n), Z.pow_succ_r by lia.
      set (P := 2 ^ Z.of_nat n) in *.
      pose proof (Z.div_mod m P ltac:(lia)) as Hdm.
      pose proof (Z.mod_pos_bound m P ltac:(lia)) as Hb.
      set (q := m / P) in *. set (rm := m mod P) in *.
      pose proof (Z.div_mod q 2 ltac:(lia)) as Hq.
      pose proof (Z.mod_pos_bound q 2 ltac:(lia)) as Hqb.
      assert (Hmod : m mod (2 * P) = (q mod 2) * P + rm).
      { symmetry. apply (Z.mod_unique_pos _ _ (q / 2)); nia. }
      rewrite Hmod. rewrite <- Z.negb_even.
      rewrite Zeven_mod.
      destruct (Z.eqb_spec (q mod 2) 0) as [E|E], (Z.eqb_spec rm 0) as [E'|E']; simpl;
        symmetry; rewrite ?negb_true_iff, ?negb_false_iff; try apply Z.eqb_neq; try apply Z.eqb_eq; nia.
Qed.
End Shift.

Section Rounding.

Lemma rne_bounds m k : 0 <= k -> m / 2 ^ k <= rne m k <= m / 2 ^ k + 1.
Proof.
  intros Hk. unfold rne.
  repeat match goal with |- context [if ?b then _ else _] => destruct b end; lia.
Qed.

Lemma rne_0 m : rne m 0 = m.
Proof.
  unfold rne. change (2 ^ 0) with 1. rewrite Z.div_1_r, Z.mod_1_r. done.
Qed.

(** Rounding does not see a common power of two. *)
Lemma rne_scale m k j : 0 <= k -> 0 <= j -> rne (m * 2 ^ j) (k + j) = rne m k.
Proof.
  intros Hk Hj. unfold rne.
  assert (Hpk : 0 < 2 ^ k) by (apply Z.pow_pos_nonneg; lia).
  assert (Hpj : 0 < 2 ^ j) by (apply Z.pow_pos_nonneg; lia).
  rewrite Z.pow_add_r by lia.
  rewrite Z.div_mul_cancel_r by lia.
  rewrite Z.mul_mod_distr_r by lia.
  set (q := m / 2 ^ k). set (rem := m mod 2 ^ k).
  replace (2 * (rem * 2 ^ j) <? 2 ^ k * 2 ^ j) with (2 * rem <? 2 ^ k).
  2:{ destruct (Z.ltb_spec (2 * rem) (2 ^ k)), (Z.ltb_spec (2 * (rem * 2 ^ j)) (2 ^ k * 2 ^ j)); try done; nia. }
  replace (2 ^ k * 2 ^ j <? 2 * (rem * 2 ^ j)) with (2 ^ k <? 2 * rem).
  2:{ destruct (Z.ltb_spec (2 ^ k) (2 * rem)), (Z.ltb_spec (2 ^ k * 2 ^ j) (2 * (rem * 2 ^ j))); try done; nia. }
  done.
Qed.

Lemma rne_mono m1 m2 k : 0 <= k -> m1 <= m2 -> rne m1 k <= rne m2 k.
Proof.
  intros Hk Hm.
  assert (Hpk : 0 < 2 ^ k) by (apply Z.pow_pos_nonneg; lia).
  pose proof (Z.div_le_mono m1 m2 (2 ^ k) Hpk Hm) as Hq.
  destruct (Z.eq_dec (m1 / 2 ^ k) (m2 / 2 ^ k)) as [E|E].
  - pose proof (Z.div_mod m1 (2 ^ k) ltac:(lia)) as H1.
    pose proof (Z.div_mod m2 (2 ^ k) ltac:(lia)) as H2.
    assert (Hr : m1 mod 2 ^ k <= m2 mod 2 ^ k) by nia.
    unfold rne. rewrite E.
    repeat match goal with |- context [if ?b then _ else _] => destruct b eqn:? end;
      try lia.
  - pose proof (rne_bounds m1 k Hk). pose proof (rne_bounds m2 k Hk). lia.
Qed.

(** The round and sticky bits of the shift, read by [round_nearest_even]. *)
Lemma shr_round m n :
  0 <= m ->
  let mrs := Nat.iter (S n) shr_1 (Build_shr_record m false false) in
  round_nearest_even (shr_m mrs) (loc_of_shr_record mrs) = rne m (Z.of_nat (S n)).
Proof.
  intros Hm. cbv zeta. rewrite shr_iter by done. cbn [shr_m].
  unfold rne. rewrite (Nat2Z.inj_succ n), Z.pow_succ_r by lia.
  assert (Hp : 0 < 2 ^ Z.of_nat n) by (apply Z.pow_pos_nonneg; lia).
  set (P := 2 ^ Z.of_nat n) in *.
  pose proof (Z.div_mod m P ltac:(lia)) as Hdm.
  pose proof (Z.mod_pos_bound m P ltac:(lia)) as Hb.
  set (q' := m / P) in *. set (rm := m mod P) in *.
  pose proof (Z.div_mod q' 2 ltac:(lia)) as Hq.
  pose proof (Z.mod_pos_bound q' 2 ltac:(lia)) as Hqb.
  assert (Hmod : m mod (2 * P) = (q' mod 2) * P + rm).
  { symmetry. apply (Z.mod_unique_pos _ _ (q' / 2)); nia. }
  assert (Hdiv : m / (2 * P) = q' / 2).
  { symmetry. apply (Z.div_unique_pos _ _ _ ((q' mod 2) * P + rm)); nia. }
  rewrite Hmod, Hdiv.
  rewrite <- Z.negb_even, Zeven_mod.
  destruct (Z.eqb_spec (q' mod 2) 0) as [E|E], (Z.eqb_spec rm 0) as [E'|E']; simpl.
  - destruct (Z.ltb_spec (2 * (q' mod 2 * P + rm)) (2 * P)); [done | nia].
  - destruct (Z.ltb_spec (2 * (q' mod 2 * P + rm)) (2 * P)); [done | nia].
  - destruct (Z.ltb_spec (2 * (q' mod 2 * P + rm)) (2 * P)); [nia|].
    destruct (Z.ltb_spec (2 * P) (2 * (q' mod 2 * P + rm))); [nia | done].
  - destruct (Z.ltb_spec (2 * (q' mod 2 * P + rm)) (2 * P)); [nia|].
    destruct (Z.ltb_spec (2 * P) (2 * (q' mod 2 * P + rm))); [done | nia].
Qed.
End Rounding.

Section RoundAux.
Local Abbreviation prec := 53 (only parsing).
Local Abbreviation emax := 1024 (only parsing).

Lemma fexp_eq e : SpecFloat.fexp prec emax e = Z.max (e - 53) (-1074).
Proof. reflexivity. Qed.



Lemma shr_fexp_exact m e :
  0 <= m ->
  shr_fexp prec emax m e loc_Exact
  = let k := SpecFloat.fexp prec emax (Zdigits2 m + e) - e in
    if 0 <? k
    then (Nat.iter (Z.to_nat k) shr_1 (Build_shr_record m false false), e + k)
    else (Build_shr_record m false false, e).
Proof.
  intros Hm. unfold shr_fexp, shr. cbn [shr_record_of_loc]. cbv zeta.
  destruct (SpecFloat.fexp prec emax (Zdigits2 m + e) - e) as [|k|k] eqn:E; try done.
  rewrite iter_pos_nat. done.
Qed.

Lemma Zdigits2_bounds n :
  0 < n -> 2 ^ (Zdigits2 n - 1) <= n < 2 ^ Zdigits2 n.
Proof. destruct n; try lia. intros _. apply digits2_bounds. Qed.

Lemma pow2_lt_inv a b : 0 <= b -> 2 ^ a < 2 ^ b -> a < b.
Proof.
  intros Hb H. destruct (Z.lt_ge_cases a b); [done|].
  pose proof (Z.pow_le_mono_r 2 b a ltac:(lia) ltac:(lia)). lia.
Qed.

Lemma binary_round_aux_spec s m e :
  let t := SpecFloat.fexp prec emax (Zpos (digits2_pos m) + e) in
  e <= t ->
  binary_round_aux prec emax s (Zpos m) e loc_Exact
  = round_out s (rne (Zpos m) (t - e)) t.
Proof.
  intros t Ht. unfold binary_round_aux.
  rewrite shr_fexp_exact by lia. cbv zeta. cbn [Zdigits2]. fold t.
  assert (Htmin : -1074 <= t) by (subst t; rewrite fexp_eq; lia).
  assert (Htd : Zpos (digits2_pos m) + e - 53 <= t) by (subst t; rewrite fexp_eq; lia).
  pose proof (digits2_bounds m) as [Hd1 Hd2].
  set (d := Zpos (digits2_pos m)) in *.
  set (k := t - e) in *.
  assert (Hk : 0 <= k) by lia.
  assert (Hkpos : 0 < 2 ^ k) by (apply Z.pow_pos_nonneg; lia).
  (* the first shift and the rounding *)
  assert (Hfirst :
    (let '(mrs', e') :=
       if 0 <? k
       then (Nat.iter (Z.to_nat k) shr_1 (Build_shr_record (Zpos m) false false), e + k)
       else (Build_shr_record (Zpos m) false false, e) in
     (round_nearest_even (shr_m mrs') (loc_of_shr_record mrs'), e'))
    = (rne (Zpos m) k, t)).
  { destruct (Z.ltb_spec 0 k) as [Hpos|Hnp].
    - destruct (Z.to_nat k) as [|n] eqn:En; [lia|].
      rewrite shr_round by lia. rewrite <- En, Z2Nat.id by lia.
      f_equal. lia.
    - assert (Hk0 : k = 0) by lia. rewrite Hk0, rne_0. cbn. f_equal. lia. }
  destruct (if 0 <? k then _ else _) as [mrs' e'].
  injection Hfirst as -> ->.
  set (n := rne (Zpos m) k).
  pose proof (rne_bounds (Zpos m) k Hk) as [Hn1 Hn2]. fold n in Hn1, Hn2.
  assert (Hq0 : 0 <= Zpos m / 2 ^ k) by (apply Z.div_pos; lia).
  assert (Hq53 : Zpos m / 2 ^ k < 2 ^ 53).
  { apply Z.div_lt_upper_bound; [lia|].
    rewrite <- Z.pow_add_r by lia.
    eapply Z.lt_le_trans; [exact Hd2|]. apply Z.pow_le_mono_r; lia. }
  rewrite shr_fexp_exact by lia. cbv zeta.
  destruct n as [|n'|n'] eqn:En; [| |lia].
  - (* the mantissa rounds to zero *)
    cbn [Zdigits2]. rewrite fexp_eq.
    destruct (Z.ltb_spec 0 (Z.max (0 + t - 53) (-1074) - t)); [lia|]. done.
  - pose proof (Zdigits2_bounds (Zpos n') ltac:(lia)) as [Hdn1 Hdn2].
    set (dn := Zdigits2 (Zpos n')) in *.
    assert (Hdnpos : 0 < dn) by (subst dn; simpl; lia).
    unfold round_out. rewrite fexp_eq.
    destruct (Z.eqb_spec (Zpos n') (2 ^ 53)) as [E53|E53].
    + (* a carry out of the mantissa: one more shift *)
      assert (dn = 54).
      { assert (53 < dn).
        { apply pow2_lt_inv; [lia|]. rewrite <- E53. lia. }
        assert (dn - 1 < 54).
        { apply pow2_lt_inv; [lia|]. eapply Z.le_lt_trans; [exact Hdn1|].
          rewrite E53. apply Z.pow_lt_mono_r; lia. }
        lia. }
      replace (Z.max (dn + t - 53) (-1074) - t) with 1 by lia.
      cbn [Z.ltb Z.compare Z.to_nat Pos.to_nat Pos.iter_op Nat.iter nat_rect].
      rewrite E53. cbn. unfold finite_or_inf. done.
    + assert (dn <= 53).
      { assert (dn - 1 < 53); [|lia].
        apply pow2_lt_inv; [lia|]. eapply Z.le_lt_trans; [exact Hdn1|]. lia. }
      destruct (Z.ltb_spec 0 (Z.max (dn + t - 53) (-1074) - t)); [lia|].
      cbn [shr_m]. unfold finite_or_inf. done.
Qed.
End RoundAux.

Section Values.

Lemma shiftl_val b n t :
  b <= 0 -> b <= t -> 0 <= n -> Z.shiftl n t = scaled b n t / 2 ^ (- b).
Proof.
  intros Hb Hbt Hn. unfold scaled.
  assert (0 < 2 ^ (- b)) by (apply Z.pow_pos_nonneg; lia).
  destruct (Z.le_gt_cases 0 t) as [Ht|Ht].
  - rewrite Z.shiftl_mul_pow2 by lia.
    replace (t - b) with (t + - b) by lia. rewrite Z.pow_add_r by lia.
    rewrite Z.mul_assoc. by rewrite Z.div_mul by lia.
  - rewrite Z.shiftl_div_pow2 by lia.
    replace (- b) with ((- t) + (t - b)) by lia.
    rewrite Z.pow_add_r by lia.
    rewrite Z.div_mul_cancel_r; [done | | ]; apply Z.pow_nonzero; lia.
Qed.

(** The rounded mantissa has at most 53 bits, or is [2^53]; above the
    subnormal range it has at least 53 bits. *)
Lemma rne_mantissa_bounds m e :
  let t := SpecFloat.fexp 53 1024 (Zpos (digits2_pos m) + e) in
  e <= t ->
  0 <= rne (Zpos m) (t - e) <= 2 ^ 53
  /\ (-1074 < t -> 2 ^ 52 <= rne (Zpos m) (t - e)).
Proof.
  intros t Ht.
  assert (Htd : t = Z.max (Zpos (digits2_pos m) + e - 53) (-1074)) by (subst t; apply fexp_eq).
  pose proof (digits2_bounds m) as [Hd1 Hd2].
  set (d := Zpos (digits2_pos m)) in *.
  set (k := t - e) in *.
  assert (Hk : 0 <= k) by lia.
  assert (Hkpos : 0 < 2 ^ k) by (apply Z.pow_pos_nonneg; lia).
  pose proof (rne_bounds (Zpos m) k Hk) as [Hn1 Hn2].
  assert (Hq0 : 0 <= Zpos m / 2 ^ k) by (apply Z.div_pos; lia).
  assert (Hq53 : Zpos m / 2 ^ k < 2 ^ 53).
  { apply Z.div_lt_upper_bound; [lia|].
    rewrite <- Z.pow_add_r by lia.
    eapply Z.lt_le_trans; [exact Hd2|]. apply Z.pow_le_mono_r; lia. }
  split; [lia|]. intros Hnorm.
  assert (Hkd : k = d - 53) by lia.
  assert (2 ^ 52 <= Zpos m / 2 ^ k); [|lia].
  apply Z.div_le_lower_bound; [lia|].
  rewrite <- Z.pow_add_r by lia.
  eapply Z.le_trans; [|exact Hd1]. apply Z.pow_le_mono_r; lia.
Qed.

(** Rounding is monotone on values. *)
Lemma rne_val_mono b m1 e1 m2 e2 :
  let t1 := SpecFloat.fexp 53 1024 (Zpos (digits2_pos m1) + e1) in
  let t2 := SpecFloat.fexp 53 1024 (Zpos (digits2_pos m2) + e2) in
  b <= e1 -> b <= e2 -> e1 <= t1 -> e2 <= t2 ->
  scaled b (Zpos m1) e1 <= scaled b (Zpos m2) e2 ->
  t1 <= t2 /\
  scaled b (rne (Zpos m1) (t1 - e1)) t1 <= scaled b (rne (Zpos m2) (t2 - e2)) t2.
Proof.
  intros t1 t2 Hb1 Hb2 Ht1 Ht2 Hv.
  pose proof (rne_mantissa_bounds m1 e1 Ht1) as [Hn1 _].
  pose proof (rne_mantissa_bounds m2 e2 Ht2) as [Hn2 Hnorm2].
  fold t1 in Hn1. fold t2 in Hn2, Hnorm2.
  assert (Htd1 : t1 = Z.max (Zpos (digits2_pos m1) + e1 - 53) (-1074)) by (subst t1; apply fexp_eq).
  assert (Htd2 : t2 = Z.max (Zpos (digits2_pos m2) + e2 - 53) (-1074)) by (subst t2; apply fexp_eq).
  pose proof (digits2_bounds m1) as [Hd1 _].
  pose proof (digits2_bounds m2) as [_ Hd2].
  set (d1 := Zpos (digits2_pos m1)) in *.
  set (d2 := Zpos (digits2_pos m2)) in *.
  assert (Hd1pos : 0 < d1) by (subst d1; lia).
  assert (Hd2pos : 0 < d2) by (subst d2; lia).
  unfold scaled in *.
  assert (HD : d1 + e1 <= d2 + e2).
  { assert (d1 - 1 + (e1 - b) < d2 + (e2 - b)); [|lia].
    apply pow2_lt_inv; [lia|].
    rewrite !Z.pow_add_r by lia.
    assert (0 < 2 ^ (e1 - b)) by (apply Z.pow_pos_nonneg; lia).
    assert (0 < 2 ^ (e2 - b)) by (apply Z.pow_pos_nonneg; lia).
    nia. }
  assert (Ht12 : t1 <= t2) by lia.
  split; [done|].
  destruct (Z.eq_dec t1 t2) as [Heq|Hne].
  - rewrite <- Heq.
    assert (rne (Zpos m1) (t1 - e1) <= rne (Zpos m2) (t1 - e2)).
    { rewrite <- (rne_scale (Zpos m1) (t1 - e1) (e1 - b)) by lia.
      rewrite <- (rne_scale (Zpos m2) (t1 - e2) (e2 - b)) by lia.
      replace (t1 - e1 + (e1 - b)) with (t1 - b) by lia.
      replace (t1 - e2 + (e2 - b)) with (t1 - b) by lia.
      apply rne_mono; lia. }
    rewrite Heq in *.
    apply Z.mul_le_mono_nonneg_r; [apply Z.pow_nonneg; lia | done].
  - assert (Hlt : t1 < t2) by lia.
    specialize (Hnorm2 ltac:(lia)).
    assert (0 < 2 ^ (t1 - b)) by (apply Z.pow_pos_nonneg; lia).
    replace (t2 - b) with ((t2 - t1 - 1) + 1 + (t1 - b)) by lia.
    rewrite !Z.pow_add_r by lia.
    assert (0 < 2 ^ (t2 - t1 - 1)) by (apply Z.pow_pos_nonneg; lia).
    change (2 ^ 1) with 2. change (2 ^ 53) with (2 * 2 ^ 52) in Hn1.
    set (A := 2 ^ 52) in *. set (B := 2 ^ (t1 - b)) in *.
    set (C := 2 ^ (t2 - t1 - 1)) in *.
    set (n1 := rne (Zpos m1) (t1 - e1)) in *.
    set (n2 := rne (Zpos m2) (t2 - e2)) in *.
    assert (0 < A) by (subst A; lia).
    assert (n1 * B <= 2 * A * B) by nia.
    assert (A * (C * 2 * B) <= n2 * (C * 2 * B)) by nia.
    nia.
Qed.
End Values.

Section ToInt.
Lemma finite_or_inf_to_int m e :
  PyFloat.to_int (finite_or_inf false m e)
  = if e <=? 971 then Ok (Z.shiftl (Zpos m) e) else Raise OverflowError.
Proof. unfold finite_or_inf. by destruct (e <=? 971). Qed.

(** [int()] of a rounded product: the floor of its value, unless the
    value reaches [2^1024]. *)
Lemma to_int_round_out b n t :
  b <= 0 -> b <= t -> -1074 <= t ->
  0 <= n <= 2 ^ 53 -> (-1074 < t -> 2 ^ 52 <= n) ->
  PyFloat.to_int (round_out false n t)
  = if scaled b n t <? 2 ^ (1024 - b)
    then Ok (scaled b n t / 2 ^ (- b))
    else Raise OverflowError.
Proof.
  intros Hb Hbt Ht Hn Hnorm.
  assert (Hpb : 0 < 2 ^ (t - b)) by (apply Z.pow_pos_nonneg; lia).
  assert (Hpow : forall x y, 0 <= x -> x <= y -> 2 ^ x <= 2 ^ y)
    by (intros; apply Z.pow_le_mono_r; lia).
  destruct n as [|n'|n']; [| |lia].
  - cbn [round_out PyFloat.to_int].
    replace (scaled b 0 t) with 0 by (unfold scaled; lia).
    destruct (Z.ltb_spec 0 (2 ^ (1024 - b))) as [_|Hc].
    + by rewrite Z.div_0_l by (apply Z.pow_nonzero; lia).
    + assert (0 < 2 ^ (1024 - b)) by (apply Z.pow_pos_nonneg; lia). lia.
  - unfold round_out.
    destruct (Z.eqb_spec (Zpos n') (2 ^ 53)) as [E|E]; rewrite finite_or_inf_to_int.
    + (* carry *)
      assert (Hv : scaled b (Zpos n') t = 2 ^ (53 + (t - b))).
      { unfold scaled. rewrite E. by rewrite Z.pow_add_r by lia. }
      rewrite Hv.
      destruct (Z.leb_spec (t + 1) 971) as [Hle|Hgt].
      * destruct (Z.ltb_spec (2 ^ (53 + (t - b))) (2 ^ (1024 - b))) as [_|Hc].
        -- rewrite (shiftl_val b) by lia. do 2 f_equal. unfold scaled.
           change (Zpos (2 ^ 52)) with (2 ^ 52).
           rewrite <- Z.pow_add_r by lia. f_equal. lia.
        -- assert (2 ^ (53 + (t - b)) < 2 ^ (1024 - b))
             by (apply Z.pow_lt_mono_r; lia). lia.
      * destruct (Z.ltb_spec (2 ^ (53 + (t - b))) (2 ^ (1024 - b))) as [Hc|_]; [|done].
        pose proof (Hpow (1024 - b) (53 + (t - b))). lia.
    + assert (Hlt : Zpos n' < 2 ^ 53) by lia.
      destruct (Z.leb_spec t 971) as [Hle|Hgt].
      * destruct (Z.ltb_spec (scaled b (Zpos n') t) (2 ^ (1024 - b))) as [_|Hc].
        -- by rewrite (shiftl_val b) by lia.
        -- unfold scaled in Hc.
           pose proof (Hpow (53 + (t - b)) (1024 - b)).
           rewrite Z.pow_add_r in * by lia. nia.
      * destruct (Z.ltb_spec (scaled b (Zpos n') t) (2 ^ (1024 - b))) as [Hc|_]; [|done].
        unfold scaled in Hc. specialize (Hnorm ltac:(lia)).
        pose proof (Hpow (1024 - b) (52 + (t - b))).
        rewrite (Z.pow_add_r 2 52) in * by lia. nia.
Qed.

(** [int()] of the rounding of [m1 * 2^e1] against that of a larger
    [m2 * 2^e2]. *)
Lemma to_int_round_mono b m1 e1 m2 e2 z2 :
  let t1 := SpecFloat.fexp 53 1024 (Zpos (digits2_pos m1) + e1) in
  let t2 := SpecFloat.fexp 53 1024 (Zpos (digits2_pos m2) + e2) in
  b <= 0 -> b <= e1 -> b <= e2 -> e1 <= t1 -> e2 <= t2 ->
  scaled b (Zpos m1) e1 <= scaled b (Zpos m2) e2 ->
  PyFloat.to_int (binary_round_aux 53 1024 false (Zpos m2) e2 loc_Exact) = Ok z2 ->
  exists z1,
    PyFloat.to_int (binary_round_aux 53 1024 false (Zpos m1) e1 loc_Exact) = Ok z1
    /\ 0 <= z1 <= z2.
Proof.
  intros t1 t2 Hb Hb1 Hb2 Ht1 Ht2 Hv H2.
  rewrite binary_round_aux_spec in * by done. fold t1 t2 in H2 |- *.
  pose proof (rne_mantissa_bounds m1 e1 Ht1) as [Hn1 Hnorm1].
  pose proof (rne_mantissa_bounds m2 e2 Ht2) as [Hn2 Hnorm2].
  pose proof (rne_val_mono b m1 e1 m2 e2 Hb1 Hb2 Ht1 Ht2 Hv) as [Ht12 Hvv].
  fold t1 in Hn1, Hnorm1, Hvv. fold t2 in Hn2, Hnorm2, Hvv.
  assert (Htmin1 : -1074 <= t1) by (subst t1; rewrite fexp_eq; lia).
  assert (Htmin2 : -1074 <= t2) by (subst t2; rewrite fexp_eq; lia).
  rewrite (to_int_round_out b) in H2 by (done || lia).
  rewrite (to_int_round_out b) by (done || lia).
  set (v1 := scaled b (rne (Zpos m1) (t1 - e1)) t1) in *.
  set (v2 := scaled b (rne (Zpos m2) (t2 - e2)) t2) in *.
  assert (Hv1 : 0 <= v1).
  { subst v1. unfold scaled. apply Z.mul_nonneg_nonneg; [lia|]. apply Z.pow_nonneg; lia. }
  assert (Hpb : 0 < 2 ^ (- b)) by (apply Z.pow_pos_nonneg; lia).
  destruct (Z.ltb_spec v2 (2 ^ (1024 - b))) as [Hlt2|]; [|done].
  injection H2 as <-.
  destruct (Z.ltb_spec v1 (2 ^ (1024 - b))) as [_|]; [|lia].
  eexists; split; [done|]. split.
  - apply Z.div_pos; lia.
  - apply Z.div_le_mono; lia.
Qed.
End ToInt.

Section Valid.
Lemma Zdigits2_unique x a :
  0 < x -> 2 ^ (a - 1) <= x < 2 ^ a -> Zdigits2 x = a.
Proof.
  intros Hx [Ha1 Ha2].
  pose proof (Zdigits2_bounds x Hx) as [Hd1 Hd2].
  assert (0 < Zdigits2 x) by (destruct x; simpl; lia).
  assert (0 < a).
  { destruct (Z.lt_ge_cases 0 a); [done|].
    rewrite (Z.pow_neg_r 2 (a - 1)) in Ha1 by lia.
    destruct (Z.eq_dec a 0) as [->|]; [simpl in Ha2; lia|].
    rewrite (Z.pow_neg_r 2 a) in Ha2 by lia. lia. }
  assert (Zdigits2 x - 1 < a) by (apply pow2_lt_inv; lia).
  assert (a - 1 < Zdigits2 x) by (apply pow2_lt_inv; lia).
  lia.
Qed.

Lemma digits2_unique m a :
  2 ^ (a - 1) <= Zpos m < 2 ^ a -> Zpos (digits2_pos m) = a.
Proof. intros H. by apply (Zdigits2_unique (Zpos m)). Qed.

(** A valid finite float: canonical mantissa, exponent in range. *)
Lemma valid_finite s m e :
  valid_binary 53 1024 (S754_finite s m e) = true <->
  e = Z.max (Zpos (digits2_pos m) + e - 53) (-1074) /\ e <= 971.
Proof.
  cbn [valid_binary]. unfold bounded, canonical_mantissa.
  rewrite andb_true_iff, Z.eqb_eq, Z.leb_le, fexp_eq.
  change (1024 - 53) with 971. intuition lia.
Qed.

Lemma digits2_mul_lower m1 m2 :
  Zpos (digits2_pos m1) + Zpos (digits2_pos m2) - 1 <= Zpos (digits2_pos (m1 * m2)).
Proof.
  pose proof (digits2_bounds m1) as [H1 _].
  pose proof (digits2_bounds m2) as [H2 _].
  pose proof (digits2_bounds (m1 * m2)) as [_ H3].
  set (d1 := Zpos (digits2_pos m1)) in *.
  set (d2 := Zpos (digits2_pos m2)) in *.
  set (d := Zpos (digits2_pos (m1 * m2))) in *.
  assert (0 < d1) by (subst d1; lia). assert (0 < d2) by (subst d2; lia).
  assert (0 < d) by (subst d; lia).
  assert (d1 - 1 + (d2 - 1) < d); [|lia].
  apply pow2_lt_inv; [lia|]. rewrite Z.pow_add_r by lia.
  rewrite Pos2Z.inj_mul in H3.
  assert (0 < 2 ^ (d1 - 1)) by (apply Z.pow_pos_nonneg; lia).
  assert (0 < 2 ^ (d2 - 1)) by (apply Z.pow_pos_nonneg; lia).
  nia.
Qed.

(** The exact product of two valid floats never needs a left shift. *)
Lemma mul_exponent_ok s1 m1 e1 s2 m2 e2 :
  valid_binary 53 1024 (S754_finite s1 m1 e1) = true ->
  valid_binary 53 1024 (S754_finite s2 m2 e2) = true ->
  e1 + e2 <= SpecFloat.fexp 53 1024 (Zpos (digits2_pos (m1 * m2)) + (e1 + e2)).
Proof.
  rewrite !valid_finite, fexp_eq. intros [H1 _] [H2 _].
  pose proof (digits2_mul_lower m1 m2).
  assert (0 < Zpos (digits2_pos m1)) by lia.
  assert (0 < Zpos (digits2_pos m2)) by lia.
  lia.
Qed.

Lemma mul_finite_spec s1 m1 e1 s2 m2 e2 :
  valid_binary 53 1024 (S754_finite s1 m1 e1) = true ->
  valid_binary 53 1024 (S754_finite s2 m2 e2) = true ->
  let t := SpecFloat.fexp 53 1024 (Zpos (digits2_pos (m1 * m2)) + (e1 + e2)) in
  PyFloat.mul (S754_finite s1 m1 e1) (S754_finite s2 m2 e2)
  = round_out (xorb s1 s2) (rne (Zpos (m1 * m2)) (t - (e1 + e2))) t.
Proof.
  intros V1 V2 t. unfold PyFloat.mul. cbn [SFmul].
  apply binary_round_aux_spec. by apply (mul_exponent_ok s1 _ _ s2).
Qed.

(** What rounding returns is a valid float. *)
Lemma round_out_valid s n t :
  -1074 <= t -> 0 <= n <= 2 ^ 53 -> (-1074 < t -> 2 ^ 52 <= n) ->
  valid_binary 53 1024 (round_out s n t) = true.
Proof.
  intros Ht Hn Hnorm. destruct n as [|n'|n']; [done| |lia].
  unfold round_out, finite_or_inf.
  destruct (Z.eqb_spec (Zpos n') (2 ^ 53)) as [E|E].
  - destruct (Z.leb_spec (t + 1) 971); [|done].
    apply valid_finite. change (Zpos (digits2_pos (2 ^ 52))) with 53. lia.
  - destruct (Z.leb_spec t 971); [|done].
    apply valid_finite. split; [|done].
    pose proof (digits2_bounds n') as [Hd1 Hd2].
    assert (0 < Zpos (digits2_pos n')) by lia.
    assert (Zpos (digits2_pos n') <= 53).
    { assert (Zpos (digits2_pos n') - 1 < 53); [|lia].
      apply pow2_lt_inv; lia. }
    destruct (Z.eq_dec t (-1074)) as [->|]; [lia|].
    rewrite (digits2_unique n' 53); [lia|].
    change (2 ^ (53 - 1)) with (2 ^ 52). lia.
Qed.
End Valid.

Section OfInt.
Lemma iter_xO_pow m d : Zpos (Pos.iter xO m d) = Zpos m * 2 ^ Zpos d.
Proof.
  change (Pos.iter xO m d) with (shift_pos d m).
  rewrite shift_pos_correct. change (Z.pow_pos 2 d) with (2 ^ Zpos d). lia.
Qed.

(** [binary_round] first aligns the mantissa, then rounds. *)
Lemma binary_round_spec s m e :
  exists n t,
    binary_round 53 1024 s m e = round_out s n t
    /\ t = SpecFloat.fexp 53 1024 (Zpos (digits2_pos m) + e)
    /\ 0 <= n <= 2 ^ 53 /\ (-1074 < t -> 2 ^ 52 <= n).
Proof.
  unfold binary_round, shl_align.
  set (t := SpecFloat.fexp 53 1024 (Zpos (digits2_pos m) + e)).
  pose proof (digits2_bounds m) as [Hd1 Hd2].
  assert (Hdpos : 0 < Zpos (digits2_pos m)) by lia.
  destruct (t - e) as [|k|k] eqn:Ek.
  - pose proof (binary_round_aux_spec s m e) as Hs. cbv zeta in Hs. fold t in Hs.
    pose proof (rne_mantissa_bounds m e) as Hb. cbv zeta in Hb. fold t in Hb.
    exists (rne (Zpos m) (t - e)), t. rewrite Hs by lia.
    destruct Hb as [? ?]; [lia|]. done.
  - pose proof (binary_round_aux_spec s m e) as Hs. cbv zeta in Hs. fold t in Hs.
    pose proof (rne_mantissa_bounds m e) as Hb. cbv zeta in Hb. fold t in Hb.
    exists (rne (Zpos m) (t - e)), t. rewrite Hs by lia.
    destruct Hb as [? ?]; [lia|]. done.
  - (* the mantissa is shifted left to the canonical exponent [t] *)
    set (mz := Pos.iter xO m k).
    assert (Hmz : Zpos mz = Zpos m * 2 ^ Zpos k) by apply iter_xO_pow.
    assert (Hk : Zpos k = e - t) by lia.
    assert (Hpk : 0 < 2 ^ Zpos k) by (apply Z.pow_pos_nonneg; lia).
    assert (Hdz : Zpos (digits2_pos mz) = Zpos (digits2_pos m) + Zpos k).
    { apply digits2_unique. rewrite Hmz.
      replace (Zpos (digits2_pos m) + Zpos k - 1)
        with (Zpos (digits2_pos m) - 1 + Zpos k) by lia.
      rewrite !Z.pow_add_r by lia. nia. }
    assert (Htz : SpecFloat.fexp 53 1024 (Zpos (digits2_pos mz) + t) = t).
    { rewrite Hdz. subst t. f_equal. lia. }
    pose proof (binary_round_aux_spec s mz t) as Hs. cbv zeta in Hs.
    rewrite Htz in Hs.
    pose proof (rne_mantissa_bounds mz t) as Hb. cbv zeta in Hb.
    rewrite Htz in Hb.
    exists (rne (Zpos mz) (t - t)), t. rewrite Hs by lia.
    destruct Hb as [? ?]; [lia|]. done.
Qed.

(** [float(n)] for a list length: a valid, finite, non-negative float. *)
Lemma of_int_spec n :
  0 <= n < 2 ^ 1023 ->
  exists fn,
    PyFloat.of_int n = Ok fn
    /\ valid_binary 53 1024 fn = true
    /\ (fn = S754_zero false \/ exists m e, fn = S754_finite false m e).
Proof.
  intros [Hn0 Hn]. unfold PyFloat.of_int, binary_normalize.
  destruct n as [|m|m]; [| |lia].
  - exists (S754_zero false). auto.
  - destruct (binary_round_spec false m 0) as (k & t & Hr & Ht & Hk & Hnorm).
    change PyFloat.prec with 53. change PyFloat.emax with 1024. rewrite Hr.
    rewrite fexp_eq in Ht.
    pose proof (digits2_bounds m) as [Hd1 Hd2].
    assert (Hdpos : 0 < Zpos (digits2_pos m)) by lia.
    assert (Hd : Zpos (digits2_pos m) <= 1023).
    { assert (Zpos (digits2_pos m) - 1 < 1023); [|lia]. apply pow2_lt_inv; lia. }
    assert (Hv : valid_binary 53 1024 (round_out false k t) = true)
      by (apply round_out_valid; lia).
    assert (Hk52 : 2 ^ 52 <= k) by (apply Hnorm; lia).
    destruct k as [|k'|k']; [lia| |lia].
    unfold round_out, finite_or_inf in *.
    destruct (Z.eqb_spec (Zpos k') (2 ^ 53)).
    + destruct (Z.leb_spec (t + 1) 971); [|lia]. eauto 10.
    + destruct (Z.leb_spec t 971); [|lia]. eauto 10.
Qed.
End OfInt.

Section Order.
(** Python's [<=] on valid positive floats agrees with the order of
    their values. *)
Lemma leb_finite_scaled b m1 e1 m2 e2 :
  valid_binary 53 1024 (S754_finite false m1 e1) = true ->
  valid_binary 53 1024 (S754_finite false m2 e2) = true ->
  b <= e1 -> b <= e2 ->
  PyFloat.leb (S754_finite false m1 e1) (S754_finite false m2 e2) = true ->
  scaled b (Zpos m1) e1 <= scaled b (Zpos m2) e2.
Proof.
  rewrite !valid_finite. intros [V1 _] [V2 _] Hb1 Hb2.
  unfold PyFloat.leb, SFleb, SFcompare, scaled.
  pose proof (digits2_bounds m1) as [_ Hd1].
  pose proof (digits2_bounds m2) as [Hd2 _].
  assert (0 < Zpos (digits2_pos m1)) by lia.
  assert (0 < 2 ^ (e1 - b)) by (apply Z.pow_pos_nonneg; lia).
  destruct (Z.compare_spec e1 e2) as [->|Hlt|Hgt]; [|intros _|done].
  - change (Pos.compare_cont Eq m1 m2) with (Pos.compare m1 m2).
    destruct (Pos.compare_spec m1 m2); try done; intros _; subst; nia.
  - assert (Hd253 : Zpos (digits2_pos m2) = 53) by lia.
    rewrite Hd253 in Hd2. change (2 ^ (53 - 1)) with (2 ^ 52) in Hd2.
    assert (Zpos m1 < 2 ^ 53).
    { eapply Z.lt_le_trans; [exact Hd1|]. apply Z.pow_le_mono_r; lia. }
    replace (e2 - b) with ((e2 - e1 - 1) + 1 + (e1 - b)) by lia.
    rewrite !Z.pow_add_r by lia.
    assert (0 < 2 ^ (e2 - e1 - 1)) by (apply Z.pow_pos_nonneg; lia).
    change (2 ^ 1) with 2. change (2 ^ 53) with (2 * 2 ^ 52) in *.
    set (A := 2 ^ 52) in *. set (B := 2 ^ (e1 - b)) in *.
    set (C := 2 ^ (e2 - e1 - 1)) in *.
    assert (0 < A) by (subst A; lia).
    assert (Zpos m1 * B <= 2 * A * B) by nia.
    assert (A * (C * 2 * B) <= Zpos m2 * (C * 2 * B)) by nia.
    nia.
Qed.

(** [int(fn * r1) <= int(fn * r2)] for [0.0 <= r1 <= r2], whenever the
    larger product converts. *)
Lemma mul_to_int_mono fn r1 r2 z2 :
  valid_binary 53 1024 fn = true ->
  (fn = S754_zero false \/ exists m e, fn = S754_finite false m e) ->
  valid_binary 53 1024 r1 = true -> valid_binary 53 1024 r2 = true ->
  PyFloat.leb PyFloat.zero r1 = true -> PyFloat.leb r1 r2 = true ->
  PyFloat.to_int (PyFloat.mul fn r2) = Ok z2 ->
  exists z1, PyFloat.to_int (PyFloat.mul fn r1) = Ok z1 /\ 0 <= z1 <= z2.
Proof.
  intros Vn Hfn V1 V2 H0 H12 Hz2.
  assert (Hnonneg : forall m e mr er z,
    valid_binary 53 1024 (S754_finite false m e) = true ->
    valid_binary 53 1024 (S754_finite false mr er) = true ->
    PyFloat.to_int (PyFloat.mul (S754_finite false m e) (S754_finite false mr er)) = Ok z ->
    0 <= z).
  { intros m e mr er z Va Vb Hz.
    rewrite (mul_finite_spec false m e false mr er Va Vb) in Hz.
    pose proof (mul_exponent_ok false m e false mr er Va Vb) as Hle.
    pose proof (rne_mantissa_bounds (m * mr) (e + er) Hle) as [Hb Hnorm].
    set (t := SpecFloat.fexp 53 1024 (Zpos (digits2_pos (m * mr)) + (e + er))) in *.
    assert (-1074 <= t) by (subst t; rewrite fexp_eq; lia).
    rewrite (to_int_round_out (Z.min 0 (e + er))) in Hz by (done || lia).
    destruct (_ <? _); [|done]. injection Hz as <-.
    apply Z.div_pos; [|apply Z.pow_pos_nonneg; lia].
    unfold scaled. apply Z.mul_nonneg_nonneg; [lia|]. apply Z.pow_nonneg; lia. }
  destruct Hfn as [->|(mn & en & ->)].
  - (* an empty pool: every product is a zero *)
    destruct r1 as [s1|[]| |[] m1 e1], r2 as [s2|[]| |[] m2 e2];
      try done; cbn in Hz2; try done; injection Hz2 as <-;
      cbn; eexists; (split; [done|lia]).
  - destruct r1 as [s1|[]| |[] m1 e1]; try done.
    + (* r1 is a zero *)
      exists 0. split; [done|]. split; [done|].
      destruct r2 as [s2|[]| |[] m2 e2]; try done.
      * cbn in Hz2. injection Hz2 as <-. done.
      * by eapply (Hnonneg mn en m2 e2).
    + (* r1 is an infinity, and so is r2 *)
      destruct r2 as [s2|[]| |[] m2 e2]; done.
    + destruct r2 as [s2|[]| |[] m2 e2]; try done.
      rewrite (mul_finite_spec false mn en false m1 e1 Vn V1).
      rewrite (mul_finite_spec false mn en false m2 e2 Vn V2) in Hz2.
      pose proof (mul_exponent_ok false mn en false m1 e1 Vn V1) as Hle1.
      pose proof (mul_exponent_ok false mn en false m2 e2 Vn V2) as Hle2.
      rewrite <- binary_round_aux_spec in * by done.
      set (b := Z.min 0 (Z.min (en + e1) (en + e2))).
      apply (to_int_round_mono b _ _ (mn * m2) (en + e2)); try done; try lia.
      pose proof (leb_finite_scaled (b - en) m1 e1 m2 e2 V1 V2
                    ltac:(lia) ltac:(lia) H12) as Hs.
      unfold scaled in *. rewrite !Pos2Z.inj_mul.
      replace (en + e1 - b) with (e1 - (b - en)) by lia.
      replace (en + e2 - b) with (e2 - (b - en)) by lia.
      nia.
Qed.

(** Multiplying by [1.0] is exact. *)
Lemma mul_one s m e :
  valid_binary 53 1024 (S754_finite s m e) = true ->
  PyFloat.mul (S754_finite s m e) PyFloat.one = S754_finite s m e.
Proof.
  intros V. pose proof V as [Vc Ve]%valid_finite.
  assert (V1 : valid_binary 53 1024 PyFloat.one = true) by done.
  unfold PyFloat.one in *.
  rewrite (mul_finite_spec s m e false _ _ V V1).
  pose proof (digits2_bounds m) as [Hd1 Hd2].
  assert (Hdpos : 0 < Zpos (digits2_pos m)) by lia.
  assert (Hprod : Zpos (m * 4503599627370496) = Zpos m * 2 ^ 52) by (rewrite Pos2Z.inj_mul; done).
  assert (Hd : Zpos (digits2_pos (m * 4503599627370496)) = Zpos (digits2_pos m) + 52).
  { apply digits2_unique. rewrite Hprod.
    replace (Zpos (digits2_pos m) + 52 - 1) with (Zpos (digits2_pos m) - 1 + 52) by lia.
    rewrite !Z.pow_add_r by lia. lia. }
  rewrite Hd, fexp_eq, xorb_false_r.
  replace (Z.max (Zpos (digits2_pos m) + 52 + (e + -52) - 53) (-1074)) with e by lia.
  replace (e - (e + -52)) with (0 + 52) by lia.
  rewrite Hprod, rne_scale, rne_0 by lia.
  unfold round_out, finite_or_inf.
  assert (Zpos m < 2 ^ 53).
  { eapply Z.lt_le_trans; [exact Hd2|]. apply Z.pow_le_mono_r; lia. }
  destruct (Z.eqb_spec (Zpos m) (2 ^ 53)); [lia|].
  destruct (Z.leb_spec e 971); [done | lia].
Qed.
End Order.

Section IntOfMul.
Lemma of_int_valid n fn :
  0 <= n -> PyFloat.of_int n = Ok fn ->
  valid_binary 53 1024 fn = true
  /\ (fn = S754_zero false \/ exists m e, fn = S754_finite false m e).
Proof.
  intros Hn. unfold PyFloat.of_int, binary_normalize.
  destruct n as [|m|m]; [| |lia].
  - intros [= <-]. auto.
  - destruct (binary_round_spec false m 0) as (k & t & Hr & Ht & Hk & Hnorm).
    change PyFloat.prec with 53. change PyFloat.emax with 1024. rewrite Hr.
    assert (Hv : valid_binary 53 1024 (round_out false k t) = true).
    { apply round_out_valid; [|done|done]. rewrite Ht, fexp_eq. lia. }
    revert Hv. destruct k as [|k'|k']; [| |lia].
    + intros _ [= <-]. auto.
    + unfold round_out, finite_or_inf.
      destruct (_ =? _); destruct (_ <=? _); intros Hv [= <-]; eauto.
Qed.

(** [int(n * r1) <= int(n * r2)] for [0.0 <= r1 <= r2]. *)
Lemma int_of_mul_mono n r1 r2 k2 :
  0 <= n -> valid_float r1 -> valid_float r2 ->
  PyFloat.leb PyFloat.zero r1 = true -> PyFloat.leb r1 r2 = true ->
  PyFloat.int_of_mul n r2 = Ok k2 ->
  exists k1, PyFloat.int_of_mul n r1 = Ok k1 /\ 0 <= k1 <= k2.
Proof.
  intros Hn V1 V2 H0 H12. unfold PyFloat.int_of_mul, PyFloat.int_mul.
  destruct (PyFloat.of_int n) as [fn|] eqn:Hfn; [|done]. cbn.
  destruct (of_int_valid n fn Hn Hfn) as [Vn Hform].
  by apply mul_to_int_mono.
Qed.

Lemma int_of_mul_one n :
  0 <= n < 2 ^ 1023 -> exists k, PyFloat.int_of_mul n PyFloat.one = Ok k.
Proof.
  intros Hn. destruct (of_int_spec n Hn) as (fn & Hfn & Vn & Hform).
  unfold PyFloat.int_of_mul, PyFloat.int_mul. rewrite Hfn. cbn.
  destruct Hform as [->|(m & e & ->)].
  - by eexists.
  - rewrite mul_one by done. by eexists.
Qed.

(** The length of a split exists and is not negative when the ratio is a
    fraction. *)
Lemma int_of_mul_fraction n r :
  0 <= n < 2 ^ 1023 -> fraction r ->
  exists k, PyFloat.int_of_mul n r = Ok k /\ 0 <= k.
Proof.
  intros Hn (V & H0 & H1).
  destruct (int_of_mul_one n Hn) as [k1 Hk1].
  destruct (int_of_mul_mono n r PyFloat.one k1) as (k & Hk & ?); try done; [lia|].
  exists k. split; [done | lia].
Qed.

Lemma split_lens_fractions n ratios :
  Z.of_nat n < 2 ^ 1023 -> Forall fraction ratios ->
  exists lens, split_lens n ratios lens /\ Forall (fun k => 0 <= k) lens.
Proof.
  intros Hn. induction 1 as [|r rs Hr _ (lens & Hl & Hpos)].
  - exists []. split; constructor.
  - destruct (int_of_mul_fraction (Z.of_nat n) r) as (k & Hk & ?); [lia|done|].
    exists (k :: lens). split; by constructor.
Qed.
End IntOfMul.


(** ** Slices *)

Section SliceFacts.
Context {A : Type}.
Implicit Types l : list A.

Lemma adjust_nonneg n i : 0 <= n -> 0 <= i -> PySeq.adjust n i = Z.min i n.
Proof. intros Hn Hi. unfold PySeq.adjust. destruct (Z.ltb_spec i 0); lia. Qed.

Lemma adjust_range n i : 0 <= n -> 0 <= PySeq.adjust n i <= n.
Proof. intros Hn. unfold PySeq.adjust. destruct (Z.ltb_spec i 0); lia. Qed.

(** A slice with non-negative bounds, as [take] and [drop]. *)
Lemma slice_from_nonneg l a :
  0 <= a -> PySeq.slice l (Some a) None = drop (Z.to_nat a) l.
Proof.
  intros Ha. unfold PySeq.slice.
  rewrite adjust_nonneg by lia.
  destruct (Z.le_gt_cases a (Z.of_nat (length l))) as [Hle|Hgt].
  - rewrite Z.min_l by lia. apply take_ge. rewrite length_drop. lia.
  - rewrite Z.min_r by lia. rewrite Z.sub_diag. simpl.
    symmetry. apply drop_ge. lia.
Qed.

Lemma slice_between_nonneg l a b :
  0 <= a -> 0 <= b ->
  PySeq.slice l (Some a) (Some (a + b)) = take (Z.to_nat b) (drop (Z.to_nat a) l).
Proof.
  intros Ha Hb. unfold PySeq.slice.
  rewrite !adjust_nonneg by lia.
  set (n := Z.of_nat (length l)).
  destruct (Z.le_gt_cases a n) as [Hle|Hgt].
  - rewrite (Z.min_l a n) by lia.
    destruct (Z.le_gt_cases (a + b) n) as [Hle'|Hgt'].
    + rewrite Z.min_l by lia. f_equal. lia.
    + rewrite Z.min_r by lia.
      rewrite !take_ge; [done | rewrite length_drop; lia | rewrite length_drop; lia].
  - rewrite !Z.min_r by lia. rewrite Z.sub_diag. simpl.
    rewrite (drop_ge l (Z.to_nat a)) by lia. by rewrite take_nil.
Qed.

Lemma slice_all l : PySeq.slice l (Some 0) None = l.
Proof. by rewrite slice_from_nonneg. Qed.

(** Two slices that share a bound tile the longer one. *)
Lemma slice_tile_open l a b :
  0 <= a -> 0 <= b ->
  PySeq.slice l (Some a) (Some (a + b)) ++ PySeq.slice l (Some (a + b)) None
  = PySeq.slice l (Some a) None.
Proof.
  intros Ha Hb.
  rewrite slice_between_nonneg, !slice_from_nonneg by lia.
  rewrite Z2Nat.inj_add by lia. rewrite <- drop_drop.
  apply take_drop.
Qed.

Lemma length_slice_between l a b :
  0 <= a -> 0 <= b ->
  Z.of_nat (length (PySeq.slice l (Some a) (Some (a + b))))
  = Z.min (a + b) (Z.of_nat (length l)) - Z.min a (Z.of_nat (length l)).
Proof.
  intros Ha Hb. rewrite slice_between_nonneg by lia.
  rewrite length_take, length_drop. lia.
Qed.

Lemma length_slice_from l a :
  0 <= a ->
  Z.of_nat (length (PySeq.slice l (Some a) None))
  = Z.of_nat (length l) - Z.min a (Z.of_nat (length l)).
Proof.
  intros Ha. rewrite slice_from_nonneg by lia. rewrite length_drop. lia.
Qed.

End SliceFacts.

(** ** Dictionaries *)

Section DictFacts.
Context {V : Type}.
Implicit Types d : dict V.

Lemma dict_get_middle d1 d2 k v :
  k ∉ d1.*1 -> dict_get (d1 ++ (k, v) :: d2) k = Ok v.
Proof.
  induction d1 as [|[k' v'] d1 IH]; simpl; intros Hk.
  - by rewrite String.eqb_refl.
  - apply not_elem_of_cons in Hk as [Hne Hk].
    destruct (String.eqb_spec k' k); [congruence | auto].
Qed.

Lemma dict_set_middle d1 d2 k v v' :
  k ∉ d1.*1 -> dict_set (d1 ++ (k, v) :: d2) k v' = d1 ++ (k, v') :: d2.
Proof.
  induction d1 as [|[k' w] d1 IH]; simpl; intros Hk.
  - by rewrite String.eqb_refl.
  - apply not_elem_of_cons in Hk as [Hne Hk].
    destruct (String.eqb_spec k' k); [congruence | by rewrite IH].
Qed.

Lemma dict_set_fresh d k v :
  k ∉ d.*1 -> dict_set d k v = d ++ [(k, v)].
Proof.
  induction d as [|[k' w] d IH]; simpl; intros Hk; [done|].
  apply not_elem_of_cons in Hk as [Hne Hk].
  destruct (String.eqb_spec k' k); [congruence | by rewrite IH].
Qed.

(** [{s: v for s in keys}] for distinct keys. *)
Lemma dict_comprehension (keys : list string) (v : V) d :
  NoDup (d.*1 ++ keys) ->
  fold_left (fun d s => dict_set d s v) keys d = d ++ map (fun s => (s, v)) keys.
Proof.
  revert d. induction keys as [|k keys IH]; intros d Hnd; simpl.
  - by rewrite app_nil_r.
  - rewrite dict_set_fresh.
    + rewrite IH; [by rewrite <- app_assoc|].
      rewrite fmap_app. simpl. by rewrite <- app_assoc.
    + apply NoDup_app in Hnd as (_ & Hdis & _).
      intros Hin. apply (Hdis k Hin). by left.
Qed.

End DictFacts.

(** ** The partitioner, in closed form *)

Section PartitionFacts.
Context {A : Type}.
Implicit Types pool : list A.

Lemma getitem_lookup pool i x : pool !! i = Some x -> PySeq.getitem pool i = Ok x.
Proof. unfold PySeq.getitem. by intros ->. Qed.

Lemma append_triplets_seq pool split lo m :
  forall (d1 d2 : dict (list A)) cur,
    (lo + m <= length pool)%nat ->
    split ∉ d1.*1 ->
    append_triplets pool split (seq lo m) (d1 ++ (split, cur) :: d2)
    = Ok (d1 ++ (split, cur ++ take m (drop lo pool)) :: d2).
Proof.
  revert lo. induction m as [|m IH]; intros lo d1 d2 cur Hlen Hk; simpl.
  - by rewrite app_nil_r.
  - rewrite dict_get_middle by done. simpl.
    destruct (lookup_lt_is_Some_2 pool lo) as [x Hx]; [lia|].
    rewrite (getitem_lookup _ _ _ Hx). simpl.
    rewrite dict_set_middle by done.
    rewrite IH by (done || lia).
    rewrite (drop_S _ _ _ Hx). simpl. by rewrite <- app_assoc.
Qed.

(** Appending the triplets of an index slice appends the same slice of
    the pool. *)
Lemma append_triplets_slice pool split i j d1 d2 cur :
  split ∉ d1.*1 ->
  append_triplets pool split (PySeq.slice (seq 0 (length pool)) i j)
    (d1 ++ (split, cur) :: d2)
  = Ok (d1 ++ (split, cur ++ PySeq.slice pool i j) :: d2).
Proof.
  intros Hk. unfold PySeq.slice. rewrite length_seq.
  set (n := Z.of_nat (length pool)).
  set (lo := match i with Some i0 => PySeq.adjust n i0 | None => 0 end).
  set (hi := match j with Some j0 => PySeq.adjust n j0 | None => n end).
  assert (Hlo : 0 <= lo <= n).
  { subst lo. destruct i; [apply adjust_range|]; subst n; lia. }
  assert (Hhi : 0 <= hi <= n).
  { subst hi. destruct j; [apply adjust_range|]; subst n; lia. }
  rewrite drop_seq, take_seq. simpl.
  rewrite append_triplets_seq by (done || lia).
  do 3 f_equal.
  destruct (Nat.le_gt_cases (Z.to_nat (hi - lo)) (length pool - Z.to_nat lo)).
  - by rewrite Nat.min_l.
  - rewrite Nat.min_r by lia.
    rewrite !take_ge; [done | rewrite length_drop; lia | rewrite length_drop; lia].
Qed.

(** The loop, from any iteration on: [done] holds the splits already
    filled, the splits still to come are empty. *)
Lemma split_loop_spec pool n :
  forall splits ratios lens (done : dict (list A)) idx start,
    length splits = length ratios ->
    split_lens (length pool) ratios lens ->
    NoDup (done.*1 ++ splits) ->
    idx + Z.of_nat (length splits) = n ->
    split_loop pool (seq 0 (length pool)) n idx (zip splits ratios) start
      (done ++ map (fun s => (s, [])) splits)
    = Ok (done ++ zip splits (split_slices pool start lens)).
Proof.
  induction splits as [|s rest IH]; intros ratios lens done idx start Hlen Hlens Hnd Hidx.
  - simpl. done.
  - destruct ratios as [|r rs]; [done|].
    inversion Hlens as [|? k ? ks Hk Hks]; subst.
    simpl in Hlen. injection Hlen as Hlen.
    assert (Hs : s ∉ done.*1).
    { apply NoDup_app in Hnd as (_ & Hdis & _).
      intros Hin. apply (Hdis s Hin). by left. }
    cbn [zip zip_with split_loop map]. rewrite length_seq. rewrite Hk.
    cbn [mbind result_bind].
    destruct rest as [|s' rest'].
    + destruct rs; [|done]. inversion Hks; subst.
      replace (idx =? idx + Z.of_nat (length [s]) - 1) with true
        by (symmetry; apply Z.eqb_eq; simpl; lia).
      rewrite append_triplets_slice by done. simpl. done.
    + replace (idx =? idx + Z.of_nat (length (s :: s' :: rest')) - 1) with false
        by (symmetry; apply Z.eqb_neq; simpl length; lia).
      rewrite append_triplets_slice by done. cbn [mbind result_bind].
      destruct rs as [|r' rs']; [done|].
      inversion Hks as [|? k' ? ks' Hk' Hks']; subst.
      specialize (IH (r' :: rs') (k' :: ks') (done ++ [(s, PySeq.slice pool (Some start) (Some (start + k)))])
                    (idx + 1) (start + k)).
      rewrite <- !app_assoc in IH. simpl in IH. simpl.
      rewrite IH; [done | done | done | | simpl length in *; lia].
      rewrite fmap_app. simpl. rewrite <- app_assoc. simpl.
      eapply NoDup_Permutation_proper; [|exact Hnd]. 
      apply Permutation_app_head. done.
Qed.

(** [split_dataset] in closed form: each split, in the order declared,
    with its slice. *)
Lemma split_dataset_slices pool splits ratios lens :
  NoDup splits ->
  length splits = length ratios ->
  split_lens (length pool) ratios lens ->
  split_dataset pool splits ratios = Ok (zip splits (split_slices pool 0 lens)).
Proof.
  intros Hnd Hlen Hlens. unfold split_dataset.
  rewrite dict_comprehension by done. simpl.
  by apply (split_loop_spec pool _ splits ratios lens []).
Qed.
(** Non-negative lengths cut consecutive slices: together they are the
    rest of the list from the cursor on. *)
Lemma concat_split_slices pool lens :
  forall start,
    0 <= start -> Forall (fun k => 0 <= k) lens -> lens <> [] ->
    concat (split_slices pool start lens) = PySeq.slice pool (Some start) None.
Proof.
  induction lens as [|k ks IH]; intros start Hs Hpos Hne; [done|].
  inversion Hpos as [|? ? Hk Hks]; subst.
  destruct ks as [|k' ks'].
  - simpl. by rewrite app_nil_r.
  - change (split_slices pool start (k :: k' :: ks'))
      with (PySeq.slice pool (Some start) (Some (start + k))
              :: split_slices pool (start + k) (k' :: ks')).
    rewrite concat_cons, IH by (done || lia).
    by apply slice_tile_open.
Qed.

Lemma length_split_slices pool lens start :
  length (split_slices pool start lens) = length lens.
Proof.
  revert start. induction lens as [|k [|k' ks] IH]; intros start; [done|done|].
  change (split_slices pool start (k :: k' :: ks))
    with (PySeq.slice pool (Some start) (Some (start + k))
            :: split_slices pool (start + k) (k' :: ks)).
  cbn [length]. f_equal. apply IH.
Qed.

(** The pool, entry by entry, against its indices. *)
Lemma pool_at_indices pool :
  Forall2 (fun x i => pool !! i = Some x) pool (seq 0 (length pool)).
Proof.
  apply Forall2_same_length_lookup_2.
  - by rewrite length_seq.
  - intros i x j Hx Hj. apply lookup_seq in Hj as [-> _]. done.
Qed.

Lemma slice_at_indices pool i j :
  Forall2 (fun x i => pool !! i = Some x)
    (PySeq.slice pool i j) (PySeq.slice (seq 0 (length pool)) i j).
Proof.
  unfold PySeq.slice. rewrite length_seq.
  apply Forall2_take, Forall2_drop, pool_at_indices.
Qed.

Lemma split_slices_at_indices pool lens :
  forall start,
    Forall2 (Forall2 (fun x i => pool !! i = Some x))
      (split_slices pool start lens)
      (split_slices (seq 0 (length pool)) start lens).
Proof.
  induction lens as [|k [|k' ks] IH]; intros start.
  - constructor.
  - repeat constructor. apply slice_at_indices.
  - change (split_slices pool start (k :: k' :: ks))
      with (PySeq.slice pool (Some start) (Some (start + k))
              :: split_slices pool (start + k) (k' :: ks)).
    change (split_slices (seq 0 (length pool)) start (k :: k' :: ks))
      with (PySeq.slice (seq 0 (length pool)) (Some start) (Some (start + k))
              :: split_slices (seq 0 (length pool)) (start + k) (k' :: ks)).
    constructor; [apply slice_at_indices | apply IH].
Qed.

End PartitionFacts.

(** ** The partitioner: coverage, sizes, monotonicity *)

Section PartitionClaims.
Context {A : Type}.
Implicit Types pool : list A.

Lemma split_dataset_fractions pool splits ratios :
  NoDup splits -> length splits = length ratios ->
  Forall fraction ratios -> Z.of_nat (length pool) < 2 ^ 1023 ->
  exists lens,
    split_lens (length pool) ratios lens
    /\ Forall (fun k => 0 <= k) lens
    /\ length lens = length splits
    /\ split_dataset pool splits ratios = Ok (zip splits (split_slices pool 0 lens)).
Proof.
  intros Hnd Hlen Hfr HN.
  destruct (split_lens_fractions (length pool) ratios HN Hfr) as (lens & Hl & Hpos).
  exists lens. repeat split; try done.
  - apply Forall2_length in Hl. lia.
  - by apply split_dataset_slices.
Qed.
End PartitionClaims.

(** C1. Coverage and disjointness: for a pool of any entries, distinct
    split names and as many ratios, each a fraction between 0.0 and 1.0,
    [split_dataset] returns one entry per split, in the declared order; the
    index lists of the splits, put end to end, are exactly 0, 1, ..., N-1
    (so they are pairwise disjoint and leave no index out), every split
    holds the pool entries at its indices, and the splits put end to end are
    the pool. *)
Theorem split_dataset_partition {A} (pool : list A) (splits : list string)
    (ratios : list PyFloat.float) :
  NoDup splits -> splits <> [] -> length splits = length ratios ->
  Forall fraction ratios -> Z.of_nat (length pool) < 2 ^ 1023 ->
  exists ds idx,
    split_dataset pool splits ratios = Ok ds
    /\ split_dataset (seq 0 (length pool)) splits ratios = Ok idx
    /\ dict_keys ds = splits /\ dict_keys idx = splits
    /\ concat (dict_values idx) = seq 0 (length pool)
    /\ NoDup (concat (dict_values idx))
    /\ Forall2 (Forall2 (fun x i => pool !! i = Some x)) (dict_values ds) (dict_values idx)
    /\ concat (dict_values ds) = pool.
Proof.
  intros Hnd Hne Hlen Hfr HN.
  destruct (split_dataset_fractions pool splits ratios Hnd Hlen Hfr HN)
    as (lens & Hl & Hpos & Hll & Hds).
  assert (Hidx : split_dataset (seq 0 (length pool)) splits ratios
                 = Ok (zip splits (split_slices (seq 0 (length pool)) 0 lens))).
  { apply split_dataset_slices; [done|done|]. by rewrite length_seq. }
  assert (Hlens : lens <> []) by (destruct lens, splits; done).
  exists (zip splits (split_slices pool 0 lens)),
         (zip splits (split_slices (seq 0 (length pool)) 0 lens)).
  unfold dict_keys, dict_values.
  rewrite !fst_zip, !snd_zip by (rewrite length_split_slices; lia).
  rewrite !concat_split_slices, !slice_all by (done || lia).
  repeat split; try done.
  - apply NoDup_seq.
  - apply split_slices_at_indices.
Qed.

Lemma split_dataset_partition_witness :
  exists ds idx,
    split_dataset ["a"; "b"; "c"; "d"; "e"] SPLITS [PyFloat.f0_8; PyFloat.f0_1; PyFloat.f0_1] = Ok ds
    /\ split_dataset (seq 0 5) SPLITS [PyFloat.f0_8; PyFloat.f0_1; PyFloat.f0_1] = Ok idx
    /\ dict_keys ds = SPLITS /\ dict_keys idx = SPLITS
    /\ concat (dict_values idx) = seq 0 5
    /\ NoDup (concat (dict_values idx))
    /\ Forall2 (Forall2 (fun x i => ["a"; "b"; "c"; "d"; "e"] !! i = Some x))
         (dict_values ds) (dict_values idx)
    /\ concat (dict_values ds) = ["a"; "b"; "c"; "d"; "e"].
Proof.
  apply (split_dataset_partition ["a"; "b"; "c"; "d"; "e"] SPLITS
           [PyFloat.f0_8; PyFloat.f0_1; PyFloat.f0_1]).
  - refine (bool_decide_unpack (NoDup SPLITS) _). vm_compute. exact I.
  - discriminate.
  - reflexivity.
  - repeat constructor.
  - reflexivity.
Defined.

Section SizeFacts.
Context {A : Type}.
Implicit Types pool : list A.

Lemma sizes_split_slices pool lens :
  forall start,
    0 <= start -> Forall (fun k => 0 <= k) lens ->
    map (fun l => Z.of_nat (length l)) (split_slices pool start lens)
    = split_sizes (Z.of_nat (length pool)) start lens.
Proof.
  induction lens as [|k [|k' ks] IH]; intros start Hs Hpos; [done| |].
  - cbn. by rewrite length_slice_from.
  - inversion Hpos as [|? ? Hk Hks]; subst.
    change (split_slices pool start (k :: k' :: ks))
      with (PySeq.slice pool (Some start) (Some (start + k))
              :: split_slices pool (start + k) (k' :: ks)).
    change (split_sizes (Z.of_nat (length pool)) start (k :: k' :: ks))
      with ((Z.min (start + k) (Z.of_nat (length pool)) - Z.min start (Z.of_nat (length pool)))
              :: split_sizes (Z.of_nat (length pool)) (start + k) (k' :: ks)).
    rewrite map_cons, length_slice_between, IH by (done || lia). done.
Qed.

Lemma sum_removelast_nonneg (l : list Z) :
  Forall (fun k => 0 <= k) l -> 0 <= foldr Z.add 0 (removelast l).
Proof.
  induction 1 as [|x l Hx Hl IH]; [done|].
  destruct l as [|y l']; [done|].
  change (removelast (x :: y :: l')) with (x :: removelast (y :: l')).
  cbn [foldr]. lia.
Qed.

Lemma split_sizes_exact n lens :
  forall start,
    0 <= start -> Forall (fun k => 0 <= k) lens -> lens <> [] ->
    start + foldr Z.add 0 (removelast lens) <= n ->
    split_sizes n start lens
    = removelast lens ++ [n - start - foldr Z.add 0 (removelast lens)].
Proof.
  induction lens as [|k [|k' ks] IH]; intros start Hs Hpos Hne Hsum; [done| |].
  - cbn in *. f_equal. lia.
  - inversion Hpos as [|? ? Hk Hks]; subst.
    pose proof (sum_removelast_nonneg (k' :: ks) Hks) as Hsum_pos.
    change (removelast (k :: k' :: ks)) with (k :: removelast (k' :: ks)) in *.
    cbn [foldr] in Hsum.
    change (split_sizes n start (k :: k' :: ks))
      with ((Z.min (start + k) n - Z.min start n) :: split_sizes n (start + k) (k' :: ks)).
    rewrite IH by (done || lia). cbn [foldr app].
    f_equal; [lia|]. do 2 f_equal. lia.
Qed.
End SizeFacts.

(** C2, as stated, fails: with ten pairs and the ratios (0.8, 0.8, 0.1) the
    validation split receives 2 pairs, not [floor(10 * 0.8) = 8], and the
    last split is empty. *)
Lemma remainder_absorption_counterexample :
  ~ remainder_absorption_as_stated (seq 0 10) SPLITS
      [PyFloat.f0_8; PyFloat.f0_8; PyFloat.f0_1].
Proof.
  intros (ds & lens & Hds & Hlens & Hsizes).
  vm_compute in Hds. injection Hds as <-.
  inversion Hlens as [|? k0 ? l0 H0 Hl0]; subst.
  inversion Hl0 as [|? k1 ? l1 H1 Hl1]; subst.
  inversion Hl1 as [|? k2 ? l2 H2 Hl2]; subst.
  inversion Hl2; subst.
  vm_compute in H0, H1, H2.
  injection H0 as <-. injection H1 as <-. injection H2 as <-.
  vm_compute in Hsizes. discriminate.
Qed.

(** C2, amended: for a pool of N entries, distinct split names and as many
    ratios between 0.0 and 1.0, the splits are the consecutive slices cut at
    a running cursor that advances by [floor(N * ratio)]: a split other than
    the last receives the entries from the cursor up to cursor +
    [floor(N * ratio)], clamped to the end of the pool, and the last split
    receives every entry from its cursor on.  When the floors of the earlier
    splits sum to at most N, each of them receives exactly
    [floor(N * ratio)] entries and the last receives N minus their sum. *)
Theorem remainder_absorption {A} (pool : list A) (splits : list string)
    (ratios : list PyFloat.float) :
  NoDup splits -> length splits = length ratios ->
  Forall fraction ratios -> Z.of_nat (length pool) < 2 ^ 1023 ->
  exists ds lens,
    split_dataset pool splits ratios = Ok ds
    /\ split_lens (length pool) ratios lens
    /\ dict_keys ds = splits
    /\ dict_values ds = split_slices pool 0 lens
    /\ sizes ds = split_sizes (Z.of_nat (length pool)) 0 lens
    /\ (foldr Z.add 0 (removelast lens) <= Z.of_nat (length pool) ->
        sizes ds = sizes_as_stated (Z.of_nat (length pool)) lens).
Proof.
  intros Hnd Hlen Hfr HN.
  destruct (split_dataset_fractions pool splits ratios Hnd Hlen Hfr HN)
    as (lens & Hl & Hpos & Hll & Hds).
  exists (zip splits (split_slices pool 0 lens)), lens.
  unfold sizes, dict_keys, dict_values.
  rewrite fst_zip, snd_zip by (rewrite length_split_slices; lia).
  rewrite sizes_split_slices by done.
  repeat split; try done.
  intros Hsum. destruct lens as [|k ks]; [done|].
  rewrite split_sizes_exact by done.
  unfold sizes_as_stated. do 2 f_equal. lia.
Qed.

Lemma remainder_absorption_witness :
  exists ds lens,
    split_dataset (seq 0 10) SPLITS [PyFloat.f0_8; PyFloat.f0_1; PyFloat.f0_1] = Ok ds
    /\ split_lens (length (seq 0 10)) [PyFloat.f0_8; PyFloat.f0_1; PyFloat.f0_1] lens
    /\ dict_keys ds = SPLITS
    /\ dict_values ds = split_slices (seq 0 10) 0 lens
    /\ sizes ds = split_sizes (Z.of_nat (length (seq 0 10))) 0 lens
    /\ (foldr Z.add 0 (removelast lens) <= Z.of_nat (length (seq 0 10)) ->
        sizes ds = sizes_as_stated (Z.of_nat (length (seq 0 10))) lens).
Proof.
  apply (remainder_absorption (seq 0 10) SPLITS
           [PyFloat.f0_8; PyFloat.f0_1; PyFloat.f0_1]).
  - refine (bool_decide_unpack (NoDup SPLITS) _). vm_compute. exact I.
  - reflexivity.
  - repeat constructor.
  - reflexivity.
Defined.

(** The examples of the design document: ten pairs, ratios (0.8, 0.1, 0.1)
    and (0.81, 0.1, 0.09), sizes (8, 1, 1). *)
Example split_dataset_sizes_8_1_1 :
  sizes <$> split_dataset (seq 0 10) SPLITS [PyFloat.f0_8; PyFloat.f0_1; PyFloat.f0_1]
  = Ok [8; 1; 1]
  /\ sizes <$> split_dataset (seq 0 10) SPLITS [PyFloat.f0_81; PyFloat.f0_1; PyFloat.f0_09]
     = Ok [8; 1; 1].
Proof. split; vm_compute; reflexivity. Qed.

(** Outside the fractions, Python's negative slice bounds take over: with
    ten pairs, a train ratio of 0.2 and a validation ratio raised from -0.5
    to -0.1, the validation split shrinks from five pairs to none, and the
    last split then overlaps the first. *)
Example split_dataset_negative_ratios :
  split_dataset (seq 0 10) SPLITS [PyFloat.f0_2; PyFloat.neg PyFloat.f0_5; PyFloat.f0_1]
  = Ok [("train", [0; 1]); ("val", [2; 3; 4; 5; 6]); ("test", [7; 8; 9])]%nat
  /\ split_dataset (seq 0 10) SPLITS [PyFloat.f0_2; PyFloat.neg PyFloat.f0_1; PyFloat.f0_1]
     = Ok [("train", [0; 1]); ("val", []); ("test", [1; 2; 3; 4; 5; 6; 7; 8; 9])]%nat.
Proof. split; vm_compute; reflexivity. Qed.

(** C8. Ratio monotonicity: for a pool of any size and two ratio tuples
    with the same train and test ratios, every ratio between 0.0 and 1.0,
    whose validation ratios satisfy [v1 <= v2], both calls return and the
    validation split under [v2] is at least as long as under [v1]. *)
Theorem val_split_monotone {A} (pool : list A) (tr v1 v2 te : PyFloat.float) :
  fraction tr -> fraction v1 -> fraction v2 -> fraction te ->
  PyFloat.leb v1 v2 = true -> Z.of_nat (length pool) < 2 ^ 1023 ->
  exists ds1 ds2 val1 val2,
    split_dataset pool SPLITS [tr; v1; te] = Ok ds1
    /\ split_dataset pool SPLITS [tr; v2; te] = Ok ds2
    /\ dict_get ds1 "val" = Ok val1
    /\ dict_get ds2 "val" = Ok val2
    /\ (length val1 <= length val2)%nat.
Proof.
  intros Htr Hv1 Hv2 Hte Hle HN.
  set (n := Z.of_nat (length pool)) in *.
  destruct (int_of_mul_fraction n tr) as (a & Ha & Ha0); [lia|done|].
  destruct (int_of_mul_fraction n v2) as (b2 & Hb2 & Hb20); [lia|done|].
  destruct (int_of_mul_fraction n te) as (c & Hc & Hc0); [lia|done|].
  destruct (int_of_mul_mono n v1 v2 b2) as (b1 & Hb1 & Hb10 & Hb12);
    [lia | apply Hv1 | apply Hv2 | apply Hv1 | done | done |].
  assert (Hnd : NoDup SPLITS).
  { refine (bool_decide_unpack (NoDup SPLITS) _). vm_compute. exact I. }
  exists (zip SPLITS (split_slices pool 0 [a; b1; c])),
         (zip SPLITS (split_slices pool 0 [a; b2; c])),
         (PySeq.slice pool (Some a) (Some (a + b1))),
         (PySeq.slice pool (Some a) (Some (a + b2))).
  split; [apply split_dataset_slices; [done | done | by repeat constructor]|].
  split; [apply split_dataset_slices; [done | done | by repeat constructor]|].
  split; [done|]. split; [done|].
  pose proof (length_slice_between pool a b1 Ha0 Hb10).
  pose proof (length_slice_between pool a b2 Ha0 Hb20).
  lia.
Qed.

Lemma val_split_monotone_witness :
  exists ds1 ds2 val1 val2,
    split_dataset (seq 0 10) SPLITS [PyFloat.f0_5; PyFloat.f0_1; PyFloat.f0_1] = Ok ds1
    /\ split_dataset (seq 0 10) SPLITS [PyFloat.f0_5; PyFloat.f0_5; PyFloat.f0_1] = Ok ds2
    /\ dict_get ds1 "val" = Ok val1
    /\ dict_get ds2 "val" = Ok val2
    /\ (length val1 <= length val2)%nat.
Proof.
  apply (val_split_monotone (seq 0 10) PyFloat.f0_5 PyFloat.f0_1 PyFloat.f0_5 PyFloat.f0_1).
  - repeat split.
  - repeat split.
  - repeat split.
  - repeat split.
  - reflexivity.
  - reflexivity.
Defined.

(** ** Pair discovery *)

Section StringOrder.
Lemma ascii_compare_refl a : Ascii.compare a a = Eq.
Proof. unfold Ascii.compare. apply N.compare_refl. Qed.

Lemma string_compare_refl s : String.compare s s = Eq.
Proof. induction s as [|a s IH]; [done|]. simpl. by rewrite ascii_compare_refl. Qed.

Lemma string_compare_trans_le s1 :
  forall s2 s3,
    String.compare s1 s2 <> Gt -> String.compare s2 s3 <> Gt ->
    String.compare s1 s3 <> Gt.
Proof.
  induction s1 as [|a s1 IH]; intros [|b s2] [|c s3]; simpl; try done.
  unfold Ascii.compare.
  destruct (N.compare_spec (N_of_ascii a) (N_of_ascii b)) as [Hab|Hab|Hab]; try done;
  destruct (N.compare_spec (N_of_ascii b) (N_of_ascii c)) as [Hbc|Hbc|Hbc]; try done;
  destruct (N.compare_spec (N_of_ascii a) (N_of_ascii c)) as [Hac|Hac|Hac]; try done;
    try lia; try (intros; apply (IH s2 s3); done).
Qed.

Global Instance str_le_refl : Reflexive str_le.
Proof. intros s. unfold str_le, String.leb. by rewrite string_compare_refl. Qed.

Global Instance str_le_trans : Transitive str_le.
Proof.
  intros s1 s2 s3. unfold str_le, String.leb. intros H12 H23.
  pose proof (string_compare_trans_le s1 s2 s3) as H.
  destruct (String.compare s1 s2), (String.compare s2 s3), (String.compare s1 s3);
    try done; exfalso; apply H; done.
Qed.

Global Instance str_le_total : Total str_le.
Proof. intros s1 s2. apply String.leb_total. Qed.

Global Instance str_le_antisymm : AntiSymm (=) str_le.
Proof. intros s1 s2. apply String.leb_antisym. Qed.
End StringOrder.

Section Discovery.
Context `{World}.

Lemma search_images_run imgs_dir :
  search_images imgs_dir
  = ([EGlob (PosixPath.join imgs_dir ["*.png"])], Ok (image_names imgs_dir)).
Proof. reflexivity. Qed.

Lemma search_image_triplets_run imgs_root :
  search_image_triplets imgs_root
  = ([EGlob (PosixPath.join (PosixPath.join imgs_root ["clean"]) ["*.png"]);
      EGlob (PosixPath.join (PosixPath.join imgs_root ["noisy"]) ["*.png"])],
     Ok (map (Triplet (snd (PosixPath.split imgs_root))
                (PosixPath.join imgs_root ["clean"])
                (PosixPath.join imgs_root ["noisy"]))
           (joined_names imgs_root))).
Proof. reflexivity. Qed.

Lemma joined_names_spec imgs_root :
  NoDup (joined_names imgs_root)
  /\ StronglySorted str_le (joined_names imgs_root)
  /\ forall n, n ∈ joined_names imgs_root <->
       n ∈ image_names (PosixPath.join imgs_root ["clean"])
       /\ n ∈ image_names (PosixPath.join imgs_root ["noisy"]).
Proof.
  unfold joined_names, sorted. split; [|split].
  - rewrite merge_sort_Permutation, set_iter_elements. apply NoDup_elements.
  - apply StronglySorted_merge_sort; apply _.
  - intros n. rewrite merge_sort_Permutation, set_iter_elements.
    rewrite elem_of_elements, elem_of_intersection.
    by rewrite !elem_of_list_to_set.
Qed.

(** Sorting forgets the order it was given. *)
Lemma sorted_Permutation (l1 l2 : list string) :
  l1 ≡ₚ l2 -> sorted l1 = sorted l2.
Proof.
  intros Hp. unfold sorted.
  apply (StronglySorted_unique str_le); try (apply StronglySorted_merge_sort; apply _).
  by rewrite !merge_sort_Permutation.
Qed.
End Discovery.

(** C9, on the code: the root is pasted into the [glob] pattern as it is.
    For the root [data/set[A]], in a file system that holds [b.png] under
    [data/setA/clean] and [data/setA/noisy] and no directory named
    [data/set[A]], discovery returns a pair for [b.png]: the pattern
    [data/set[A]/clean/*.png] matches the file of the other directory.  No
    file of that name lies under the root, and generating the pair fails at
    the copy of its noisy image. *)
Theorem search_image_triplets_glob_pattern :
  @search_image_triplets bracket_world "data/set[A]"
  = ([EGlob "data/set[A]/clean/*.png"; EGlob "data/set[A]/noisy/*.png"],
     Ok [Triplet "set[A]" "data/set[A]/clean" "data/set[A]/noisy" "b.png"])
  /\ @glob bracket_world "data/set[A]/clean/*.png" = ["data/setA/clean/b.png"]
  /\ @glob bracket_world "data/set[A]/noisy/*.png" = ["data/setA/noisy/b.png"]
  /\ @readable bracket_world "data/set[A]/clean/b.png" = false
  /\ @readable bracket_world "data/set[A]/noisy/b.png" = false
  /\ @gen_defects bracket_world
       [Triplet "set[A]" "data/set[A]/clean" "data/set[A]/noisy" "b.png"]
       "output" "leftImg8bit/defect/train" "gtFine/defect/train"
     = ([EMkdir "output/leftImg8bit/defect/train"; EMkdir "output/gtFine/defect/train";
         EImread "data/set[A]/clean/b.png"; EImread "data/set[A]/noisy/b.png"],
        Raise OSError).
Proof. repeat split; vm_compute; reflexivity. Qed.

(** The example of the design document: clean = {a.png, b.png} and
    noisy = {b.png, c.png} give one pair, for [b.png]. *)
Example search_image_triplets_demo :
  @search_image_triplets demo_world "data/setA"
  = ([EGlob "data/setA/clean/*.png"; EGlob "data/setA/noisy/*.png"],
     Ok [Triplet "setA" "data/setA/clean" "data/setA/noisy" "b.png"]).
Proof. vm_compute. reflexivity. Qed.

(** C5, on the code: the collection identifier is the second component of
    [os.path.split], which is empty for a root written with a trailing
    separator, whereas the folder name of [data/setA/] is [setA]. *)
Theorem collection_id_trailing_separator :
  @search_image_triplets demo_world "data/setA/"
  = ([EGlob "data/setA/clean/*.png"; EGlob "data/setA/noisy/*.png"],
     Ok [Triplet "" "data/setA/clean" "data/setA/noisy" "b.png"])
  /\ root_name "data/setA/" = "setA"
  /\ (forall (w : World) ts,
        outcome (@search_image_triplets w "data/setA/") = Ok ts ->
        Forall (fun t => collection_id t = "") ts).
Proof.
  split; [vm_compute; reflexivity|]. split; [reflexivity|].
  intros w ts. rewrite search_image_triplets_run. cbn [outcome snd].
  intros [= <-]. apply Forall_forall.
  intros t (n & -> & _)%list_elem_of_fmap. reflexivity.
Qed.

(** Without the trailing separator the identifier is the folder name. *)
Lemma collection_id_is_split_tail `{World} (imgs_root : string) ts :
  outcome (search_image_triplets imgs_root) = Ok ts ->
  Forall (fun t => collection_id t = snd (PosixPath.split imgs_root)) ts.
Proof.
  rewrite search_image_triplets_run. cbn [outcome snd].
  intros [= <-]. apply Forall_forall.
  intros t (n & -> & _)%list_elem_of_fmap. reflexivity.
Qed.

Section Determinism.
Context (w : World) (g : string -> list string) (order : gset string -> list string).
Context (order_elements : forall s, order s ≡ₚ elements s).
Hypothesis same_files : forall pattern x, x ∈ g pattern <-> x ∈ @glob w pattern.

Lemma image_names_with_listing imgs_dir :
  (list_to_set (@image_names (with_listing g order order_elements w) imgs_dir)
     : gset string)
  = list_to_set (@image_names w imgs_dir).
Proof.
  apply set_eq. intros n. rewrite !elem_of_list_to_set.
  unfold image_names. rewrite !list_elem_of_fmap.
  cbn [glob with_listing]. by setoid_rewrite same_files.
Qed.

Lemma joined_names_with_listing imgs_root :
  @joined_names (with_listing g order order_elements w) imgs_root
  = @joined_names w imgs_root.
Proof.
  unfold joined_names. rewrite !image_names_with_listing.
  apply sorted_Permutation. cbn [set_iter with_listing].
  by rewrite order_elements, (@set_iter_elements w).
Qed.

Lemma search_image_triplets_with_listing imgs_root :
  @search_image_triplets (with_listing g order order_elements w) imgs_root
  = @search_image_triplets w imgs_root.
Proof. by rewrite !search_image_triplets_run, joined_names_with_listing. Qed.

Lemma for_each_ext {X Y} (f1 f2 : X -> M Y) (l : list X) :
  (forall x, f1 x = f2 x) -> for_each f1 l = for_each f2 l.
Proof.
  intros Hf. induction l as [|x l IH]; [done|].
  cbn [for_each]. by rewrite Hf, IH.
Qed.

Lemma main_dataset_with_listing args :
  @main_dataset (with_listing g order order_elements w) args = @main_dataset w args.
Proof.
  unfold main_dataset.
  by rewrite (for_each_ext _ _ _ search_image_triplets_with_listing).
Qed.

Lemma main_with_listing args :
  @main (with_listing g order order_elements w) args = @main w args.
Proof.
  unfold main.
  by rewrite (for_each_ext _ _ _ search_image_triplets_with_listing).
Qed.
End Determinism.

(** C4. Deterministic partition: two runs with the same arguments (seed,
    roots, ratios, cap, output) on the same files are two worlds that
    differ at most in what a run does not control: the order in which the
    file system lists the files, and the order in which Python iterates
    the set of common names.  Both runs compute the same split assignment
    and perform the same calls with the same results, so that they write
    the same manifests with the same contents. *)
Theorem main_deterministic (w : World) (g : string -> list string)
    (order : gset string -> list string)
    (order_elements : forall s, order s ≡ₚ elements s) (args : Args) :
  (forall pattern x, x ∈ g pattern <-> x ∈ @glob w pattern) ->
  @main_dataset (with_listing g order order_elements w) args = @main_dataset w args
  /\ @main (with_listing g order order_elements w) args = @main w args
  /\ manifests (trace (@main (with_listing g order order_elements w) args))
     = manifests (trace (@main w args)).
Proof.
  intros Hsame.
  pose proof (main_with_listing w g order order_elements Hsame args) as Hmain.
  split; [by apply main_dataset_with_listing|]. split; [done|]. by rewrite Hmain.
Qed.

(** Two runs over the roots [data/setA] and [data/setB] of [lab_world], in
    which every listing and every set comes out in the opposite order. *)
Lemma main_deterministic_witness :
  @main_dataset (with_listing (fun p => reverse (lab_glob p))
                   (fun s => reverse (elements s)) lab_order_elements lab_world) lab_args
  = @main_dataset lab_world lab_args
  /\ @main (with_listing (fun p => reverse (lab_glob p))
              (fun s => reverse (elements s)) lab_order_elements lab_world) lab_args
     = @main lab_world lab_args
  /\ manifests (trace (@main (with_listing (fun p => reverse (lab_glob p))
                                (fun s => reverse (elements s)) lab_order_elements
                                lab_world) lab_args))
     = manifests (trace (@main lab_world lab_args)).
Proof.
  apply (main_deterministic lab_world (fun p => reverse (lab_glob p))
           (fun s => reverse (elements s)) lab_order_elements lab_args).
  intros pattern x. exact (elem_of_reverse x (lab_glob pattern)).
Defined.

(** The two runs do differ before the names are sorted: the listing of
    [data/setA/clean] and the iteration of the set of its names come out
    in different orders; and the run is not a trivial one: it partitions
    four pairs. *)
Example lab_runs_differ :
  @glob lab_world "data/setA/clean/*.png" <> reverse (@glob lab_world "data/setA/clean/*.png")
  /\ @set_iter lab_world (list_to_set ["b.png"; "c.png"; "d.png"])
     <> reverse (elements (list_to_set ["b.png"; "c.png"; "d.png"] : gset string))
  /\ outcome (@main_dataset lab_world lab_args)
     = Ok [("train", [Triplet "setB" "data/setB/clean" "data/setB/noisy" "y.png";
                      Triplet "setB" "data/setB/clean" "data/setB/noisy" "x.png"]);
           ("val", []);
           ("test", [Triplet "setA" "data/setA/clean" "data/setA/noisy" "d.png";
                     Triplet "setA" "data/setA/clean" "data/setA/noisy" "c.png"])].
Proof. repeat split; vm_compute; try discriminate; reflexivity. Qed.

(** ** Generation, manifests and the orchestrator *)

Section Lines.







End Lines.

Section Images.
Lemma zeros_like_shape (img : image) : img_shape (zeros_like img) = img_shape img.
Proof.
  unfold img_shape, zeros_like. rewrite map_map.
  apply map_ext. intros row. rewrite map_map.
  apply map_ext. intros px. apply length_map.
Qed.

Lemma zeros_like_background (img : image) :
  Forall (Forall (Forall (fun v => v = 0))) (zeros_like img).
Proof.
  unfold zeros_like.
  apply Forall_fmap, Forall_true. intros row.
  apply Forall_fmap, Forall_true. intros px.
  apply Forall_fmap, Forall_true. done.
Qed.
End Images.

Section Processed.
Context `{World}.

(** The run of the loop body on a pair that is processed. *)
Lemma gen_defect_processed output_root output_imgs_dir output_labels_dir t
    img_clean img_noisy contours :
  processed t img_clean img_noisy contours ->
  gen_defect output_root output_imgs_dir output_labels_dir t
  = ([EImread (PosixPath.join (clean_dir t) [img_name t]);
      EImread (PosixPath.join (noisy_dir t) [img_name t]);
      ECopyfile (PosixPath.join (noisy_dir t) [img_name t])
        (PosixPath.join output_root [raw_img_path output_imgs_dir t]);
      ESaveJson (PosixPath.join output_root [label_dict_path output_labels_dir t])
        {| imgHeight := img_height img_clean;
           imgWidth := img_width img_clean;
           objects := map (LabelObject LABEL_NAME) contours |};
      EImwrite (PosixPath.join output_root [label_img_path output_labels_dir t])
        (drawContours (zeros_like img_noisy) contours (-1)
           (LABEL_ID, LABEL_ID, LABEL_ID) (-1))],
     Ok (raw_img_path output_imgs_dir t, label_img_path output_labels_dir t)).
Proof.
  intros (Hclean & Hnoisy & Hdet). unfold gen_defect, copyfile.
  rewrite Hclean, Hnoisy, Hdet, (imread_readable _ _ Hnoisy). reflexivity.
Qed.
End Processed.

(** C6. No-defect case: when drawing no contour leaves the canvas as it is,
    and the detector returns no contour for a pair whose images are read,
    [gen_defects] writes for that pair a polygon document whose object list
    is empty and a label mask that has the shape of the noisy image and is
    zero everywhere. *)
Theorem gen_defect_no_defect `{World} (output_root output_imgs_dir output_labels_dir : string)
    (t : img_triplet) (img_clean img_noisy : image) :
  draws_nothing_on_nil ->
  imread (PosixPath.join (clean_dir t) [img_name t]) = Some img_clean ->
  imread (PosixPath.join (noisy_dir t) [img_name t]) = Some img_noisy ->
  find_defects (Some img_clean) (Some img_noisy) = Ok [] ->
  exists label_img,
    gen_defects [t] output_root output_imgs_dir output_labels_dir
    = ([EMkdir (PosixPath.join output_root [output_imgs_dir]);
        EMkdir (PosixPath.join output_root [output_labels_dir]);
        EImread (PosixPath.join (clean_dir t) [img_name t]);
        EImread (PosixPath.join (noisy_dir t) [img_name t]);
        ECopyfile (PosixPath.join (noisy_dir t) [img_name t])
          (PosixPath.join output_root [raw_img_path output_imgs_dir t]);
        ESaveJson (PosixPath.join output_root [label_dict_path output_labels_dir t])
          {| imgHeight := img_height img_clean;
             imgWidth := img_width img_clean;
             objects := [] |};
        EImwrite (PosixPath.join output_root [label_img_path output_labels_dir t])
          label_img],
       Ok [(raw_img_path output_imgs_dir t, label_img_path output_labels_dir t)])
    /\ label_img = zeros_like img_noisy
    /\ img_shape label_img = img_shape img_noisy
    /\ Forall (Forall (Forall (fun v => v = 0))) label_img.
Proof.
  intros Hdraw Hclean Hnoisy Hnone.
  exists (zeros_like img_noisy). split.
  - unfold gen_defects. cbn [for_each].
    rewrite (gen_defect_processed _ _ _ t img_clean img_noisy []) by done.
    rewrite Hdraw. reflexivity.
  - split; [done|]. split; [apply zeros_like_shape | apply zeros_like_background].
Qed.

Lemma gen_defect_no_defect_witness :
  @draws_nothing_on_nil demo_world
  /\ exists label_img,
    @gen_defects demo_world
      [Triplet "setA" "data/setA/clean" "data/setA/noisy" "b.png"]
      "output" "leftImg8bit/defect/val" "gtFine/defect/val"
    = ([EMkdir "output/leftImg8bit/defect/val";
        EMkdir "output/gtFine/defect/val";
        EImread "data/setA/clean/b.png";
        EImread "data/setA/noisy/b.png";
        ECopyfile "data/setA/noisy/b.png"
          "output/leftImg8bit/defect/val/setA_b_leftImg8bit.png";
        ESaveJson "output/gtFine/defect/val/setA_b_polygons.json"
          {| imgHeight := 1; imgWidth := 2; objects := [] |};
        EImwrite "output/gtFine/defect/val/setA_b_labelIds.png" label_img],
       Ok [("leftImg8bit/defect/val/setA_b_leftImg8bit.png",
            "gtFine/defect/val/setA_b_labelIds.png")])
    /\ label_img = zeros_like [[[7; 7; 7]; [7; 7; 7]]]
    /\ img_shape label_img = img_shape [[[7; 7; 7]; [7; 7; 7]]]
    /\ Forall (Forall (Forall (fun v => v = 0))) label_img.
Proof.
  split; [intros canvas idx color thickness; reflexivity|].
  apply (@gen_defect_no_defect demo_world "output" "leftImg8bit/defect/val"
           "gtFine/defect/val"
           (Triplet "setA" "data/setA/clean" "data/setA/noisy" "b.png")
           [[[7; 7; 7]; [7; 7; 7]]] [[[7; 7; 7]; [7; 7; 7]]]).
  - intros canvas idx color thickness. reflexivity.
  - reflexivity.
  - reflexivity.
  - reflexivity.
Defined.

(** C10. Artifact naming is not injective: the pairs (a, b_c.png) and
    (a_b, c.png) differ in collection and in file name, yet they have the
    same identifier [a_b_c] and hence, in any split, the same three paths;
    generated in one split, where both are processed, the second pair
    writes its raw image, polygon document and label mask over those of the
    first, and the manifest lists the same path pair twice. *)
Theorem artifact_names_collide `{World} :
  collection_id pair_a <> collection_id pair_a_b
  /\ img_name pair_a <> img_name pair_a_b
  /\ img_id pair_a = "a_b_c" /\ img_id pair_a_b = "a_b_c"
  /\ (forall imgs labels,
        raw_img_path imgs pair_a = raw_img_path imgs pair_a_b
        /\ label_dict_path labels pair_a = label_dict_path labels pair_a_b
        /\ label_img_path labels pair_a = label_img_path labels pair_a_b)
  /\ forall clean_a noisy_a contours_a clean noisy contours,
       processed pair_a clean_a noisy_a contours_a ->
       processed pair_a_b clean noisy contours ->
       let run := gen_defects [pair_a; pair_a_b] "output"
                    "leftImg8bit/defect/train" "gtFine/defect/train" in
       ECopyfile "x/a/noisy/b_c.png" "output/leftImg8bit/defect/train/a_b_c_leftImg8bit.png"
         ∈ trace run
       /\ outcome run
       = Ok [("leftImg8bit/defect/train/a_b_c_leftImg8bit.png",
              "gtFine/defect/train/a_b_c_labelIds.png");
             ("leftImg8bit/defect/train/a_b_c_leftImg8bit.png",
              "gtFine/defect/train/a_b_c_labelIds.png")]
       /\ files_written (trace run) !! "output/leftImg8bit/defect/train/a_b_c_leftImg8bit.png"
          = Some (CopyOf "x/a_b/noisy/c.png")
       /\ files_written (trace run) !! "output/gtFine/defect/train/a_b_c_polygons.json"
          = Some (JsonDoc {| imgHeight := img_height clean;
                             imgWidth := img_width clean;
                             objects := map (LabelObject LABEL_NAME) contours |})
       /\ files_written (trace run) !! "output/gtFine/defect/train/a_b_c_labelIds.png"
          = Some (ImageData (drawContours (zeros_like noisy) contours (-1)
                               (LABEL_ID, LABEL_ID, LABEL_ID) (-1))).
Proof.
  split; [done|]. split; [done|]. split; [reflexivity|]. split; [reflexivity|].
  split; [intros imgs labels; repeat split; reflexivity|].
  intros clean_a noisy_a contours_a clean noisy contours Ha Hb. cbv zeta.
  unfold gen_defects. cbn [for_each].
  rewrite (gen_defect_processed _ _ _ pair_a clean_a noisy_a contours_a Ha).
  rewrite (gen_defect_processed _ _ _ pair_a_b clean noisy contours Hb).
  split; [apply list_elem_of_lookup; by exists 4%nat|].
  split; [reflexivity|].
  unfold files_written. repeat split; reflexivity.
Qed.

(** Both pairs are processed in the world of the examples, where every
    file decodes to the same image and the detector finds nothing. *)
Lemma artifact_names_collide_witness :
  let run := @gen_defects demo_world [pair_a; pair_a_b] "output"
               "leftImg8bit/defect/train" "gtFine/defect/train" in
  outcome run
  = Ok [("leftImg8bit/defect/train/a_b_c_leftImg8bit.png",
         "gtFine/defect/train/a_b_c_labelIds.png");
        ("leftImg8bit/defect/train/a_b_c_leftImg8bit.png",
         "gtFine/defect/train/a_b_c_labelIds.png")]
  /\ files_written (trace run) !! "output/leftImg8bit/defect/train/a_b_c_leftImg8bit.png"
     = Some (CopyOf "x/a_b/noisy/c.png").
Proof.
  destruct (@artifact_names_collide demo_world) as (_ & _ & _ & _ & _ & Hrun).
  destruct (Hrun [[[7; 7; 7]; [7; 7; 7]]] [[[7; 7; 7]; [7; 7; 7]]] []
              [[[7; 7; 7]; [7; 7; 7]]] [[[7; 7; 7]; [7; 7; 7]]] [])
    as (_ & Hout & Hcopy & _); [repeat split..|].
  split; [exact Hout | exact Hcopy].
Defined.

Section MainFacts.
Context `{World}.

Lemma discovery_run (roots : list string) :
  for_each search_image_triplets roots
  = (discovery_trace roots,
     Ok (map (fun root =>
           map (Triplet (snd (PosixPath.split root))
                  (PosixPath.join root ["clean"]) (PosixPath.join root ["noisy"]))
             (joined_names root)) roots)).
Proof.
  induction roots as [|root roots IH]; [done|].
  cbn [for_each]. rewrite IH, search_image_triplets_run.
  unfold mbind, M_bind, mret, M_ret. by rewrite app_nil_r.
Qed.

Lemma for_each_ok {X Y} (f : X -> M Y) (l : list X) :
  (forall x, exists y, outcome (f x) = Ok y) ->
  exists ys, outcome (for_each f l) = Ok ys.
Proof.
  intros Hf. induction l as [|x l [ys IH]]; [by eexists|].
  cbn [for_each]. destruct (Hf x) as [y Hy].
  destruct (f x) as [t1 r1]. cbn in Hy. subst r1.
  destruct (for_each f l) as [t2 r2]. cbn in IH. subst r2.
  by eexists.
Qed.

(** [main] is discovery, then the partitioner, then generation. *)
Lemma main_run (args : Args) :
  main args
  = match split_dataset (main_pool args) SPLITS (split_ratios_of args) with
    | Ok dataset =>
        let generation :=
          gen_dataset dataset (output args);;
          emit (EPrint ("Results saved in " +:+ output args)) in
        (discovery_trace (imgs_dirs args) ++ trace generation, outcome generation)
    | Raise e => (discovery_trace (imgs_dirs args), Raise e)
    end.
Proof.
  unfold main, main_pool. rewrite discovery_run.
  unfold mbind at 1 2. unfold M_bind at 1 2. unfold lift. cbv beta iota zeta.
  destruct (split_dataset _ SPLITS (split_ratios_of args)) as [dataset|e].
  - by destruct (gen_dataset dataset (output args);; emit _) as [t r].
  - by rewrite app_nil_r.
Qed.
End MainFacts.

(** C3, as stated, fails: with [--val 0.6 --test 0.6] (val + test >= 1)
    the run is not rejected; it lists the directories of the root and goes
    on. *)
Lemma ratio_validation_counterexample :
  ~ (forall (w : World) (args : Args),
       invalid_ratios args = true -> @rejected_before_processing w args).
Proof.
  intros Hclaim.
  destruct (Hclaim demo_world bad_args eq_refl) as [Htrace _].
  vm_compute in Htrace. discriminate.
Qed.

(** C3, amended: the ratios are not validated.  [parse_args] takes any
    float for [--val] and [--test]; for every argument tuple [main] first
    performs pair discovery for every root, then hands the pool and the
    ratios [(1.0 - val - test, val, test)] to the partitioner; when the
    partitioner returns, the rest of the run is the generation of the data
    set it returned; when the partitioner raises, the run stops with its
    exception after pair discovery, before any file is written.  No run
    with a root is rejected before processing. *)
Theorem main_without_validation `{World} (args : Args) :
  (forall roots v t l s o, roots <> [] ->
     exists a, parse_args roots (Some v) (Some t) l s o = Some a
               /\ val a = v /\ test a = t)
  /\ match split_dataset (main_pool args) SPLITS (split_ratios_of args) with
     | Ok dataset =>
         let generation :=
           gen_dataset dataset (output args);;
           emit (EPrint ("Results saved in " +:+ output args)) in
         trace (main args) = discovery_trace (imgs_dirs args) ++ trace generation
         /\ outcome (main args) = outcome generation
     | Raise e =>
         trace (main args) = discovery_trace (imgs_dirs args)
         /\ outcome (main args) = Raise e
     end
  /\ (imgs_dirs args <> [] -> ~ rejected_before_processing args).
Proof.
  split; [|split].
  - intros [|root roots] v t l s o Hne; [done|]. by eexists.
  - rewrite main_run.
    by destruct (split_dataset _ SPLITS (split_ratios_of args)) as [dataset|e].
  - intros Hroots [Htrace _]. rewrite main_run in Htrace.
    destruct (imgs_dirs args) as [|root roots]; [done|].
    by destruct (split_dataset _ SPLITS (split_ratios_of args)).
Qed.

(** * Further properties of the script *)

(** ** The partitioner on every input *)

Section DictMore.
Context {V : Type}.
Implicit Types d : dict V.

Lemma dict_set_keys d k v :
  (dict_set d k v).*1 = if bool_decide (k ∈ d.*1) then d.*1 else d.*1 ++ [k].
Proof.
  induction d as [|[k' v'] d IH]; cbn [dict_set fmap list_fmap fst].
  - rewrite bool_decide_eq_false_2; [done | apply not_elem_of_nil].
  - destruct (String.eqb_spec k' k) as [->|Hne].
    + rewrite bool_decide_eq_true_2; [done | left].
    + cbn [fmap list_fmap fst]. fold (fmap (M:=list) (@fst string V)).
      rewrite IH. destruct (bool_decide_reflect (k ∈ d.*1)) as [Hin|Hnin].
      * rewrite bool_decide_eq_true_2; [done | by right].
      * rewrite bool_decide_eq_false_2; [done|].
        intros [?|?]%elem_of_cons; congruence.
Qed.

Lemma dict_set_keys_present d k v : k ∈ d.*1 -> (dict_set d k v).*1 = d.*1.
Proof. intros Hk. rewrite dict_set_keys. by rewrite bool_decide_eq_true_2. Qed.

Lemma dict_set_keys_incl d k v k' : k' ∈ d.*1 -> k' ∈ (dict_set d k v).*1.
Proof.
  intros Hk'. rewrite dict_set_keys. destruct (bool_decide _); [done|].
  apply elem_of_app. by left.
Qed.

Lemma dict_get_present d k : k ∈ d.*1 -> exists v, dict_get d k = Ok v.
Proof.
  induction d as [|[k' v'] d IH]; cbn [dict_get fmap list_fmap fst].
  - intros []%elem_of_nil.
  - intros Hk. destruct (String.eqb_spec k' k) as [->|Hne]; [by eexists|].
    apply IH. apply elem_of_cons in Hk as [?|?]; [congruence | done].
Qed.

Lemma dict_comprehension_keys (keys : list string) (v : V) :
  forall d k, k ∈ d.*1 \/ k ∈ keys ->
    k ∈ (fold_left (fun d s => dict_set d s v) keys d).*1.
Proof.
  induction keys as [|s keys IH]; intros d k [Hk|Hk]; cbn [fold_left].
  - done.
  - by apply elem_of_nil in Hk.
  - apply IH. left. by apply dict_set_keys_incl.
  - apply IH. apply elem_of_cons in Hk as [->|Hk]; [left | by right].
    rewrite dict_set_keys. destruct (bool_decide_reflect (s ∈ d.*1)); [done|].
    apply elem_of_app. right. left.
Qed.
End DictMore.

Section Outcome.
Context {A : Type}.
Implicit Types pool : list A.

Lemma append_triplets_ok pool split idxs :
  forall d : dict (list A),
    split ∈ d.*1 -> Forall (fun i => (i < length pool)%nat) idxs ->
    exists d', append_triplets pool split idxs d = Ok d' /\ d'.*1 = d.*1.
Proof.
  induction idxs as [|i idxs IH]; intros d Hk Hidx; [by eexists|].
  inversion Hidx as [|? ? Hi Hrest]; subst.
  cbn [append_triplets].
  destruct (dict_get_present d split Hk) as [cur ->].
  destruct (lookup_lt_is_Some_2 pool i Hi) as [x Hx].
  rewrite (getitem_lookup _ _ _ Hx). cbn [mbind result_bind].
  destruct (IH (dict_set d split (cur ++ [x]))) as (d' & Hd' & Hkeys).
  - by apply dict_set_keys_incl.
  - done.
  - exists d'. split; [done|]. rewrite Hkeys. by apply dict_set_keys_present.
Qed.

Lemma slice_seq_range n i j :
  Forall (fun x => (x < n)%nat) (PySeq.slice (seq 0 n) i j).
Proof.
  apply Forall_forall. intros x Hx. unfold PySeq.slice in Hx.
  apply elem_of_take in Hx as (k & Hk & _).
  rewrite lookup_drop in Hk. apply lookup_seq in Hk as [-> ?]. lia.
Qed.

Lemma int_of_mul_raises n r e :
  PyFloat.int_of_mul n r = Raise e -> e = OverflowError \/ e = ValueError.
Proof.
  unfold PyFloat.int_of_mul, PyFloat.int_mul, PyFloat.of_int.
  destruct (binary_normalize _ _ n 0 false); cbn [mbind result_bind];
    try (intros [= <-]; by left);
    destruct (PyFloat.mul _ r); cbn; intros [= <-]; auto.
Qed.

Lemma zip_snd_take {X Y} (l : list X) (k : list Y) :
  (zip l k).*2 = take (length l) k.
Proof.
  revert k. induction l as [|x l IH]; intros [|y k]; cbn; try done.
  f_equal. apply IH.
Qed.

Lemma split_loop_outcome pool n :
  forall pairs idx start (d : dict (list A)),
    Forall (fun p => p.1 ∈ d.*1) pairs ->
    match split_loop pool (seq 0 (length pool)) n idx pairs start d with
    | Ok d' =>
        d'.*1 = d.*1
        /\ Forall (fun r => is_ok (PyFloat.int_of_mul (Z.of_nat (length pool)) r) = true) pairs.*2
    | Raise e =>
        Exists (fun r => PyFloat.int_of_mul (Z.of_nat (length pool)) r = Raise e) pairs.*2
    end.
Proof.
  induction pairs as [|[split r] pairs IH]; intros idx start d Hkeys.
  - cbn. split; [done | constructor].
  - inversion Hkeys as [|? ? Hk Hrest]; subst. cbn [fst] in Hk.
    cbn [split_loop fmap list_fmap snd]. rewrite length_seq.
    destruct (PyFloat.int_of_mul (Z.of_nat (length pool)) r) as [k|e] eqn:Hr;
      cbn [mbind result_bind]; [|by left].
    set (idxs := if idx =? n - 1 then _ else _).
    destruct (append_triplets_ok pool split idxs d Hk) as (d' & Hd' & Hkeys').
    { subst idxs. destruct (idx =? n - 1); apply slice_seq_range. }
    rewrite Hd'. cbn [mbind result_bind].
    specialize (IH (idx + 1) (start + k) d').
    rewrite Hkeys' in IH. specialize (IH Hrest).
    destruct (split_loop _ _ _ _ pairs _ d') as [d''|e].
    + destruct IH as [-> Hall]. split; [done|]. constructor; [by rewrite Hr | done].
    + by right.
Qed.
End Outcome.

(** X1. When and how the partitioner fails: [split_dataset] returns exactly
    when [int(N * ratio)] can be computed for each of the ratios it pairs
    with a split; when it fails, the exception is the OverflowError or
    ValueError of one of these conversions: never an IndexError or a
    KeyError, whatever the split names, the ratios and the pool. *)
Theorem split_dataset_outcome {A} (pool : list A) (splits : list string)
    (ratios : list PyFloat.float) :
  match split_dataset pool splits ratios with
  | Ok ds =>
      Forall (fun r => is_ok (PyFloat.int_of_mul (Z.of_nat (length pool)) r) = true)
        (take (length splits) ratios)
  | Raise e =>
      (e = OverflowError \/ e = ValueError)
      /\ Exists (fun r => PyFloat.int_of_mul (Z.of_nat (length pool)) r = Raise e)
           (take (length splits) ratios)
  end.
Proof.
  unfold split_dataset.
  pose proof (split_loop_outcome pool (Z.of_nat (length splits))
                (zip splits ratios) 0 0
                (fold_left (fun d s => dict_set d s []) splits [])) as H.
  rewrite zip_snd_take in H.
  destruct (split_loop _ _ _ _ _ _ _) as [ds|e].
  - apply H. apply Forall_forall. intros [s r] Hin. cbn [fst].
    apply dict_comprehension_keys. right. by apply elem_of_zip_l in Hin.
  - assert (Hex : Exists (fun r => PyFloat.int_of_mul (Z.of_nat (length pool)) r = Raise e)
                    (take (length splits) ratios)).
    { apply H. apply Forall_forall. intros [s r] Hin. cbn [fst].
      apply dict_comprehension_keys. right. by apply elem_of_zip_l in Hin. }
    split; [|done].
    apply Exists_exists in Hex as (r & _ & Hr). by apply int_of_mul_raises in Hr.
Qed.

Section Naturality.
Context {A B : Type} (f : A -> B).
Implicit Types pool : list A.

Lemma dict_get_map (d : dict (list A)) k :
  dict_get (dict_map (fmap (M:=list) f) d) k = fmap (M:=list) f <$> dict_get d k.
Proof.
  induction d as [|[k' v] d IH]; [done|]. cbn [dict_map map dict_get fst snd].
  destruct (String.eqb k' k); [done | apply IH].
Qed.

Lemma dict_set_map (d : dict (list A)) k v :
  dict_set (dict_map (fmap (M:=list) f) d) k (f <$> v) = dict_map (fmap (M:=list) f) (dict_set d k v).
Proof.
  induction d as [|[k' v'] d IH]; [done|]. cbn [dict_map map dict_set fst snd].
  destruct (String.eqb k' k); [done|]. cbn [map fst snd]. f_equal. apply IH.
Qed.

Lemma getitem_map pool i :
  PySeq.getitem (f <$> pool) i = f <$> PySeq.getitem pool i.
Proof. unfold PySeq.getitem. rewrite list_lookup_fmap. by destruct (pool !! i). Qed.

Lemma append_triplets_map pool split idxs :
  forall d : dict (list A),
    append_triplets (f <$> pool) split idxs (dict_map (fmap (M:=list) f) d)
    = dict_map (fmap (M:=list) f) <$> append_triplets pool split idxs d.
Proof.
  induction idxs as [|i idxs IH]; intros d; [done|].
  cbn [append_triplets]. rewrite dict_get_map, getitem_map.
  destruct (dict_get d split) as [cur|e]; [|done].
  destruct (PySeq.getitem pool i) as [x|e]; [|done].
  cbn [fmap result_fmap mbind result_bind].
  rewrite <- IH. f_equal.
  rewrite <- dict_set_map. f_equal. by rewrite fmap_app.
Qed.

Lemma split_loop_map pool n :
  forall pairs idx start (d : dict (list A)),
    split_loop (f <$> pool) (seq 0 (length pool)) n idx pairs start (dict_map (fmap (M:=list) f) d)
    = dict_map (fmap (M:=list) f) <$> split_loop pool (seq 0 (length pool)) n idx pairs start d.
Proof.
  induction pairs as [|[split r] pairs IH]; intros idx start d; [done|].
  cbn [split_loop].
  destruct (PyFloat.int_of_mul _ r) as [k|e]; [|done]. cbn [mbind result_bind].
  rewrite append_triplets_map.
  destruct (append_triplets pool split _ d) as [d'|e]; [|done].
  cbn [fmap result_fmap mbind result_bind]. apply IH.
Qed.
End Naturality.

(** X2. The partition looks at positions only: mapping a function over
    the pool and then partitioning gives the partition of the pool with the
    function mapped over every split, for all split names and ratios, the
    failing ones included.  In particular two pools of the same length are
    cut at the same places. *)
Theorem split_dataset_natural {A B} (f : A -> B) (pool : list A)
    (splits : list string) (ratios : list PyFloat.float) :
  split_dataset (f <$> pool) splits ratios
  = dict_map (fmap (M:=list) f) <$> split_dataset pool splits ratios.
Proof.
  unfold split_dataset. rewrite length_fmap.
  rewrite <- split_loop_map. f_equal.
  change (@nil (string * list B)) with (dict_map (fmap (M:=list) f) []).
  generalize (@nil (string * list A)).
  induction splits as [|s splits IH]; intros d; [done|].
  cbn [fold_left]. rewrite <- IH. f_equal.
  by rewrite <- (dict_set_map f d s []).
Qed.

Section Truncation.
Context {A : Type}.
Implicit Types pool : list A.

Lemma zip_app_short {X Y} (l1 l2 : list X) (k : list Y) :
  length l1 = length k -> zip (l1 ++ l2) k = zip l1 k.
Proof.
  revert k. induction l1 as [|x l1 IH]; intros [|y k] Hlen; try done.
  - by destruct l2.
  - cbn. f_equal. apply IH. by injection Hlen.
Qed.

Lemma zip_take_r {X Y} (l : list X) (k : list Y) :
  zip l k = zip l (take (length l) k).
Proof.
  revert k. induction l as [|x l IH]; intros [|y k]; try done.
  cbn. f_equal. apply IH.
Qed.

Lemma split_loop_short pool n :
  forall splits ratios lens (done : dict (list A)) rest idx start,
    length splits = length ratios ->
    split_lens (length pool) ratios lens ->
    NoDup (done.*1 ++ splits ++ rest) ->
    idx + Z.of_nat (length splits) < n ->
    split_loop pool (seq 0 (length pool)) n idx (zip splits ratios) start
      (done ++ map (fun s => (s, [])) (splits ++ rest))
    = Ok (done ++ zip splits (cut_slices pool start lens)
            ++ map (fun s => (s, [])) rest).
Proof.
  induction splits as [|s splits IH];
    intros ratios lens done rest idx start Hlen Hlens Hnd Hidx.
  - destruct ratios; [|done]. inversion Hlens; subst. done.
  - destruct ratios as [|r rs]; [done|].
    inversion Hlens as [|? k ? ks Hk Hks]; subst.
    injection Hlen as Hlen.
    assert (Hs : s ∉ done.*1).
    { apply NoDup_app in Hnd as (_ & Hdis & _).
      intros Hin. apply (Hdis s Hin). by left. }
    cbn [zip zip_with split_loop map app]. rewrite length_seq, Hk.
    cbn [mbind result_bind].
    replace (idx =? n - 1) with false
      by (symmetry; apply Z.eqb_neq; cbn [length] in Hidx; lia).
    change ((s, []) :: map (fun s0 => (s0, [])) (splits ++ rest))
      with ((s, @nil A) :: map (fun s0 => (s0, [])) (splits ++ rest)).
    rewrite append_triplets_slice by done. cbn [mbind result_bind app].
    specialize (IH rs ks (done ++ [(s, PySeq.slice pool (Some start) (Some (start + k)))])
                  rest (idx + 1) (start + k)).
    rewrite <- !app_assoc in IH. cbn [app] in IH.
    rewrite IH; [done | done | done | | cbn [length] in Hidx; lia].
    rewrite fmap_app. cbn. rewrite <- app_assoc. done.
Qed.
End Truncation.

Section TruncationClaims.
Context {A : Type}.
Implicit Types pool : list A.

Lemma slice_tile_closed pool a b c :
  0 <= a -> 0 <= b -> 0 <= c ->
  PySeq.slice pool (Some a) (Some (a + b))
    ++ PySeq.slice pool (Some (a + b)) (Some (a + b + c))
  = PySeq.slice pool (Some a) (Some (a + (b + c))).
Proof.
  intros Ha Hb Hc. rewrite !slice_between_nonneg by lia.
  rewrite (Z2Nat.inj_add a b), <- drop_drop by lia.
  rewrite take_take_drop. f_equal. lia.
Qed.

Lemma concat_cut_slices pool lens :
  forall start,
    0 <= start -> Forall (fun k => 0 <= k) lens ->
    concat (cut_slices pool start lens)
    = PySeq.slice pool (Some start) (Some (start + foldr Z.add 0 lens)).
Proof.
  induction lens as [|k ks IH]; intros start Hs Hpos.
  - cbn. rewrite slice_between_nonneg by lia. done.
  - inversion Hpos as [|? ? Hk Hks]; subst.
    cbn [cut_slices concat foldr]. rewrite IH by (done || lia).
    assert (0 <= foldr Z.add 0 ks).
    { clear -Hks. induction Hks; cbn; lia. }
    by apply slice_tile_closed.
Qed.

Lemma length_cut_slices pool lens start :
  length (cut_slices pool start lens) = length lens.
Proof. revert start. induction lens as [|k ks IH]; intros start; cbn; auto. Qed.
End TruncationClaims.

Section TruncationSizes.
Context {A : Type}.
Implicit Types pool : list A.

(** Cuts that stay inside the pool have the lengths asked for. *)
Lemma cut_slices_sizes pool lens :
  forall start,
    0 <= start -> Forall (fun k => 0 <= k) lens ->
    start + foldr Z.add 0 lens <= Z.of_nat (length pool) ->
    map (fun seg => Z.of_nat (length seg)) (cut_slices pool start lens) = lens.
Proof.
  induction lens as [|k ks IH]; intros start Hs Hpos Hsum; [done|].
  inversion Hpos as [|? ? Hk Hks]; subst. cbn [foldr] in Hsum.
  assert (0 <= foldr Z.add 0 ks) by (clear -Hks; induction Hks; cbn; lia).
  cbn [cut_slices map]. rewrite length_slice_between by done.
  rewrite IH by (done || lia). f_equal. lia.
Qed.
End TruncationSizes.

(** X3. Fewer ratios than splits lose pairs: when the ratios (each between
    0.0 and 1.0) run out before the split names do, the loop never takes
    the rest of the pool.  With [k_i = int(N * ratio_i)], which is not
    negative, the split of ratio [i] is the slice
    [pool[k_1 + ... + k_(i-1) : k_1 + ... + k_i]], cut short at the end of
    the pool; the splits without a ratio stay empty; together the splits
    hold only the first [k_1 + ... + k_n] pairs of the pool (all of it when
    the sum exceeds N).  When the sum is at most N, the split of ratio [i]
    has exactly [k_i] pairs. *)
Theorem split_dataset_short_ratios {A} (pool : list A) (splits rest : list string)
    (ratios : list PyFloat.float) :
  NoDup (splits ++ rest) -> rest <> [] -> length splits = length ratios ->
  Forall fraction ratios -> Z.of_nat (length pool) < 2 ^ 1023 ->
  exists ds lens,
    split_dataset pool (splits ++ rest) ratios = Ok ds
    /\ split_lens (length pool) ratios lens
    /\ Forall (fun k => 0 <= k) lens
    /\ ds = zip splits (cut_slices pool 0 lens) ++ map (fun s => (s, [])) rest
    /\ concat (dict_values ds) = take (Z.to_nat (foldr Z.add 0 lens)) pool
    /\ (foldr Z.add 0 lens <= Z.of_nat (length pool) ->
        map (fun seg => Z.of_nat (length seg)) (cut_slices pool 0 lens) = lens).
Proof.
  intros Hnd Hrest Hlen Hfr HN.
  destruct (split_lens_fractions (length pool) ratios HN Hfr) as (lens & Hl & Hpos).
  assert (Hll : length lens = length splits) by (apply Forall2_length in Hl; lia).
  exists (zip splits (cut_slices pool 0 lens) ++ map (fun s => (s, [])) rest), lens.
  split; [|split; [done|split; [done|split; [done|split]]]].
  - unfold split_dataset. rewrite dict_comprehension by done.
    rewrite zip_app_short by done. cbn [app].
    apply (split_loop_short pool _ splits ratios lens [] rest 0 0); try done.
    rewrite length_app. destruct rest; [done|]. cbn [length]. lia.
  - unfold dict_values. rewrite fmap_app, concat_app.
    rewrite snd_zip by (rewrite length_cut_slices; lia).
    rewrite concat_cut_slices by (done || lia).
    replace (concat (map (fun s => (s, @nil A)) rest).*2) with (@nil A).
    + rewrite app_nil_r, slice_between_nonneg; [done | lia |].
      clear -Hpos. induction Hpos; cbn; lia.
    + clear. induction rest as [|s rest IH]; [done|]. cbn. done.
  - intros Hsum. apply cut_slices_sizes; [lia|done|lia].
Qed.

Lemma split_dataset_short_ratios_witness :
  exists ds lens,
    split_dataset (seq 0 10) (["train"; "val"] ++ ["test"]) [PyFloat.f0_5; PyFloat.f0_1] = Ok ds
    /\ split_lens (length (seq 0 10)) [PyFloat.f0_5; PyFloat.f0_1] lens
    /\ Forall (fun k => 0 <= k) lens
    /\ ds = zip ["train"; "val"] (cut_slices (seq 0 10) 0 lens)
            ++ map (fun s => (s, [])) ["test"]
    /\ concat (dict_values ds) = take (Z.to_nat (foldr Z.add 0 lens)) (seq 0 10)
    /\ (foldr Z.add 0 lens <= Z.of_nat (length (seq 0 10)) ->
        map (fun seg => Z.of_nat (length seg)) (cut_slices (seq 0 10) 0 lens) = lens).
Proof.
  apply (split_dataset_short_ratios (seq 0 10) ["train"; "val"] ["test"]
           [PyFloat.f0_5; PyFloat.f0_1]).
  - refine (bool_decide_unpack (NoDup SPLITS) _). vm_compute. exact I.
  - discriminate.
  - reflexivity.
  - repeat constructor.
  - reflexivity.
Defined.

(** Both cases on ten pairs and three splits: the ratios (0.5, 0.1) give
    5 and 1 pairs and leave four pairs out; the ratios (0.8, 0.8), whose
    lengths 8 and 8 exceed the pool, give 8 and 2 pairs. *)
Example split_dataset_short_ratios_sizes :
  sizes <$> split_dataset (seq 0 10) SPLITS [PyFloat.f0_5; PyFloat.f0_1]
  = Ok [5; 1; 0]
  /\ sizes <$> split_dataset (seq 0 10) SPLITS [PyFloat.f0_8; PyFloat.f0_8]
     = Ok [8; 2; 0].
Proof. split; vm_compute; reflexivity. Qed.

(** X4. Ratios beyond the number of splits are never looked at: the call
    gives the same result, or the same exception, as with the surplus
    ratios removed, whatever they are. *)
Theorem split_dataset_surplus_ratios {A} (pool : list A) (splits : list string)
    (ratios : list PyFloat.float) :
  split_dataset pool splits ratios
  = split_dataset pool splits (take (length splits) ratios).
Proof. unfold split_dataset. by rewrite <- zip_take_r. Qed.

Section Segments.
Context {A : Type}.
Implicit Types pool : list A.

Lemma take_drop_segment pool n lo : segment_of (take n (drop lo pool)) pool.
Proof.
  exists (take lo pool), (drop n (drop lo pool)).
  by rewrite take_drop, take_drop.
Qed.

Lemma slice_segment pool i j : segment_of (PySeq.slice pool i j) pool.
Proof. apply take_drop_segment. Qed.

Lemma split_slices_segments pool lens :
  forall start, Forall (fun seg => segment_of seg pool) (split_slices pool start lens).
Proof.
  induction lens as [|k [|k' ks] IH]; intros start.
  - constructor.
  - repeat constructor. apply slice_segment.
  - change (split_slices pool start (k :: k' :: ks))
      with (PySeq.slice pool (Some start) (Some (start + k))
              :: split_slices pool (start + k) (k' :: ks)).
    constructor; [apply slice_segment | apply IH].
Qed.

Lemma lens_of_ok (n : nat) (ratios : list PyFloat.float) :
  Forall (fun r => is_ok (PyFloat.int_of_mul (Z.of_nat n) r) = true) ratios ->
  exists lens, split_lens n ratios lens.
Proof.
  induction 1 as [|r rs Hr _ [lens IH]]; [exists []; constructor|].
  destruct (PyFloat.int_of_mul (Z.of_nat n) r) as [k|e] eqn:Hk; [|done].
  exists (k :: lens). by constructor.
Qed.

Lemma split_dataset_ok_lens pool splits ratios ds :
  length splits = length ratios ->
  split_dataset pool splits ratios = Ok ds ->
  exists lens, split_lens (length pool) ratios lens.
Proof.
  intros Hlen Hds. apply lens_of_ok.
  unfold split_dataset in Hds.
  pose proof (split_loop_outcome pool (Z.of_nat (length splits))
                (zip splits ratios) 0 0
                (fold_left (fun d s => dict_set d s []) splits [])) as H.
  rewrite Hds, snd_zip in H by lia. apply H.
  apply Forall_forall. intros [s r] Hin. cbn [fst].
  apply dict_comprehension_keys. right. by apply elem_of_zip_l in Hin.
Qed.
End Segments.

(** X5. Splits are runs of the pool: whenever [split_dataset] returns, for
    distinct split names and as many ratios of any sign and size, every
    split is a run of consecutive pool entries in pool order; a ratio that
    is negative or too large moves the cuts, it never reorders or repeats
    pairs inside a split. *)
Theorem split_dataset_segments {A} (pool : list A) (splits : list string)
    (ratios : list PyFloat.float) (ds : dict (list A)) :
  NoDup splits -> length splits = length ratios ->
  split_dataset pool splits ratios = Ok ds ->
  dict_keys ds = splits
  /\ Forall (fun seg => segment_of seg pool) (dict_values ds).
Proof.
  intros Hnd Hlen Hds.
  destruct (split_dataset_ok_lens pool splits ratios ds Hlen Hds) as [lens Hl].
  rewrite (split_dataset_slices pool splits ratios lens Hnd Hlen Hl) in Hds.
  injection Hds as <-.
  assert (length lens = length splits) by (apply Forall2_length in Hl; lia).
  unfold dict_keys, dict_values.
  rewrite fst_zip, snd_zip by (rewrite length_split_slices; lia).
  split; [done | apply split_slices_segments].
Qed.

Lemma split_dataset_segments_witness :
  dict_keys [("train", [0; 1]); ("val", [2; 3; 4; 5; 6]); ("test", [7; 8; 9])]%nat = SPLITS
  /\ Forall (fun seg => segment_of seg (seq 0 10))
       (dict_values [("train", [0; 1]); ("val", [2; 3; 4; 5; 6]); ("test", [7; 8; 9])]%nat).
Proof.
  apply (split_dataset_segments (seq 0 10) SPLITS
           [PyFloat.f0_2; PyFloat.neg PyFloat.f0_5; PyFloat.f0_1]).
  - refine (bool_decide_unpack (NoDup SPLITS) _). vm_compute. exact I.
  - reflexivity.
  - vm_compute. reflexivity.
Defined.

Section EmptyPool.
Context {A : Type}.

Lemma int_of_mul_zero_finite r :
  PyFloat.is_finite r = true -> PyFloat.int_of_mul 0 r = Ok 0.
Proof. by destruct r as [s|s| |s m e]. Qed.

Lemma split_loop_empty n :
  forall pairs idx start (d : dict (list A)),
    Forall (fun p => PyFloat.is_finite p.2 = true) pairs ->
    Forall (fun p => p.1 ∈ d.*1) pairs ->
    split_loop [] (seq 0 (length (@nil A))) n idx pairs start d = Ok d.
Proof.
  induction pairs as [|[split r] pairs IH]; intros idx start d Hfin Hkeys; [done|].
  inversion Hfin as [|? ? Hr Hfin']; subst.
  inversion Hkeys as [|? ? Hk Hkeys']; subst.
  cbn [split_loop length seq]. cbn [snd] in Hr.
  change (Z.of_nat 0) with 0. rewrite (int_of_mul_zero_finite r Hr).
  cbn [mbind result_bind].
  replace (if idx =? n - 1 then PySeq.slice [] (Some start) None
           else PySeq.slice [] (Some start) (Some (start + 0))) with (@nil nat).
  - cbn [append_triplets mbind result_bind]. by apply IH.
  - unfold PySeq.slice. destruct (idx =? n - 1); by rewrite drop_nil, take_nil.
Qed.
End EmptyPool.

(** X6. An empty pool: with distinct split names and finite ratios of any
    sign and number, [split_dataset] returns every split, empty, in the
    declared order. *)
Theorem split_dataset_empty_pool {A} (splits : list string)
    (ratios : list PyFloat.float) :
  NoDup splits -> Forall (fun r => PyFloat.is_finite r = true) ratios ->
  split_dataset (@nil A) splits ratios = Ok (map (fun s => (s, [])) splits).
Proof.
  intros Hnd Hfin. unfold split_dataset.
  rewrite dict_comprehension by done. cbn [app].
  apply split_loop_empty.
  - apply Forall_forall. intros [s r] Hin. cbn [snd].
    apply elem_of_zip_r in Hin. by eapply Forall_forall in Hfin.
  - apply Forall_forall. intros [s r] Hin. cbn [fst].
    apply elem_of_zip_l in Hin.
    apply list_elem_of_fmap. exists (s, []). split; [done|].
    apply list_elem_of_fmap. by exists s.
Qed.

Lemma split_dataset_empty_pool_witness :
  split_dataset (@nil nat) SPLITS [PyFloat.neg PyFloat.f0_5; PyFloat.f0_8]
  = Ok (map (fun s => (s, [])) SPLITS).
Proof.
  apply (split_dataset_empty_pool SPLITS [PyFloat.neg PyFloat.f0_5; PyFloat.f0_8]).
  - refine (bool_decide_unpack (NoDup SPLITS) _). vm_compute. exact I.
  - repeat constructor.
Defined.

(** ** The length of a split *)

Section SplitLen.
Lemma binary_round_exact m :
  Zpos m < 2 ^ 53 ->
  exists mz ez,
    binary_round 53 1024 false m 0 = S754_finite false mz ez
    /\ Z.shiftl (Zpos mz) ez = Zpos m.
Proof.
  intros Hm. unfold binary_round, shl_align.
  pose proof (digits2_bounds m) as [Hd1 Hd2].
  assert (Hdpos : 0 < Zpos (digits2_pos m)) by lia.
  assert (Hd : Zpos (digits2_pos m) <= 53).
  { assert (Zpos (digits2_pos m) - 1 < 53); [|lia]. apply pow2_lt_inv; lia. }
  rewrite fexp_eq.
  destruct (Z.max (Zpos (digits2_pos m) + 0 - 53) (-1074) - 0) as [|k|k] eqn:Ek; [|lia|].
  - (* 53 digits: no shift *)
    pose proof (binary_round_aux_spec false m 0) as Hs. cbv zeta in Hs.
    rewrite fexp_eq in Hs. replace (Z.max (Zpos (digits2_pos m) + 0 - 53) (-1074)) with 0 in Hs by lia.
    rewrite Hs by lia. change (0 - 0) with 0. rewrite rne_0.
    unfold round_out, finite_or_inf.
    destruct (Z.eqb_spec (Zpos m) (2 ^ 53)); [lia|]. cbn.
    exists m, 0. split; [done|]. apply Z.shiftl_0_r.
  - (* fewer digits: the mantissa is shifted left, exactly *)
    set (mz := Pos.iter xO m k).
    assert (Hmz : Zpos mz = Zpos m * 2 ^ Zpos k) by apply iter_xO_pow.
    assert (Hk : Zpos k = 53 - Zpos (digits2_pos m)) by lia.
    assert (Hpk : 0 < 2 ^ Zpos k) by (apply Z.pow_pos_nonneg; lia).
    assert (Hdz : Zpos (digits2_pos mz) = 53).
    { apply digits2_unique. rewrite Hmz. split.
      - replace (53 - 1) with (Zpos (digits2_pos m) - 1 + Zpos k) by lia.
        rewrite Z.pow_add_r by lia. nia.
      - replace 53 with (Zpos (digits2_pos m) + Zpos k) at 1 by lia.
        rewrite Z.pow_add_r by lia. nia. }
    replace (Z.max (Zpos (digits2_pos m) + 0 - 53) (-1074)) with (- Zpos k) by lia.
    pose proof (binary_round_aux_spec false mz (- Zpos k)) as Hs. cbv zeta in Hs.
    rewrite Hdz, fexp_eq in Hs.
    replace (Z.max (53 + - Zpos k - 53) (-1074)) with (- Zpos k) in Hs by lia.
    rewrite Hs by lia. rewrite Z.sub_diag, rne_0.
    assert (Hlt : Zpos mz < 2 ^ 53).
    { pose proof (digits2_bounds mz) as [_ H2]. by rewrite Hdz in H2. }
    unfold round_out, finite_or_inf.
    destruct (Z.eqb_spec (Zpos mz) (2 ^ 53)); [lia|].
    destruct (Z.leb_spec (- Zpos k) 971); [|lia].
    exists mz, (- Zpos k). split; [done|].
    rewrite Z.shiftl_div_pow2 by lia. rewrite Z.opp_involutive, Hmz.
    apply Z.div_mul. lia.
Qed.

(** [float(n)] is exact below [2^53]. *)
Lemma of_int_exact n :
  0 <= n < 2 ^ 53 ->
  exists fn, PyFloat.of_int n = Ok fn /\ PyFloat.to_int fn = Ok n.
Proof.
  intros [Hn0 Hn]. unfold PyFloat.of_int, binary_normalize.
  destruct n as [|m|m]; [by eexists| |lia].
  destruct (binary_round_exact m Hn) as (mz & ez & Hr & Hv).
  change PyFloat.prec with 53. change PyFloat.emax with 1024. rewrite Hr.
  eexists. split; [done|]. cbn. by rewrite Hv.
Qed.

Lemma int_of_mul_one_exact n :
  0 <= n < 2 ^ 53 -> PyFloat.int_of_mul n PyFloat.one = Ok n.
Proof.
  intros Hn. destruct (of_int_exact n Hn) as (fn & Hfn & Hback).
  destruct (of_int_valid n fn ltac:(lia) Hfn) as [Vn Hform].
  unfold PyFloat.int_of_mul, PyFloat.int_mul. rewrite Hfn. cbn [mbind result_bind].
  destruct Hform as [->|(m & e & ->)]; [done|].
  by rewrite mul_one.
Qed.

Lemma int_of_mul_zero n s :
  0 <= n < 2 ^ 1023 -> PyFloat.int_of_mul n (S754_zero s) = Ok 0.
Proof.
  intros Hn. destruct (of_int_spec n Hn) as (fn & Hfn & _ & Hform).
  unfold PyFloat.int_of_mul, PyFloat.int_mul. rewrite Hfn. cbn [mbind result_bind].
  by destruct Hform as [->|(m & e & ->)].
Qed.
End SplitLen.

(** X7. The length of a split is in range: for a pool of N < 2^53 pairs and
    a ratio between 0.0 and 1.0, [int(N * ratio)] is computed without error
    and lies between 0 and N; it is N for the ratio 1.0 and 0 for the ratio
    0.0. *)
Theorem split_len_in_range (n : Z) (r : PyFloat.float) :
  0 <= n < 2 ^ 53 -> fraction r ->
  (exists k, PyFloat.int_of_mul n r = Ok k /\ 0 <= k <= n)
  /\ PyFloat.int_of_mul n PyFloat.one = Ok n
  /\ PyFloat.int_of_mul n PyFloat.zero = Ok 0.
Proof.
  intros Hn (V & H0 & H1).
  pose proof (int_of_mul_one_exact n Hn) as Hone.
  split; [|split; [done|]].
  - destruct (int_of_mul_mono n r PyFloat.one n) as (k & Hk & ?); try done; [lia|].
    by exists k.
  - apply int_of_mul_zero. split; [lia|].
    eapply Z.lt_le_trans; [apply Hn|]. apply Z.pow_le_mono_r; lia.
Qed.

Lemma split_len_in_range_witness :
  (exists k, PyFloat.int_of_mul 10 PyFloat.f0_81 = Ok k /\ 0 <= k <= 10)
  /\ PyFloat.int_of_mul 10 PyFloat.one = Ok 10
  /\ PyFloat.int_of_mul 10 PyFloat.zero = Ok 0.
Proof.
  apply (split_len_in_range 10 PyFloat.f0_81).
  - split; reflexivity || discriminate.
  - repeat split.
Defined.

Section Negation.
Lemma cond_Zopp_negb s z : cond_Zopp (negb s) z = - cond_Zopp s z.
Proof. destruct s; cbn; lia. Qed.

(** [int()] of a rounded number: the sign is applied last. *)
Lemma to_int_round_sign s m e l :
  PyFloat.to_int (binary_round_aux 53 1024 s m e l)
  = cond_Zopp s <$> PyFloat.to_int (binary_round_aux 53 1024 false m e l).
Proof.
  unfold binary_round_aux.
  destruct (shr_fexp 53 1024 m e l) as [mrs' e'].
  destruct (shr_fexp 53 1024 _ e' loc_Exact) as [mrs'' e''].
  destruct (shr_m mrs'') as [|p|p]; [by destruct s| |done].
  by destruct (e'' <=? 1024 - 53).
Qed.

Lemma to_int_mul_neg x y :
  PyFloat.to_int (PyFloat.mul x (PyFloat.neg y))
  = Z.opp <$> PyFloat.to_int (PyFloat.mul x y).
Proof.
  destruct x as [sx|sx| |sx mx ex], y as [sy|sy| |sy my ey]; try done.
  unfold PyFloat.mul, PyFloat.neg. cbn [SFopp SFmul].
  rewrite to_int_round_sign, (to_int_round_sign (xorb sx sy)).
  destruct (PyFloat.to_int _) as [z|err]; [|done]. cbn. f_equal.
  destruct sx, sy; cbn; lia.
Qed.
End Negation.

(** X8. Truncation is symmetric: for every pool size and every ratio,
    [int(N * -ratio)] is the opposite of [int(N * ratio)], and fails when
    it fails; a negative ratio moves the cursor back by as much as its
    absolute value would move it forward. *)
Theorem split_len_negated (n : Z) (r : PyFloat.float) :
  PyFloat.int_of_mul n (PyFloat.neg r) = Z.opp <$> PyFloat.int_of_mul n r.
Proof.
  unfold PyFloat.int_of_mul, PyFloat.int_mul.
  destruct (PyFloat.of_int n) as [fn|e]; [|done]. cbn [mbind result_bind].
  apply to_int_mul_neg.
Qed.

(** ** Paths and names *)

Section Characters.
Implicit Types (c : ascii) (s : string).

Lemma str_app_assoc s1 s2 s3 : (s1 +:+ s2) +:+ s3 = s1 +:+ s2 +:+ s3.
Proof.
  induction s1 as [|a s1 IH]; [done|].
  change (String a ((s1 +:+ s2) +:+ s3) = String a (s1 +:+ s2 +:+ s3)). by rewrite IH.
Qed.

Lemma str_contains_app c s1 s2 :
  str_contains c (s1 +:+ s2) = str_contains c s1 || str_contains c s2.
Proof.
  induction s1 as [|a s1 IH]; [done|].
  change (String a s1 +:+ s2) with (String a (s1 +:+ s2)).
  cbn [str_contains]. by rewrite IH, orb_assoc.
Qed.

Lemma str_contains_drop c n s :
  str_contains c s = false -> str_contains c (PosixPath.str_drop n s) = false.
Proof.
  revert s. induction n as [|n IH]; intros [|a s]; try done.
  cbn [str_contains PosixPath.str_drop]. intros [_ Hs]%orb_false_iff. by apply IH.
Qed.

Lemma str_contains_take c n s :
  str_contains c s = false -> str_contains c (PosixPath.str_take n s) = false.
Proof.
  revert s. induction n as [|n IH]; intros [|a s]; try done.
  cbn [str_contains PosixPath.str_take]. intros [Ha Hs]%orb_false_iff.
  rewrite Ha. by apply IH.
Qed.

Lemma str_take_drop n s : PosixPath.str_take n s +:+ PosixPath.str_drop n s = s.
Proof.
  revert s. induction n as [|n IH]; intros [|a s]; try done.
  cbn [PosixPath.str_take PosixPath.str_drop].
  change (String a ?x +:+ ?y) with (String a (x +:+ y)). by rewrite IH.
Qed.

(** [rfind] returns -1 when the character does not occur, and otherwise
    an index after which it does not occur. *)
Lemma rfind_from_spec c s :
  forall i, 0 <= i ->
    (PosixPath.rfind_from c s i = -1 /\ str_contains c s = false)
    \/ (i <= PosixPath.rfind_from c s i < i + Z.of_nat (String.length s)
        /\ str_contains c s = true
        /\ str_contains c
             (PosixPath.str_drop (Z.to_nat (PosixPath.rfind_from c s i - i + 1)) s) = false).
Proof.
  induction s as [|a s IH]; intros i Hi; [by left|].
  cbn [PosixPath.rfind_from str_contains String.length].
  destruct (IH (i + 1) ltac:(lia)) as [[Hr Hc]|(Hr & Hc & Hd)].
  - rewrite Hr, Hc. change (-1 =? -1) with true. cbv iota.
    destruct (Ascii.eqb a c); [right|by left].
    split; [lia|]. split; [done|].
    by replace (i - i + 1) with 1 by lia.
  - destruct (Z.eqb_spec (PosixPath.rfind_from c s (i + 1)) (-1)) as [E|_]; [lia|].
    right. split; [lia|]. split; [by rewrite Hc, orb_true_r|].
    replace (Z.to_nat (PosixPath.rfind_from c s (i + 1) - i + 1))
      with (Datatypes.S (Z.to_nat (PosixPath.rfind_from c s (i + 1) - (i + 1) + 1))) by lia.
    done.
Qed.

Lemma rfind_absent c s : str_contains c s = false -> PosixPath.rfind c s = -1.
Proof.
  intros Hc. destruct (rfind_from_spec c s 0 ltac:(lia)) as [[? ?]|(_ & Ht & _)]; [done|].
  congruence.
Qed.

Lemma basename_no_sep p : str_contains PosixPath.sep (PosixPath.basename p) = false.
Proof.
  unfold PosixPath.basename, PosixPath.rfind.
  destruct (rfind_from_spec PosixPath.sep p 0 ltac:(lia)) as [[Hr Hc]|(Hr & _ & Hd)].
  - rewrite Hr. done.
  - by rewrite Z.sub_0_r in Hd.
Qed.

Lemma split_tail_basename p : snd (PosixPath.split p) = PosixPath.basename p.
Proof. reflexivity. Qed.
End Characters.

(** ** Discovery: the names it returns *)

(** X9. No separator in the identity of a pair: for every root and every
    listing of the file system, the collection id and the image name of
    every discovered pair hold no [/], and the pair's directories are
    [<root>/clean] and [<root>/noisy]. *)
Theorem discovered_names_no_sep `{World} (imgs_root : string) :
  exists ts,
    outcome (search_image_triplets imgs_root) = Ok ts
    /\ Forall (fun t =>
         str_contains PosixPath.sep (collection_id t) = false
         /\ str_contains PosixPath.sep (img_name t) = false
         /\ clean_dir t = PosixPath.join imgs_root ["clean"]
         /\ noisy_dir t = PosixPath.join imgs_root ["noisy"]) ts.
Proof.
  rewrite search_image_triplets_run. eexists. split; [done|].
  apply Forall_fmap, Forall_forall. intros n Hn. cbn.
  split; [apply basename_no_sep|]. split; [|done].
  apply joined_names_spec in Hn as [Hn _].
  unfold image_names in Hn. apply list_elem_of_fmap in Hn as (p & -> & _).
  apply basename_no_sep.
Qed.

(** X10. A root without images on one side: when the listing of [clean] or
    of [noisy] is empty, both directories are still listed, no pair is
    returned and nothing fails. *)
Theorem search_image_triplets_one_side_empty `{World} (imgs_root : string) :
  glob (PosixPath.join (PosixPath.join imgs_root ["clean"]) ["*.png"]) = []
  \/ glob (PosixPath.join (PosixPath.join imgs_root ["noisy"]) ["*.png"]) = [] ->
  search_image_triplets imgs_root
  = ([EGlob (PosixPath.join (PosixPath.join imgs_root ["clean"]) ["*.png"]);
      EGlob (PosixPath.join (PosixPath.join imgs_root ["noisy"]) ["*.png"])], Ok []).
Proof.
  intros Hempty. rewrite search_image_triplets_run. do 2 f_equal.
  assert (joined_names imgs_root = []) as ->; [|done].
  assert (Hnone : set_iter ∅ = []).
  { apply Permutation_nil_r. by rewrite set_iter_elements, elements_empty. }
  unfold joined_names, image_names.
  destruct Hempty as [-> | ->]; cbn [map list_to_set foldr].
  - by rewrite intersection_empty_l_L, Hnone.
  - by rewrite intersection_empty_r_L, Hnone.
Qed.

Lemma search_image_triplets_one_side_empty_witness :
  @search_image_triplets demo_world "data/setB"
  = ([EGlob "data/setB/clean/*.png"; EGlob "data/setB/noisy/*.png"], Ok []).
Proof.
  apply (@search_image_triplets_one_side_empty demo_world "data/setB").
  left. reflexivity.
Defined.

(** ** Records and names *)

Section Records.
Lemma append_tab_inj r1 :
  forall r2 l1 l2,
    str_contains "009" r1 = false -> str_contains "009" r2 = false ->
    r1 +:+ String "009" l1 = r2 +:+ String "009" l2 ->
    r1 = r2 /\ l1 = l2.
Proof.
  induction r1 as [|a r1 IH]; intros [|b r2] l1 l2 H1 H2 Heq.
  - by injection Heq as ->.
  - injection Heq as <- _. cbn in H2. done.
  - injection Heq as -> _. cbn in H1. done.
  - change (String ?a ?x +:+ ?y) with (String a (x +:+ y)) in Heq.
    injection Heq as -> Heq.
    cbn [str_contains] in H1, H2.
    apply orb_false_iff in H1 as [_ H1]. apply orb_false_iff in H2 as [_ H2].
    destruct (IH r2 l1 l2 H1 H2 Heq) as [-> ->]. done.
Qed.
End Records.

(** X11. A record can be read back: when the raw paths hold no tab, two
    path pairs with the same manifest record are the same pair. *)
Theorem lst_line_injective (pp1 pp2 : string * string) :
  str_contains "009" (fst pp1) = false -> str_contains "009" (fst pp2) = false ->
  lst_line pp1 = lst_line pp2 -> pp1 = pp2.
Proof.
  destruct pp1 as [r1 l1], pp2 as [r2 l2]. unfold lst_line. cbn [fst snd].
  intros H1 H2 Heq. by destruct (append_tab_inj r1 r2 l1 l2 H1 H2 Heq) as [-> ->].
Qed.

Lemma lst_line_injective_witness :
  ("x/a.png", "y/a.png") = ("x/a.png", "y/a.png").
Proof.
  apply (lst_line_injective ("x/a.png", "y/a.png") ("x/a.png", "y/a.png")); reflexivity.
Defined.

Section Extensions.
Implicit Types (c : ascii) (s : string).

Lemma rfind_from_absent c s i :
  0 <= i -> str_contains c s = false -> PosixPath.rfind_from c s i = -1.
Proof.
  intros Hi Hc. destruct (rfind_from_spec c s i Hi) as [[? ?]|(_ & Ht & _)]; [done|].
  congruence.
Qed.

Lemma rfind_from_app c s1 s2 :
  forall i,
    PosixPath.rfind_from c (s1 +:+ s2) i
    = if PosixPath.rfind_from c s2 (i + Z.of_nat (String.length s1)) =? -1
      then PosixPath.rfind_from c s1 i
      else PosixPath.rfind_from c s2 (i + Z.of_nat (String.length s1)).
Proof.
  induction s1 as [|a s1 IH]; intros i.
  - change (EmptyString +:+ s2) with s2. cbn [String.length PosixPath.rfind_from].
    rewrite Z.add_0_r. by destruct (Z.eqb_spec (PosixPath.rfind_from c s2 i) (-1)).
  - change (String a s1 +:+ s2) with (String a (s1 +:+ s2)).
    cbn [PosixPath.rfind_from String.length]. rewrite IH.
    replace (i + 1 + Z.of_nat (String.length s1))
      with (i + Z.of_nat (Datatypes.S (String.length s1))) by lia.
    destruct (Z.eqb_spec (PosixPath.rfind_from c s2 (i + Z.of_nat (Datatypes.S (String.length s1)))) (-1))
      as [E|E]; [done|].
    by destruct (Z.eqb_spec (PosixPath.rfind_from c s2 (i + Z.of_nat (Datatypes.S (String.length s1)))) (-1)).
Qed.

Lemma str_take_app s1 s2 : PosixPath.str_take (String.length s1) (s1 +:+ s2) = s1.
Proof.
  induction s1 as [|a s1 IH]; [by destruct s2|].
  change (String a s1 +:+ s2) with (String a (s1 +:+ s2)).
  cbn [String.length PosixPath.str_take]. by rewrite IH.
Qed.

Lemma str_drop_app s1 s2 : PosixPath.str_drop (String.length s1) (s1 +:+ s2) = s2.
Proof.
  induction s1 as [|a s1 IH]; [done|].
  change (String a s1 +:+ s2) with (String a (s1 +:+ s2)).
  cbn [String.length PosixPath.str_drop]. by rewrite IH.
Qed.

Lemma has_stem_app s2 :
  forall s1 s3,
    PosixPath.has_stem (s1 +:+ s2 +:+ s3) (String.length s1) (String.length s2)
    = negb (only_dots s2).
Proof.
  induction s2 as [|a s2 IH]; intros s1 s3; [done|].
  cbn [String.length PosixPath.has_stem only_dots].
  assert (Hget : String.get (String.length s1) (s1 +:+ String a s2 +:+ s3) = Some a).
  { clear. induction s1 as [|b s1 IH]; [done|]. exact IH. }
  rewrite Hget.
  destruct (Ascii.eqb a PosixPath.extsep); [|done]. cbn [andb].
  specialize (IH (s1 +:+ String a EmptyString) s3).
  assert (Hlen : String.length (s1 +:+ String a EmptyString) = Datatypes.S (String.length s1)).
  { clear. induction s1 as [|b s1 IH]; [done|]. cbn. by rewrite <- IH. }
  assert (Happ : (s1 +:+ String a EmptyString) +:+ s2 +:+ s3 = s1 +:+ String a s2 +:+ s3)
    by exact (str_app_assoc s1 (String a EmptyString) (s2 +:+ s3)).
  by rewrite Hlen, Happ in IH.
Qed.

(** [splitext] cuts a plain file name at its last dot. *)
Lemma splitext_stem_ext stem ext :
  str_contains PosixPath.sep stem = false -> only_dots stem = false ->
  str_contains PosixPath.sep ext = false -> str_contains PosixPath.extsep ext = false ->
  PosixPath.splitext (stem +:+ String PosixPath.extsep ext)
  = (stem, String PosixPath.extsep ext).
Proof.
  intros Hs Hd Hes Hed. unfold PosixPath.splitext, PosixPath.rfind.
  assert (Hsep : PosixPath.rfind_from PosixPath.sep (stem +:+ String PosixPath.extsep ext) 0 = -1).
  { apply rfind_from_absent; [lia|]. rewrite str_contains_app, Hs. cbn. by rewrite Hes. }
  assert (Hdot : PosixPath.rfind_from PosixPath.extsep (stem +:+ String PosixPath.extsep ext) 0
                 = Z.of_nat (String.length stem)).
  { rewrite rfind_from_app. cbn [PosixPath.rfind_from].
    rewrite (rfind_from_absent _ ext) by (done || lia).
    change (-1 =? -1) with true. cbv iota.
    rewrite Ascii.eqb_refl, Z.add_0_l.
    by destruct (Z.eqb_spec (Z.of_nat (String.length stem)) (-1)); [lia|]. }
  rewrite Hsep, Hdot.
  replace (Z.to_nat (-1 + 1)) with (String.length EmptyString) by done.
  replace (Z.to_nat (Z.of_nat (String.length stem) - (-1 + 1))) with (String.length stem) by lia.
  rewrite Nat2Z.id.
  pose proof (has_stem_app stem EmptyString (String PosixPath.extsep ext)) as Hst.
  change (EmptyString +:+ ?x) with x in Hst. rewrite Hst, Hd.
  destruct (Z.ltb_spec (-1) (Z.of_nat (String.length stem))); [|lia]. cbn [andb negb].
  by rewrite str_take_app, str_drop_app.
Qed.
End Extensions.

(** X12. The identifier of a pair: for an image named [<stem>.<ext>], where
    the stem holds no separator and is not made of dots only and the
    extension holds neither separator nor dot, the identifier is
    [<collection>_<stem>]: only the last extension is dropped, so the
    artifacts are [<collection>_<stem>_leftImg8bit.png],
    [<collection>_<stem>_polygons.json] and
    [<collection>_<stem>_labelIds.png] in their directories. *)
Theorem img_id_stem (t : img_triplet) (stem ext : string) :
  img_name t = stem +:+ String PosixPath.extsep ext ->
  str_contains PosixPath.sep stem = false -> only_dots stem = false ->
  str_contains PosixPath.sep ext = false -> str_contains PosixPath.extsep ext = false ->
  img_id t = collection_id t +:+ "_" +:+ stem
  /\ forall imgs labels,
       raw_img_path imgs t
       = PosixPath.join imgs [collection_id t +:+ "_" +:+ stem +:+ "_leftImg8bit.png"]
       /\ label_dict_path labels t
          = PosixPath.join labels [collection_id t +:+ "_" +:+ stem +:+ "_polygons.json"]
       /\ label_img_path labels t
          = PosixPath.join labels [collection_id t +:+ "_" +:+ stem +:+ "_labelIds.png"].
Proof.
  intros Hname Hs Hd Hes Hed.
  assert (Hid : img_id t = collection_id t +:+ "_" +:+ stem).
  { unfold img_id. by rewrite Hname, splitext_stem_ext. }
  split; [done|]. intros imgs labels.
  unfold raw_img_path, label_dict_path, label_img_path. rewrite Hid.
  by rewrite !str_app_assoc.
Qed.

Lemma img_id_stem_witness :
  img_id (Triplet "setA" "data/setA/clean" "data/setA/noisy" "scan.v2.png")
  = "setA_scan.v2"
  /\ forall imgs labels,
       raw_img_path imgs (Triplet "setA" "data/setA/clean" "data/setA/noisy" "scan.v2.png")
       = PosixPath.join imgs ["setA_scan.v2_leftImg8bit.png"]
       /\ label_dict_path labels (Triplet "setA" "data/setA/clean" "data/setA/noisy" "scan.v2.png")
          = PosixPath.join labels ["setA_scan.v2_polygons.json"]
       /\ label_img_path labels (Triplet "setA" "data/setA/clean" "data/setA/noisy" "scan.v2.png")
          = PosixPath.join labels ["setA_scan.v2_labelIds.png"].
Proof.
  apply (img_id_stem (Triplet "setA" "data/setA/clean" "data/setA/noisy" "scan.v2.png")
           "scan.v2" "png"); reflexivity.
Defined.

(** ** Generation: success and abort *)

Section Generation.
Context `{World}.

(** A loop whose body succeeds on every element. *)
Lemma for_each_all_ok {X Y} (f : X -> M Y) (g : X -> Y) l :
  Forall (fun x => outcome (f x) = Ok (g x)) l ->
  for_each f l = (concat (map (fun x => trace (f x)) l), Ok (map g l)).
Proof.
  induction 1 as [|x l Hx _ IH]; [done|].
  cbn [for_each map concat]. rewrite IH. destruct (f x) as [t r]. cbn in Hx. subst r.
  unfold mbind, M_bind, mret, M_ret. cbn [trace fst]. by rewrite app_nil_r.
Qed.

(** A loop stops at the first element on which its body raises. *)
Lemma for_each_abort {X Y} (f : X -> M Y) (g : X -> Y) good bad rest e :
  Forall (fun x => outcome (f x) = Ok (g x)) good ->
  outcome (f bad) = Raise e ->
  for_each f (good ++ bad :: rest)
  = (concat (map (fun x => trace (f x)) good) ++ trace (f bad), Raise e).
Proof.
  intros Hgood Hbad. induction Hgood as [|x l Hx _ IH].
  - cbn [for_each app map concat]. destruct (f bad) as [t r]. cbn in Hbad. by subst r.
  - cbn [for_each app map concat]. rewrite IH. destruct (f x) as [t r]. cbn in Hx. subst r.
    unfold mbind, M_bind. cbn [trace fst]. by rewrite app_assoc.
Qed.

Lemma gen_defect_ok output_root imgs labels t :
  processable t ->
  outcome (gen_defect output_root imgs labels t) = Ok (path_pair imgs labels t).
Proof.
  intros (img_clean & img_noisy & contours & Hp).
  by rewrite (gen_defect_processed _ _ _ t img_clean img_noisy contours Hp).
Qed.

Lemma copies_gen_defect output_root imgs labels t :
  processable t ->
  copies (trace (gen_defect output_root imgs labels t))
  = [(PosixPath.join (noisy_dir t) [img_name t],
      PosixPath.join output_root [raw_img_path imgs t])].
Proof.
  intros (img_clean & img_noisy & contours & Hp).
  by rewrite (gen_defect_processed _ _ _ t img_clean img_noisy contours Hp).
Qed.

(** The loop body writes no manifest, whether it fails or not. *)
Lemma manifests_gen_defect output_root imgs labels t :
  manifests (trace (gen_defect output_root imgs labels t)) = [].
Proof.
  unfold gen_defect, copyfile, shape_of, draw_label_img.
  destruct (find_defects _ _); [|done].
  destruct (readable _); [|done].
  destruct (imread (PosixPath.join (clean_dir t) [img_name t])); [|done].
  by destruct (imread (PosixPath.join (noisy_dir t) [img_name t])).
Qed.

Lemma copies_app t1 t2 : copies (t1 ++ t2) = copies t1 ++ copies t2.
Proof. apply omap_app. Qed.

Lemma manifests_app t1 t2 : manifests (t1 ++ t2) = manifests t1 ++ manifests t2.
Proof. apply omap_app. Qed.


Lemma manifests_cons e t : manifests (e :: t) = manifests [e] ++ manifests t.
Proof. exact (manifests_app [e] t). Qed.

Lemma copies_gen_defect_loop ts output_root imgs labels :
  Forall processable ts ->
  copies (concat (map (fun t => trace (gen_defect output_root imgs labels t)) ts))
  = map (fun t => (PosixPath.join (noisy_dir t) [img_name t],
                   PosixPath.join output_root [raw_img_path imgs t])) ts.
Proof.
  induction 1 as [|t ts Ht _ IH]; [done|].
  cbn [map concat]. by rewrite copies_app, IH, copies_gen_defect.
Qed.

Lemma manifests_gen_defect_loop ts output_root imgs labels :
  manifests (concat (map (fun t => trace (gen_defect output_root imgs labels t)) ts)) = [].
Proof.
  induction ts as [|t ts IH]; [done|].
  cbn [map concat]. by rewrite manifests_app, IH, manifests_gen_defect.
Qed.

Lemma gen_defects_run ts output_root imgs labels :
  Forall processable ts ->
  gen_defects ts output_root imgs labels
  = ([EMkdir (PosixPath.join output_root [imgs]);
      EMkdir (PosixPath.join output_root [labels])]
       ++ concat (map (fun t => trace (gen_defect output_root imgs labels t)) ts),
     Ok (map (path_pair imgs labels) ts)).
Proof.
  intros Hts. unfold gen_defects.
  rewrite (for_each_all_ok _ (path_pair imgs labels)); [done|].
  eapply Forall_impl; [exact Hts|]. intros t Ht. by apply gen_defect_ok.
Qed.

Lemma gen_defects_abort_run good bad rest e output_root imgs labels :
  Forall processable good ->
  outcome (gen_defect output_root imgs labels bad) = Raise e ->
  gen_defects (good ++ bad :: rest) output_root imgs labels
  = ([EMkdir (PosixPath.join output_root [imgs]);
      EMkdir (PosixPath.join output_root [labels])]
       ++ concat (map (fun t => trace (gen_defect output_root imgs labels t)) good)
       ++ trace (gen_defect output_root imgs labels bad),
     Raise e).
Proof.
  intros Hgood Hbad. unfold gen_defects.
  rewrite (for_each_abort _ (path_pair imgs labels) good bad rest e); [done| |done].
  eapply Forall_impl; [exact Hgood|]. intros t Ht. by apply gen_defect_ok.
Qed.

Lemma str_join_concat sep l : str_join sep l = String.concat sep l.
Proof.
  induction l as [|x [|y l] IH]; [done|done|].
  change (str_join sep (x :: y :: l)) with (x +:+ sep +:+ str_join sep (y :: l)).
  by rewrite IH.
Qed.

(** The text [gen_lst] writes for the path pairs of a split. *)
Lemma manifest_text split ts :
  str_join newline
    (map lst_line (map (path_pair (imgs_dir_of split) (labels_dir_of split)) ts))
  = snd (manifest_of "" split ts).
Proof. rewrite str_join_concat, map_map. reflexivity. Qed.

Lemma gen_split_run output_root split ts :
  Forall processable ts ->
  gen_split output_root (PosixPath.join output_root ["list"]) (split, ts)
  = (EPrint ("Generating for " +:+ split +:+ " split")
       :: trace (gen_defects ts output_root (imgs_dir_of split) (labels_dir_of split))
       ++ [EMkdir (PosixPath.join output_root ["list"]);
           ESaveText (fst (manifest_of output_root split ts))
             (snd (manifest_of output_root split ts))],
     Ok tt).
Proof.
  intros Hts. unfold gen_split. fold (imgs_dir_of split). fold (labels_dir_of split).
  rewrite gen_defects_run by done. unfold gen_lst, save_text, mkdir_p.
  unfold mbind, M_bind, emit. cbv beta iota zeta.
  rewrite manifest_text. reflexivity.
Qed.

Lemma gen_split_abort_run output_root output_lst_dir split ts e :
  outcome (gen_defects ts output_root (imgs_dir_of split) (labels_dir_of split)) = Raise e ->
  gen_split output_root output_lst_dir (split, ts)
  = (EPrint ("Generating for " +:+ split +:+ " split")
       :: trace (gen_defects ts output_root (imgs_dir_of split) (labels_dir_of split)),
     Raise e).
Proof.
  intros He. unfold gen_split. fold (imgs_dir_of split). fold (labels_dir_of split).
  destruct (gen_defects ts output_root _ _) as [t r]. cbn in He. subst r. reflexivity.
Qed.

Lemma for_each_no_manifest {X Y} (f : X -> M Y) l :
  (forall x, manifests (trace (f x)) = []) ->
  manifests (trace (for_each f l)) = [].
Proof.
  intros Hf. induction l as [|x l IH]; [done|].
  cbn [for_each]. specialize (Hf x).
  destruct (f x) as [t1 [y|e]]; cbn [trace fst] in Hf; [|exact Hf].
  destruct (for_each f l) as [t2 [ys|e]]; cbn [trace fst] in IH;
    unfold mbind, M_bind, mret, M_ret; cbn [trace fst].
  - by rewrite app_nil_r, manifests_app, Hf, IH.
  - by rewrite manifests_app, Hf, IH.
Qed.

Lemma manifests_gen_defects ts output_root imgs labels :
  manifests (trace (gen_defects ts output_root imgs labels)) = [].
Proof.
  unfold gen_defects, mkdir_p.
  pose proof (for_each_no_manifest (gen_defect output_root imgs labels) ts
                (manifests_gen_defect output_root imgs labels)) as Hloop.
  by destruct (for_each _ ts) as [t [pps|e]].
Qed.

Lemma manifests_gen_split output_root split ts :
  Forall processable ts ->
  manifests (trace (gen_split output_root (PosixPath.join output_root ["list"]) (split, ts)))
  = [manifest_of output_root split ts].
Proof.
  intros Hts. rewrite gen_split_run by done. cbn [trace fst].
  rewrite manifests_cons, !manifests_app, manifests_gen_defects. done.
Qed.



Lemma gen_dataset_abort_run done split ts rest e output_root :
  Forall (fun kv => Forall processable kv.2) done ->
  outcome (gen_defects ts output_root (imgs_dir_of split) (labels_dir_of split)) = Raise e ->
  gen_dataset (done ++ (split, ts) :: rest) output_root
  = (concat (map (fun kv =>
       trace (gen_split output_root (PosixPath.join output_root ["list"]) kv)) done)
       ++ EPrint ("Generating for " +:+ split +:+ " split")
          :: trace (gen_defects ts output_root (imgs_dir_of split) (labels_dir_of split)),
     Raise e).
Proof.
  intros Hdone He. unfold gen_dataset.
  rewrite (for_each_abort _ (fun _ => tt) done (split, ts) rest e).
  - by rewrite (gen_split_abort_run _ _ split ts e He).
  - eapply Forall_impl; [exact Hdone|]. intros [split' ts'] Hts.
    by rewrite gen_split_run.
  - by rewrite (gen_split_abort_run _ _ split ts e He).
Qed.

Lemma manifests_splits ds output_root :
  Forall (fun kv => Forall processable kv.2) ds ->
  manifests (concat (map (fun kv =>
    trace (gen_split output_root (PosixPath.join output_root ["list"]) kv)) ds))
  = map (fun kv => manifest_of output_root kv.1 kv.2) ds.
Proof.
  induction 1 as [|[split ts] ds Hts _ IH]; [done|].
  cbn [map concat]. by rewrite manifests_app, IH, manifests_gen_split.
Qed.

End Generation.





(** ** The whole run *)

Section MainRun.
Context `{World}.

Lemma main_pool_shuffled args :
  main_pool args
  = match limit args with
    | Some l => PySeq.slice (shuffle (seed args) (discovered (imgs_dirs args))) None (Some l)
    | None => shuffle (seed args) (discovered (imgs_dirs args))
    end.
Proof. reflexivity. Qed.

End MainRun.

(** X15. The cap: [main] keeps a prefix of the shuffled pool.  Without
    [--limit] it keeps all N pairs; with a limit [l >= 0] it keeps the first
    [min(l, N)]; a negative limit is not rejected, it drops the last [-l]
    pairs and keeps [max(0, N + l)]. *)
Theorem main_pool_limit `{World} (args : Args) :
  let shuffled := shuffle (seed args) (discovered (imgs_dirs args)) in
  let n := Z.of_nat (length shuffled) in
  let kept :=
    match limit args with
    | None => n
    | Some l => if l <? 0 then Z.max 0 (n + l) else Z.min l n
    end in
  main_pool args = take (Z.to_nat kept) shuffled
  /\ Z.of_nat (length (main_pool args)) = kept.
Proof.
  intros shuffled n kept. rewrite main_pool_shuffled. fold shuffled.
  assert (Hk : 0 <= kept <= n).
  { unfold kept. destruct (limit args) as [l|]; [|lia].
    destruct (Z.ltb_spec l 0); lia. }
  assert (Heq : match limit args with
                | Some l => PySeq.slice shuffled None (Some l)
                | None => shuffled
                end = take (Z.to_nat kept) shuffled).
  { unfold kept. destruct (limit args) as [l|].
    - unfold PySeq.slice, PySeq.adjust. fold n. by rewrite Z.sub_0_r, (Z.add_comm l n).
    - unfold n. by rewrite Nat2Z.id, firstn_all. }
  rewrite Heq. split; [done|]. rewrite length_take. unfold n in *. lia.
Qed.



(** The manifests of that run, as texts. *)
Example main_manifests_lab :
  manifests (trace (@main lab_world lab_args))
  = [("out/list/train.lst",
      "leftImg8bit/defect/train/setB_y_leftImg8bit.png" +:+ String "009"
        "gtFine/defect/train/setB_y_labelIds.png" +:+ String "010"
        "leftImg8bit/defect/train/setB_x_leftImg8bit.png" +:+ String "009"
        "gtFine/defect/train/setB_x_labelIds.png");
     ("out/list/val.lst", "");
     ("out/list/test.lst",
      "leftImg8bit/defect/test/setA_d_leftImg8bit.png" +:+ String "009"
        "gtFine/defect/test/setA_d_labelIds.png" +:+ String "010"
        "leftImg8bit/defect/test/setA_c_leftImg8bit.png" +:+ String "009"
        "gtFine/defect/test/setA_c_labelIds.png")].
Proof. vm_compute. reflexivity. Qed.

(** ** Where a run writes *)

Section Paths.
Implicit Types (c : ascii) (s : string).

Lemma startswith_absent c s : str_contains c s = false -> PosixPath.startswith c s = false.
Proof. destruct s as [|a s]; [done|]. cbn. by intros [? _]%orb_false_iff. Qed.

Lemma endswith_app c s a s' :
  PosixPath.endswith c (s +:+ String a s') = PosixPath.endswith c (String a s').
Proof.
  induction s as [|b s IH]; [done|].
  change (String b s +:+ String a s') with (String b (s +:+ String a s')).
  rewrite <- IH. by destruct s.
Qed.

Lemma eqb_app_nonempty s a s' : String.eqb (s +:+ String a s') EmptyString = false.
Proof. by destruct s. Qed.

Lemma output_dirs_eq :
  output_dirs
  = ["list"; "leftImg8bit/defect/train"; "leftImg8bit/defect/val";
     "leftImg8bit/defect/test"; "gtFine/defect/train"; "gtFine/defect/val";
     "gtFine/defect/test"].
Proof. reflexivity. Qed.

(** Joining a directory of the dataset and a file name. *)
Lemma join_dir_file dir file :
  dir ∈ output_dirs -> PosixPath.startswith PosixPath.sep file = false ->
  PosixPath.join dir [file] = dir +:+ "/" +:+ file.
Proof.
  rewrite output_dirs_eq. intros Hd Hf.
  unfold PosixPath.join. cbn [fold_left]. unfold PosixPath.join2. rewrite Hf.
  repeat (apply elem_of_cons in Hd as [->|Hd]); try reflexivity.
  by apply elem_of_nil in Hd.
Qed.

Lemma join_list root file :
  PosixPath.startswith PosixPath.sep file = false ->
  PosixPath.join (PosixPath.join root ["list"]) [file]
  = PosixPath.join root ["list" +:+ "/" +:+ file].
Proof.
  intros Hf. unfold PosixPath.join. cbn [fold_left]. unfold PosixPath.join2.
  rewrite Hf. change (PosixPath.startswith PosixPath.sep "list") with false.
  change (PosixPath.startswith PosixPath.sep ("list" +:+ "/" +:+ file)) with false.
  cbv iota.
  destruct (String.eqb root EmptyString || PosixPath.endswith PosixPath.sep root).
  - rewrite eqb_app_nonempty, endswith_app. cbn [orb].
    change (PosixPath.endswith PosixPath.sep "list") with false. cbv iota.
    apply (str_app_assoc root "list" (String PosixPath.sep file)).
  - rewrite (eqb_app_nonempty root PosixPath.sep "list").
    rewrite (endswith_app PosixPath.sep root PosixPath.sep "list"). cbn [orb].
    change (PosixPath.endswith PosixPath.sep (String PosixPath.sep "list")) with false.
    cbv iota.
    apply (str_app_assoc root (String PosixPath.sep "list") (String PosixPath.sep file)).
Qed.

Lemma splitext_fst_no_sep s :
  str_contains PosixPath.sep s = false ->
  str_contains PosixPath.sep (fst (PosixPath.splitext s)) = false.
Proof.
  intros Hs. unfold PosixPath.splitext.
  destruct (_ && _); cbn [fst]; [by apply str_contains_take|done].
Qed.

Lemma img_id_no_sep t :
  str_contains PosixPath.sep (collection_id t) = false ->
  str_contains PosixPath.sep (img_name t) = false ->
  str_contains PosixPath.sep (img_id t) = false.
Proof.
  intros Hc Hn. unfold img_id.
  by rewrite !str_contains_app, Hc, splitext_fst_no_sep.
Qed.
End Paths.

(** ** The manifest of a split *)

Section ManifestPath.
End ManifestPath.



Section Inside.
Context `{World}.

Lemma artifact_inside root dir t suffix :
  dir ∈ output_dirs -> suffix ∈ artifact_suffixes ->
  str_contains PosixPath.sep (collection_id t) = false ->
  str_contains PosixPath.sep (img_name t) = false ->
  dataset_file root (PosixPath.join root [PosixPath.join dir [img_id t +:+ suffix]]).
Proof.
  intros Hd Hsuf Hc Hn. exists dir, (img_id t), suffix.
  pose proof (img_id_no_sep t Hc Hn) as Hid.
  repeat split; try done.
  rewrite (join_dir_file dir); [reflexivity|exact Hd|].
  apply startswith_absent. rewrite str_contains_app, Hid.
  unfold artifact_suffixes in Hsuf.
  repeat (apply elem_of_cons in Hsuf as [->|Hsuf]); try reflexivity.
  by apply elem_of_nil in Hsuf.
Qed.

(** What holds of every event of the loop body holds of every event of
    the loop, whether it runs to its end or stops early. *)
Lemma for_each_Forall {X Y} (P : event -> Prop) (f : X -> M Y) l :
  Forall (fun x => Forall P (trace (f x))) l ->
  Forall P (trace (for_each f l)).
Proof.
  induction 1 as [|x l Hx _ IH]; [by constructor|].
  cbn [for_each].
  destruct (f x) as [t1 [y|e]]; cbn [trace fst] in Hx; [|exact Hx].
  destruct (for_each f l) as [t2 [ys|e]]; cbn [trace fst] in IH;
    unfold mbind, M_bind, mret, M_ret; cbn [trace fst].
  - rewrite app_nil_r. by apply Forall_app.
  - by apply Forall_app.
Qed.

Lemma gen_defect_inside root imgs labels t :
  imgs ∈ output_dirs -> labels ∈ output_dirs ->
  str_contains PosixPath.sep (collection_id t) = false ->
  str_contains PosixPath.sep (img_name t) = false ->
  Forall (inside_output root) (trace (gen_defect root imgs labels t)).
Proof.
  intros Hi Hl Hc Hn.
  assert (Hraw : dataset_file root (PosixPath.join root [raw_img_path imgs t])).
  { apply artifact_inside; try done. unfold artifact_suffixes.
    repeat first [apply list_elem_of_here | apply list_elem_of_further]. }
  assert (Hdoc : dataset_file root (PosixPath.join root [label_dict_path labels t])).
  { apply artifact_inside; try done. unfold artifact_suffixes.
    repeat first [apply list_elem_of_here | apply list_elem_of_further]. }
  assert (Himg : dataset_file root (PosixPath.join root [label_img_path labels t])).
  { apply artifact_inside; try done. unfold artifact_suffixes.
    repeat first [apply list_elem_of_here | apply list_elem_of_further]. }
  unfold gen_defect, copyfile, shape_of, draw_label_img.
  destruct (find_defects _ _); [|by repeat constructor].
  destruct (readable _); [|by repeat constructor].
  destruct (imread (PosixPath.join (clean_dir t) [img_name t])); [|by repeat constructor].
  destruct (imread (PosixPath.join (noisy_dir t) [img_name t])); by repeat constructor.
Qed.

Lemma gen_split_inside root split ts :
  split ∈ SPLITS ->
  Forall (fun t => str_contains PosixPath.sep (collection_id t) = false
                   /\ str_contains PosixPath.sep (img_name t) = false) ts ->
  Forall (inside_output root)
    (trace (gen_split root (PosixPath.join root ["list"]) (split, ts))).
Proof.
  intros Hs Hts.
  assert (Hi : imgs_dir_of split ∈ output_dirs).
  { unfold output_dirs. apply elem_of_cons. right. apply elem_of_app. left.
    by apply list_elem_of_fmap_2. }
  assert (Hl : labels_dir_of split ∈ output_dirs).
  { unfold output_dirs. apply elem_of_cons. right. apply elem_of_app. right.
    by apply list_elem_of_fmap_2. }
  assert (Hlist : "list" ∈ output_dirs) by (apply elem_of_cons; by left).
  assert (Hloop : Forall (inside_output root)
            (trace (for_each (gen_defect root (imgs_dir_of split) (labels_dir_of split)) ts))).
  { apply for_each_Forall. eapply Forall_impl; [exact Hts|].
    intros t [Hc Hn]. by apply gen_defect_inside. }
  assert (Hmanifest : dataset_file root
            (PosixPath.join (PosixPath.join root ["list"]) [split +:+ ".lst"])).
  { exists "list", split, ".lst". split; [done|]. split.
    { unfold artifact_suffixes.
      repeat first [apply list_elem_of_here | apply list_elem_of_further]. }
    assert (Hsplit : str_contains PosixPath.sep split = false).
    { unfold SPLITS in Hs. repeat (apply elem_of_cons in Hs as [->|Hs]); try reflexivity.
      by apply elem_of_nil in Hs. }
    split; [done|]. apply join_list. apply startswith_absent.
    by rewrite str_contains_app, Hsplit. }
  unfold gen_split, gen_defects, gen_lst, save_text, mkdir_p.
  fold (imgs_dir_of split). fold (labels_dir_of split).
  destruct (for_each _ ts) as [t [pps|e]]; cbn [trace fst] in Hloop;
    unfold mbind, M_bind, emit; cbn [trace fst].
  - repeat (apply Forall_cons; split); [done|cbn; eauto|cbn; eauto|].
    apply Forall_app. split; [done|].
    repeat (apply Forall_cons; split); [cbn; eauto|exact Hmanifest|constructor].
  - repeat (apply Forall_cons; split); [done|cbn; eauto|cbn; eauto|done].
Qed.

Lemma discovered_no_sep roots :
  Forall (fun t => str_contains PosixPath.sep (collection_id t) = false
                   /\ str_contains PosixPath.sep (img_name t) = false)
    (discovered roots).
Proof.
  unfold discovered. apply Forall_concat, Forall_fmap, Forall_forall. intros root _.
  apply Forall_fmap, Forall_forall. intros n Hn. cbn.
  split; [apply basename_no_sep|].
  apply joined_names_spec in Hn as [Hn _].
  unfold image_names in Hn. apply list_elem_of_fmap in Hn as (p & -> & _).
  apply basename_no_sep.
Qed.

Lemma segment_of_elem {A} (seg l : list A) x : segment_of seg l -> x ∈ seg -> x ∈ l.
Proof.
  intros (before & after & ->) Hx. apply elem_of_app. right. apply elem_of_app. by left.
Qed.

Lemma main_pool_no_sep args :
  shuffle_permutes ->
  Forall (fun t => str_contains PosixPath.sep (collection_id t) = false
                   /\ str_contains PosixPath.sep (img_name t) = false)
    (main_pool args).
Proof.
  intros Hperm. apply Forall_forall. intros t Ht.
  assert (Hin : t ∈ shuffle (seed args) (discovered (imgs_dirs args))).
  { rewrite main_pool_shuffled in Ht. destruct (limit args) as [l|]; [|done].
    eapply segment_of_elem; [apply slice_segment|exact Ht]. }
  rewrite (Hperm (seed args) (discovered (imgs_dirs args))) in Hin.
  pose proof (discovered_no_sep (imgs_dirs args)) as Hd.
  rewrite Forall_forall in Hd. by apply Hd.
Qed.

Lemma split_dataset_entries {A} (pool : list A) splits ratios ds :
  NoDup splits -> length splits = length ratios ->
  split_dataset pool splits ratios = Ok ds ->
  Forall (fun kv => kv.1 ∈ splits /\ forall x, x ∈ kv.2 -> x ∈ pool) ds.
Proof.
  intros Hnd Hlen Hds.
  destruct (split_dataset_ok_lens pool splits ratios ds Hlen Hds) as [lens Hl].
  rewrite (split_dataset_slices pool splits ratios lens Hnd Hlen Hl) in Hds.
  injection Hds as <-. apply Forall_forall. intros [s seg] Hin. cbn [fst snd].
  split; [by eapply elem_of_zip_l|].
  apply elem_of_zip_r in Hin.
  pose proof (split_slices_segments pool lens 0) as Hseg.
  rewrite Forall_forall in Hseg. intros x. by apply segment_of_elem, Hseg.
Qed.
End Inside.

(** X17. A run stays inside the dataset: when the shuffle reorders, every
    file [main] writes (raw image, polygon document, label mask, manifest)
    lies under the output root directly in [list], in
    [leftImg8bit/defect/<split>] or in [gtFine/defect/<split>], under a name
    without separator that ends in [_leftImg8bit.png], [_polygons.json],
    [_labelIds.png] or [.lst], and every directory it creates is one of
    these seven; this holds for all arguments, the ratios and the limit
    included, and for every listing of the file system. *)
Theorem main_writes_inside_output `{World} (args : Args) :
  shuffle_permutes ->
  Forall (inside_output (output args)) (trace (main args)).
Proof.
  intros Hperm. rewrite main_run.
  assert (Hdisc : forall roots, Forall (inside_output (output args)) (discovery_trace roots)).
  { intros roots. unfold discovery_trace. apply Forall_concat, Forall_fmap, Forall_forall.
    intros root _. by repeat constructor. }
  destruct (split_dataset (main_pool args) SPLITS (split_ratios_of args)) as [ds|e] eqn:Hds;
    cbv zeta; cbn [trace fst]; [|apply Hdisc].
  apply Forall_app. split; [apply Hdisc|].
  assert (Hgen : Forall (inside_output (output args))
            (trace (for_each (gen_split (output args)
                                (PosixPath.join (output args) ["list"])) ds))).
  { apply for_each_Forall. eapply Forall_impl.
    - apply (split_dataset_entries (main_pool args) SPLITS (split_ratios_of args) ds);
        [|done|done].
      refine (bool_decide_unpack (NoDup SPLITS) _). vm_compute. exact I.
    - intros [split ts] [Hs Hts]. cbn [fst snd] in *. apply gen_split_inside; [done|].
      apply Forall_forall. intros t Ht.
      pose proof (main_pool_no_sep args Hperm) as Hpool. rewrite Forall_forall in Hpool.
      by apply Hpool, Hts. }
  unfold gen_dataset.
  destruct (for_each _ ds) as [t [units|e]]; cbn [trace fst] in Hgen;
    unfold mbind, M_bind, mret, M_ret, emit; cbn [trace fst].
  - rewrite app_nil_r. apply Forall_app. split; [done|]. by repeat constructor.
  - done.
Qed.

Lemma main_writes_inside_output_witness :
  Forall (inside_output (output demo_args)) (trace (@main demo_world demo_args)).
Proof.
  apply (@main_writes_inside_output demo_world demo_args).
  intros seed l. symmetry. apply Permutation_rev.
Defined.

(** ** The collection id of a root *)

Section RootName.
Implicit Types (c : ascii) (s : string).

Lemma str_snoc c s :
  s <> EmptyString ->
  exists s' a, s = s' +:+ String a EmptyString /\ PosixPath.endswith c s = Ascii.eqb a c.
Proof.
  induction s as [|b s IH]; [done|]. intros _. destruct s as [|b' t].
  - by exists EmptyString, b.
  - destruct (IH ltac:(done)) as (s' & a & Hs & He).
    exists (String b s'), a. split.
    + change (String b s' +:+ ?x) with (String b (s' +:+ x)). by rewrite <- Hs.
    + exact He.
Qed.

Lemma rfind_from_snoc c s a i :
  0 <= i ->
  PosixPath.rfind_from c (s +:+ String a EmptyString) i
  = if Ascii.eqb a c then i + Z.of_nat (String.length s) else PosixPath.rfind_from c s i.
Proof.
  intros Hi. rewrite rfind_from_app. cbn [PosixPath.rfind_from].
  change (-1 =? -1) with true. cbv iota.
  destruct (Ascii.eqb a c); [|done].
  by destruct (Z.eqb_spec (i + Z.of_nat (String.length s)) (-1)); [lia|].
Qed.

Lemma length_snoc s a :
  String.length (s +:+ String a EmptyString) = Datatypes.S (String.length s).
Proof. induction s as [|b s IH]; [done|]. cbn. by rewrite <- IH. Qed.

Lemma str_drop_length s : PosixPath.str_drop (String.length s) s = EmptyString.
Proof. induction s as [|b s IH]; [done|]. exact IH. Qed.

Lemma str_drop_app_le n :
  forall s1 s2, (n <= String.length s1)%nat ->
    PosixPath.str_drop n (s1 +:+ s2) = PosixPath.str_drop n s1 +:+ s2.
Proof.
  induction n as [|n IH]; intros s1 s2 Hn; [by destruct s1, s2|].
  destruct s1 as [|b s1]; [cbn in Hn; lia|].
  change (String b s1 +:+ s2) with (String b (s1 +:+ s2)).
  cbn [PosixPath.str_drop]. apply IH. cbn in Hn. lia.
Qed.

Lemma rstrip_id c s : PosixPath.endswith c s = false -> PosixPath.rstrip c s = s.
Proof.
  induction s as [|a s IH]; [done|]. destruct s as [|b t].
  - cbn. by intros ->.
  - intros He. change (PosixPath.endswith c (String a (String b t)))
      with (PosixPath.endswith c (String b t)) in He.
    cbn [PosixPath.rstrip] in *. by rewrite (IH He).
Qed.

(** A root written with a trailing separator has an empty last component. *)
Lemma basename_trailing_sep s :
  PosixPath.endswith PosixPath.sep s = true -> PosixPath.basename s = EmptyString.
Proof.
  intros He. destruct (str_snoc PosixPath.sep s) as (s' & a & -> & Ha).
  { by intros ->. }
  rewrite He in Ha. unfold PosixPath.basename, PosixPath.rfind.
  rewrite rfind_from_snoc, <- Ha by lia.
  replace (Z.to_nat (0 + Z.of_nat (String.length s') + 1))
    with (String.length (s' +:+ String a EmptyString)) by (rewrite length_snoc; lia).
  apply str_drop_length.
Qed.

(** Any other root but the empty one has a last component. *)
Lemma basename_nonempty s :
  s <> EmptyString -> PosixPath.endswith PosixPath.sep s = false ->
  PosixPath.basename s <> EmptyString.
Proof.
  intros Hs He. destruct (str_snoc PosixPath.sep s Hs) as (s' & a & -> & Ha).
  rewrite He in Ha. unfold PosixPath.basename, PosixPath.rfind.
  rewrite rfind_from_snoc, <- Ha by lia.
  rewrite str_drop_app_le.
  - by destruct (PosixPath.str_drop _ s').
  - destruct (rfind_from_spec PosixPath.sep s' 0 ltac:(lia)) as [[-> _]|[Hr _]]; lia.
Qed.
End RootName.

(** X18. The collection id of a root, in general: every pair discovered
    under a root written with a trailing separator has the empty
    collection id; under any other root the id is the root's folder name,
    which is not empty unless the root itself is the empty path. *)
Theorem collection_id_of_root `{World} (imgs_root : string) :
  exists ts,
    outcome (search_image_triplets imgs_root) = Ok ts
    /\ Forall (fun t =>
         collection_id t
         = if PosixPath.endswith PosixPath.sep imgs_root then EmptyString
           else root_name imgs_root) ts
    /\ (imgs_root <> EmptyString ->
        PosixPath.endswith PosixPath.sep imgs_root = false ->
        root_name imgs_root <> EmptyString).
Proof.
  rewrite search_image_triplets_run. eexists. split; [done|]. split.
  - apply Forall_fmap, Forall_forall. intros n _. cbn [collection_id compose].
    rewrite split_tail_basename.
    destruct (PosixPath.endswith PosixPath.sep imgs_root) eqn:He.
    + by apply basename_trailing_sep.
    + unfold root_name. by rewrite rstrip_id.
  - intros Hne He. unfold root_name. rewrite rstrip_id by done.
    by apply basename_nonempty.
Qed.

(** ** Discovery on plain listings *)

Section PlainListing.
Implicit Types (s dir n : string).

Lemma basename_dir_name dir n :
  str_contains PosixPath.sep n = false ->
  PosixPath.basename (dir +:+ String PosixPath.sep n) = n.
Proof.
  intros Hn. unfold PosixPath.basename, PosixPath.rfind.
  change (dir +:+ String PosixPath.sep n)
    with (dir +:+ String PosixPath.sep EmptyString +:+ n).
  rewrite <- str_app_assoc, rfind_from_app.
  rewrite (rfind_from_absent _ n) by (done || lia).
  change (-1 =? -1) with true. cbv iota.
  rewrite rfind_from_snoc by lia. rewrite Ascii.eqb_refl.
  replace (Z.to_nat (0 + Z.of_nat (String.length dir) + 1))
    with (String.length (dir +:+ String PosixPath.sep EmptyString))
    by (rewrite length_snoc; lia).
  apply str_drop_app.
Qed.

(** [os.path.join(os.path.join(root, sub), n)] for [sub] one of [clean]
    and [noisy]. *)
Lemma join_sub_name root sub n :
  sub = "clean" \/ sub = "noisy" ->
  PosixPath.startswith PosixPath.sep n = false ->
  PosixPath.join (PosixPath.join root [sub]) [n]
  = PosixPath.join root [sub] +:+ String PosixPath.sep n.
Proof.
  intros Hsub Hn. unfold PosixPath.join. cbn [fold_left].
  unfold PosixPath.join2 at 1. rewrite Hn.
  assert (Hdir : String.eqb (PosixPath.join2 root sub) EmptyString = false
                 /\ PosixPath.endswith PosixPath.sep (PosixPath.join2 root sub) = false).
  { unfold PosixPath.join2.
    destruct Hsub as [-> | ->].
    - change (PosixPath.startswith PosixPath.sep "clean") with false. cbv iota.
      destruct (String.eqb root EmptyString || PosixPath.endswith PosixPath.sep root).
      + by rewrite (eqb_app_nonempty root "c" "lean"), (endswith_app _ root "c" "lean").
      + by rewrite (eqb_app_nonempty root PosixPath.sep "clean"),
          (endswith_app _ root PosixPath.sep "clean").
    - change (PosixPath.startswith PosixPath.sep "noisy") with false. cbv iota.
      destruct (String.eqb root EmptyString || PosixPath.endswith PosixPath.sep root).
      + by rewrite (eqb_app_nonempty root "n" "oisy"), (endswith_app _ root "n" "oisy").
      + by rewrite (eqb_app_nonempty root PosixPath.sep "noisy"),
          (endswith_app _ root PosixPath.sep "noisy"). }
  destruct Hdir as [-> ->]. done.
Qed.

Lemma basename_listing root sub names :
  sub = "clean" \/ sub = "noisy" ->
  Forall (fun n => str_contains PosixPath.sep n = false) names ->
  map PosixPath.basename
    (map (fun n => PosixPath.join (PosixPath.join root [sub]) [n]) names)
  = names.
Proof.
  intros Hsub. induction 1 as [|n names Hn _ IH]; [done|].
  cbn [map]. rewrite IH. f_equal.
  rewrite join_sub_name by (done || by apply startswith_absent).
  by apply basename_dir_name.
Qed.
End PlainListing.

(** X19. Join correctness on plain listings: when [glob] lists the files
    of [<root>/clean] and of [<root>/noisy] by their paths
    [<root>/clean/<name>] and [<root>/noisy/<name>], discovery returns one
    pair per file name listed in both, and none for a name listed in one
    only; the names of the pairs are distinct and in Python's string
    order. *)
Theorem search_image_triplets_join `{World} (imgs_root : string)
    (clean_names noisy_names : list string) :
  Forall (fun n => str_contains PosixPath.sep n = false) clean_names ->
  Forall (fun n => str_contains PosixPath.sep n = false) noisy_names ->
  glob (PosixPath.join (PosixPath.join imgs_root ["clean"]) ["*.png"])
  = map (fun n => PosixPath.join (PosixPath.join imgs_root ["clean"]) [n]) clean_names ->
  glob (PosixPath.join (PosixPath.join imgs_root ["noisy"]) ["*.png"])
  = map (fun n => PosixPath.join (PosixPath.join imgs_root ["noisy"]) [n]) noisy_names ->
  exists names,
    search_image_triplets imgs_root
    = ([EGlob (PosixPath.join (PosixPath.join imgs_root ["clean"]) ["*.png"]);
        EGlob (PosixPath.join (PosixPath.join imgs_root ["noisy"]) ["*.png"])],
       Ok (map (Triplet (snd (PosixPath.split imgs_root))
                  (PosixPath.join imgs_root ["clean"])
                  (PosixPath.join imgs_root ["noisy"])) names))
    /\ NoDup names
    /\ StronglySorted str_le names
    /\ forall n, n ∈ names <-> n ∈ clean_names /\ n ∈ noisy_names.
Proof.
  intros Hc Hn Hgc Hgn. exists (joined_names imgs_root).
  split; [apply search_image_triplets_run|].
  destruct (joined_names_spec imgs_root) as (Hnd & Hs & Hiff).
  split; [done|]. split; [done|].
  intros n. rewrite Hiff. unfold image_names. rewrite Hgc, Hgn.
  by rewrite !basename_listing by (done || auto).
Qed.

Lemma search_image_triplets_join_witness :
  exists names,
    @search_image_triplets demo_world "data/setA"
    = ([EGlob "data/setA/clean/*.png"; EGlob "data/setA/noisy/*.png"],
       Ok (map (Triplet "setA" "data/setA/clean" "data/setA/noisy") names))
    /\ NoDup names
    /\ StronglySorted str_le names
    /\ forall n, n ∈ names <-> n ∈ ["b.png"; "a.png"] /\ n ∈ ["c.png"; "b.png"].
Proof.
  apply (@search_image_triplets_join demo_world "data/setA"
           ["b.png"; "a.png"] ["c.png"; "b.png"]).
  - repeat constructor.
  - repeat constructor.
  - reflexivity.
  - reflexivity.
Defined.

(** ** Pairs that cannot be processed *)

(** X20. An image that cannot be read stops the pair: when [cv2.imread]
    returns [None] for the clean image of a pair and the detector lets it
    pass, the loop body still copies the noisy image if that file can be
    opened and then fails with AttributeError at [img_clean.shape]; if the
    noisy file cannot be opened it fails at the copy.  In both cases no
    polygon document and no label mask is written for the pair. *)
Theorem gen_defect_unread_clean `{World} (output_root imgs labels : string)
    (t : img_triplet) (contours : list contour) :
  imread (PosixPath.join (clean_dir t) [img_name t]) = None ->
  find_defects None (imread (PosixPath.join (noisy_dir t) [img_name t])) = Ok contours ->
  gen_defect output_root imgs labels t
  = if readable (PosixPath.join (noisy_dir t) [img_name t])
    then ([EImread (PosixPath.join (clean_dir t) [img_name t]);
           EImread (PosixPath.join (noisy_dir t) [img_name t]);
           ECopyfile (PosixPath.join (noisy_dir t) [img_name t])
             (PosixPath.join output_root [raw_img_path imgs t])],
          Raise AttributeError)
    else ([EImread (PosixPath.join (clean_dir t) [img_name t]);
           EImread (PosixPath.join (noisy_dir t) [img_name t])],
          Raise OSError).
Proof.
  intros Hclean Hdet. unfold gen_defect, copyfile. rewrite Hclean, Hdet.
  by destruct (readable _).
Qed.

Lemma gen_defect_unread_clean_witness :
  @gen_defect torn_world "output" "leftImg8bit/defect/val" "gtFine/defect/val"
    (Triplet "setA" "data/setA/clean" "data/setA/noisy" "b.png")
  = ([EImread "data/setA/clean/b.png"; EImread "data/setA/noisy/b.png";
      ECopyfile "data/setA/noisy/b.png"
        "output/leftImg8bit/defect/val/setA_b_leftImg8bit.png"],
     Raise AttributeError).
Proof.
  apply (@gen_defect_unread_clean torn_world "output" "leftImg8bit/defect/val"
           "gtFine/defect/val"
           (Triplet "setA" "data/setA/clean" "data/setA/noisy" "b.png") []);
    reflexivity.
Defined.

(** X21. The loop stops at the first pair that fails: when the pairs
    before it are processed and the body raises on a pair, [gen_defects]
    raises the same exception; it has created the two directories, done
    the pairs before in full and the failing pair up to its failure, and
    it has not touched the pairs after it, whatever they are. *)
Theorem gen_defects_abort `{World} (good rest : list img_triplet) (bad : img_triplet)
    (e : exn) (output_root imgs labels : string) :
  Forall processable good ->
  outcome (gen_defect output_root imgs labels bad) = Raise e ->
  gen_defects (good ++ bad :: rest) output_root imgs labels
  = (trace (gen_defects good output_root imgs labels)
       ++ trace (gen_defect output_root imgs labels bad),
     Raise e)
  /\ copies (trace (gen_defects (good ++ bad :: rest) output_root imgs labels))
     = map (fun t => (PosixPath.join (noisy_dir t) [img_name t],
                      PosixPath.join output_root [raw_img_path imgs t])) good
       ++ copies (trace (gen_defect output_root imgs labels bad)).
Proof.
  intros Hgood Hbad.
  rewrite (gen_defects_abort_run good bad rest e) by done.
  rewrite gen_defects_run by done. cbn [trace fst].
  split; [by rewrite <- app_assoc|].
  rewrite !copies_app, copies_gen_defect_loop by done. done.
Qed.

Lemma gen_defects_abort_witness :
  @gen_defects torn_world
    ([pair_a] ++ Triplet "setA" "data/setA/clean" "data/setA/noisy" "b.png" :: [pair_a_b])
    "output" "leftImg8bit/defect/val" "gtFine/defect/val"
  = (trace (@gen_defects torn_world [pair_a] "output" "leftImg8bit/defect/val"
              "gtFine/defect/val")
       ++ trace (@gen_defect torn_world "output" "leftImg8bit/defect/val"
                   "gtFine/defect/val"
                   (Triplet "setA" "data/setA/clean" "data/setA/noisy" "b.png")),
     Raise AttributeError)
  /\ copies (trace (@gen_defects torn_world
       ([pair_a] ++ Triplet "setA" "data/setA/clean" "data/setA/noisy" "b.png" :: [pair_a_b])
       "output" "leftImg8bit/defect/val" "gtFine/defect/val"))
     = map (fun t => (PosixPath.join (noisy_dir t) [img_name t],
                      PosixPath.join "output" [raw_img_path "leftImg8bit/defect/val" t]))
         [pair_a]
       ++ copies (trace (@gen_defect torn_world "output" "leftImg8bit/defect/val"
                           "gtFine/defect/val"
                           (Triplet "setA" "data/setA/clean" "data/setA/noisy" "b.png"))).
Proof.
  apply (@gen_defects_abort torn_world [pair_a] [pair_a_b]
           (Triplet "setA" "data/setA/clean" "data/setA/noisy" "b.png")
           AttributeError "output" "leftImg8bit/defect/val" "gtFine/defect/val").
  - repeat constructor. by exists [[[7; 7; 7]; [7; 7; 7]]], [[[7; 7; 7]; [7; 7; 7]]], [].
  - reflexivity.
Defined.

(** X22. A split that fails leaves no manifest: when the splits before it
    are generated and [gen_defects] raises in a split, [gen_dataset] raises
    the same exception; the manifests written are those of the splits
    before, and neither the failing split nor a later one has a
    manifest. *)
Theorem gen_dataset_abort `{World} (before rest : dict (list img_triplet))
    (split : string) (ts : list img_triplet) (e : exn) (output_root : string) :
  Forall (fun kv => Forall processable kv.2) before ->
  outcome (gen_defects ts output_root (imgs_dir_of split) (labels_dir_of split)) = Raise e ->
  outcome (gen_dataset (before ++ (split, ts) :: rest) output_root) = Raise e
  /\ manifests (trace (gen_dataset (before ++ (split, ts) :: rest) output_root))
     = map (fun kv => manifest_of output_root kv.1 kv.2) before.
Proof.
  intros Hbefore He.
  rewrite (gen_dataset_abort_run before split ts rest e) by done.
  cbn [outcome trace fst snd]. split; [done|].
  rewrite manifests_app, manifests_cons, manifests_gen_defects, manifests_splits by done.
  by rewrite app_nil_r.
Qed.

Lemma gen_dataset_abort_witness :
  outcome (@gen_dataset torn_world
             ([("train", [pair_a])]
                ++ ("val", [Triplet "setA" "data/setA/clean" "data/setA/noisy" "b.png"])
                   :: [("test", [pair_a_b])]) "output")
  = Raise AttributeError
  /\ manifests (trace (@gen_dataset torn_world
                         ([("train", [pair_a])]
                            ++ ("val", [Triplet "setA" "data/setA/clean"
                                          "data/setA/noisy" "b.png"])
                               :: [("test", [pair_a_b])]) "output"))
     = map (fun kv => manifest_of "output" kv.1 kv.2) [("train", [pair_a])].
Proof.
  apply (@gen_dataset_abort torn_world [("train", [pair_a])] [("test", [pair_a_b])]
           "val" [Triplet "setA" "data/setA/clean" "data/setA/noisy" "b.png"]
           AttributeError "output").
  - repeat constructor. by exists [[[7; 7; 7]; [7; 7; 7]]], [[[7; 7; 7]; [7; 7; 7]]], [].
  - reflexivity.
Defined.
